(** * Ant colony update engine (dualcore/ants.py)

    A shallow embedding of the [Colony] class: the constructor, the
    return-to-nest pass, the explore/follow pass with its retry loop, the
    tick ([advance]) and [returns]; and of the display of the ants
    ([Colony_show]), as the list of the calls it makes to the screen.  The
    colony is a structure of parallel arrays, exactly as in the source;
    numpy's fancy indexing is modelled on lists of indices,
    fixed-width integers with their wrap-around, failures (an index out of
    range, a shape mismatch, a loop that does not stop) in an error monad.

    Floating point.  The source uses float64 in three places.  Two are
    modelled exactly on rationals: the pheromone levels, which are only
    compared, maximised and multiplied by 0 or 1 (exact operations on finite
    floats); and the choice [seed / 2147483647.], which is only compared with
    the threshold 0 (its sign is the sign of the seed).  The third, the
    product [max_life * (seed / 2147483647.)] of the constructor, of which
    the integer part is used, is computed in binary64: the division and the
    product each round to nearest, ties to even, as [SpecFloat] specifies
    them.

    Integers.  Arithmetic on an array of a fixed width wraps around, and so
    does, in the model, the assignment of a Python integer to such an array;
    the statements below that read a value back assume that it fits.  The
    constants of the modules [direction] and [maze] are not part of the
    source: they are the fields of two classes, and the statements say what
    they assume of them. *)

From Stdlib Require Import ZArith QArith Qround Qpower Lia Lqa SpecFloat.
From stdpp Require Import base list numbers.

Close Scope Q_scope.
Open Scope Z_scope.

(** ** Exceptions and the error monad *)

Inductive exn : Set :=
  | IndexError    (* an index outside an axis *)
  | ValueError    (* a shape mismatch or a negative dimension *)
  | Diverged.     (* the retry loop did not stop within the fuel given *)

Inductive result (A : Type) : Type :=
  | Ok (a : A)
  | Raise (e : exn).
Arguments Ok {A} a.
Arguments Raise {A} e.

#[global] Instance result_ret : MRet result := λ A a, Ok a.
#[global] Instance result_bind : MBind result :=
  λ A B f m, match m with Ok a => f a | Raise e => Raise e end.

(** [mapM] of the error monad, written out so that it computes. *)
Fixpoint lanes {A B} (f : A → result B) (l : list A) : result (list B) :=
  match l with
  | [] => Ok []
  | x :: l' => y ← f x; ys ← lanes f l'; Ok (y :: ys)
  end.

(** ** Fixed-width integers *)

Definition wrap8 (z : Z) : Z := (z + 128) `mod` 256 - 128.
Definition wrap16 (z : Z) : Z := (z + 32768) `mod` 65536 - 32768.
Definition wrap32 (z : Z) : Z := (z + 2147483648) `mod` 4294967296 - 2147483648.
Definition wrap64 (z : Z) : Z :=
  (z + 9223372036854775808) `mod` 18446744073709551616 - 9223372036854775808.

Definition b2z (b : bool) : Z := if b then 1 else 0.

(** ** numpy indexing *)

(** [a[i]] for an index known to be a natural number. *)
Definition getitem {A} (a : list A) (i : nat) : result A :=
  match a !! i with Some x => Ok x | None => Raise IndexError end.

(** An integer index along an axis of length [n]: negative indices count
    from the end, anything else out of range raises. *)
Definition norm_index (n : nat) (k : Z) : result nat :=
  if (0 <=? k) && (k <? Z.of_nat n) then Ok (Z.to_nat k)
  else if (- Z.of_nat n <=? k) && (k <? 0) then Ok (Z.to_nat (Z.of_nat n + k))
  else Raise IndexError.

Definition np_get {A} (a : list A) (k : Z) : result A :=
  j ← norm_index (length a) k; getitem a j.

(** [m[r, c]] on a two-dimensional array. *)
Definition np_get2 {A} (m : list (list A)) (r c : Z) : result A :=
  row ← np_get m r; np_get row c.

(** [a[idx]] for an array of indices. *)
Definition take {A} (a : list A) (idx : list nat) : result (list A) :=
  lanes (getitem a) idx.

(** [a[i] = v] for each pair, in order. *)
Fixpoint assign {A} (a : list A) (ivs : list (nat * A)) : result (list A) :=
  match ivs with
  | [] => Ok a
  | (i, v) :: ivs' =>
      if decide (i < length a)%nat then assign (<[i:=v]> a) ivs'
      else Raise IndexError
  end.

(** [a[idx] = vals]. *)
Definition put {A} (a : list A) (idx : list nat) (vals : list A) : result (list A) :=
  if decide (length idx = length vals) then assign a (zip idx vals)
  else Raise ValueError.

(** [a[idx] = v] with a scalar on the right. *)
Definition put_const {A} (a : list A) (idx : list nat) (v : A) : result (list A) :=
  put a idx (replicate (length idx) v).

(** [h[i, k] = f (h[i, k])] for each triple, in order: the writes into the
    path history, whose second index is an integer that numpy normalises. *)
Fixpoint alter2 {A} (h : list (list A)) (ops : list (nat * Z * (A → A)))
  : result (list (list A)) :=
  match ops with
  | [] => Ok h
  | (i, k, f) :: ops' =>
      row ← getitem h i;
      j ← norm_index (length row) k;
      alter2 (<[i := alter f j row]> h) ops'
  end.

(** [np.nonzero(mask)[0]]. *)
Fixpoint nonzero_from (k : nat) (mask : list bool) : list nat :=
  match mask with
  | [] => []
  | b :: mask' =>
      if b then k :: nonzero_from (S k) mask' else nonzero_from (S k) mask'
  end.
Definition nonzero (mask : list bool) : list nat := nonzero_from 0 mask.

(** [a[mask]] for a boolean mask. *)
Definition compress {A} (mask : list bool) (a : list A) : result (list A) :=
  if decide (length mask = length a) then take a (nonzero mask)
  else Raise IndexError.

(** ** The colony *)

Definition UNLOADED : bool := false.
Definition LOADED : bool := true.

Definition exploration_coefs : Q := 0%Q.

(** A position: row and column. *)
Abbreviation pos := (Z * Z)%type (only parsing).

(** The constants of the modules [direction] and [maze], which the source
    imports and whose values it does not fix. *)
Class direction := {
  DIR_NONE : Z; DIR_NORTH : Z; DIR_EAST : Z; DIR_WEST : Z; DIR_SOUTH : Z }.
Class maze_flags := { NORTH : Z; EAST : Z; SOUTH : Z; WEST : Z }.

Record Colony := mkColony {
  seeds : list Z;                   (* int64 *)
  is_loaded : list bool;            (* int8, holding False or True *)
  max_life : list Z;                (* int32 *)
  age : list Z;                     (* int64 *)
  historic_path : list (list pos);  (* int16, shape (nb_ants, max_life+1, 2) *)
  directions : list Z               (* int8 *)
}.

Definition set_seeds (c : Colony) (x : list Z) : Colony :=
  mkColony x (is_loaded c) (max_life c) (age c) (historic_path c) (directions c).
Definition set_is_loaded (c : Colony) (x : list bool) : Colony :=
  mkColony (seeds c) x (max_life c) (age c) (historic_path c) (directions c).
Definition set_age (c : Colony) (x : list Z) : Colony :=
  mkColony (seeds c) (is_loaded c) (max_life c) x (historic_path c) (directions c).
Definition set_historic_path (c : Colony) (x : list (list pos)) : Colony :=
  mkColony (seeds c) (is_loaded c) (max_life c) (age c) x (directions c).
Definition set_directions (c : Colony) (x : list Z) : Colony :=
  mkColony (seeds c) (is_loaded c) (max_life c) (age c) (historic_path c) x.

(** The recurrence of the generator: [np.mod(16807*seed, 2147483647)] on
    int64. *)
Definition lcg (s : Z) : Z := wrap64 (16807 * s) `mod` 2147483647.

(** ** Binary64

    Line 39 computes [max_life * (self.seeds / 2147483647.)] in float64 and
    converts the product to int32, which drops its fractional part.  The
    conversion of the integers to float64, the division and the product are
    those of IEEE 754 binary64 (a mantissa of 53 bits, round to nearest, ties
    to even), in the formulation of [SpecFloat]. *)
Definition f64_of_Z (z : Z) : spec_float := binary_normalize 53 1024 z 0 false.
Definition f64_div : spec_float → spec_float → spec_float := SFdiv 53 1024.
Definition f64_mul : spec_float → spec_float → spec_float := SFmul 53 1024.

(** The integer part of a float, towards zero.  The conversion of an
    infinity or of a NaN to an integer is not defined; neither occurs for a
    configured life between 0 and 2^31. *)
Definition f64_trunc (x : spec_float) : Z :=
  match x with
  | S754_finite s m e =>
      let v := if 0 <=? e then Z.pos m * 2 ^ e else Z.pos m `div` 2 ^ (- e) in
      if s then - v else v
  | _ => 0
  end.

(** The integer part of [max_life * (seed / 2147483647.)]. *)
Definition life_product (max_life0 s : Z) : Z :=
  f64_trunc (f64_mul (f64_of_Z max_life0)
                     (f64_div (f64_of_Z s) (f64_of_Z 2147483647))).

Section Model.
Context `{direction} `{maze_flags}.

(** *** [Colony.__init__] *)

Definition Colony_init (nb_ants : nat) (pos_init : pos) (max_life0 : Z)
  : result Colony :=
  let seeds0 := (λ k, wrap64 (Z.of_nat k)) <$> seq 1 nb_ants in
  let seeds1 := lcg <$> seeds0 in
  let life0 := replicate nb_ants (wrap32 max_life0) in
  let life1 :=
    zip_with (λ m s, wrap32 (m - wrap32 (life_product max_life0 s) `div` 4))
             life0 seeds1 in
  if max_life0 + 1 <? 0 then Raise ValueError
  else if max_life0 + 1 =? 0 then Raise IndexError
  else
    let row := (wrap16 pos_init.1, wrap16 pos_init.2)
               :: replicate (Z.to_nat max_life0) (0, 0) in
    Ok {| seeds := seeds1;
          is_loaded := replicate nb_ants UNLOADED;
          max_life := life1;
          age := replicate nb_ants 0;
          historic_path := replicate nb_ants row;
          directions := replicate nb_ants (wrap8 DIR_NONE) |}.

(** *** [Colony.return_to_nest] *)

Definition return_to_nest (c : Colony) (loaded_ants : list nat)
    (pos_nest : pos) (food_counter : Z) : result (Colony * Z) :=
  (* self.age[loaded_ants] -= 1 *)
  ages ← take (age c) loaded_ants;
  age1 ← put (age c) loaded_ants ((λ a, wrap64 (a - 1)) <$> ages);
  (* in_nest_tmp = self.historic_path[loaded_ants, self.age[loaded_ants], :] == pos_nest *)
  in_nest_tmp ← lanes (λ i,
      a ← getitem age1 i;
      row ← getitem (historic_path c) i;
      p ← np_get row a;
      Ok (p.1 =? pos_nest.1, p.2 =? pos_nest.2)) loaded_ants;
  if existsb (λ b : bool * bool, b.1 || b.2) in_nest_tmp then
    let in_nest_loc := nonzero ((λ b : bool * bool, b.1 && b.2) <$> in_nest_tmp) in
    if decide (0 < length in_nest_loc)%nat then
      in_nest ← take loaded_ants in_nest_loc;
      loaded1 ← put_const (is_loaded c) in_nest UNLOADED;
      age2 ← put_const age1 in_nest 0;
      Ok (set_age (set_is_loaded c loaded1) age2,
          food_counter + Z.of_nat (length in_nest_loc))
    else Ok (set_age c age1, food_counter)
  else Ok (set_age c age1, food_counter).

(** *** [Colony.explore] *)

(** What the pass reads for one ant at its current cell: the four exits of
    the cell and the pheromone of the four neighbours, a closed exit reading
    0 (the level multiplied by the boolean). *)
Record ant_sense := mkSense {
  has_north_exit : bool; has_east_exit : bool;
  has_south_exit : bool; has_west_exit : bool;
  north_pheromone : Q; east_pheromone : Q;
  south_pheromone : Q; west_pheromone : Q }.

Definition Qltb (x y : Q) : bool := negb (Qle_bool y x).
(** [np.maximum] *)
Definition Qmaxb (x y : Q) : Q := if Qle_bool x y then y else x.
(** [level * has_exit] *)
Definition gate (level : Q) (has_exit : bool) : Q :=
  if has_exit then level else 0%Q.

Definition max_pheromones (sn : ant_sense) : Q :=
  Qmaxb (Qmaxb (Qmaxb (north_pheromone sn) (east_pheromone sn))
               (south_pheromone sn))
        (west_pheromone sn).

Definition nb_exits (sn : ant_sense) : Z :=
  b2z (has_north_exit sn) + b2z (has_east_exit sn)
  + b2z (has_south_exit sn) + b2z (has_west_exit sn).

(** [historic_path[range(0, seeds.shape[0]), age[:], :]] *)
Definition current_positions (c : Colony) : result (list pos) :=
  if decide (length (age c) = length (seeds c)) then
    lanes (λ i, a ← getitem (age c) i;
                row ← getitem (historic_path c) i;
                np_get row a) (seq 0 (length (seeds c)))
  else Raise IndexError.

(** The pheromone array has one ghost cell on each side: the neighbours of
    the maze cell (r, c) are read at (r, c+1), (r+1, c+2), (r+2, c+1) and
    (r+1, c), the offsets being added to int16 copies of the position. *)
Definition sense_cell (the_maze : list (list Z)) (pheromon : list (list Q))
    (p : pos) : result ant_sense :=
  cell ← np_get2 the_maze p.1 p.2;
  let hn := 0 <? Z.land cell NORTH in
  let he := 0 <? Z.land cell EAST in
  let hs := 0 <? Z.land cell SOUTH in
  let hw := 0 <? Z.land cell WEST in
  pn ← np_get2 pheromon p.1 (wrap16 (p.2 + 1));
  pe ← np_get2 pheromon (wrap16 (p.1 + 1)) (wrap16 (p.2 + 2));
  ps ← np_get2 pheromon (wrap16 (p.1 + 2)) (wrap16 (p.2 + 1));
  pw ← np_get2 pheromon (wrap16 (p.1 + 1)) p.2;
  Ok (mkSense hn he hs hw (gate pn hn) (gate pe he) (gate ps hs) (gate pw hw)).

Definition sense_all (c : Colony) (the_maze : list (list Z))
    (pheromon : list (list Q)) : result (list ant_sense) :=
  old_pos_ants ← current_positions c;
  lanes (sense_cell the_maze pheromon) old_pos_ants.

(** Line 88: the seeds of the ants of [unloaded_ants] advance one step. *)
Definition advance_seeds (c : Colony) (unloaded_ants : list nat) : result Colony :=
  ss ← take (seeds c) unloaded_ants;
  seeds1 ← put (seeds c) unloaded_ants (lcg <$> ss);
  Ok (set_seeds c seeds1).

(** [choices = self.seeds[:] / 2147483647.] *)
Definition choices_of (c : Colony) : list Q :=
  (λ s, Qmake s 2147483647) <$> seeds c.

Definition explore_mask (choices : list Q) (senses : list ant_sense)
    (unloaded_ants : list nat) : result (list bool) :=
  lanes (λ i, ch ← getitem choices i;
              sn ← getitem senses i;
              Ok (Qle_bool ch exploration_coefs
                  || Qeq_bool (max_pheromones sn) 0%Q)) unloaded_ants.

Definition follow_mask (choices : list Q) (senses : list ant_sense)
    (unloaded_ants : list nat) : result (list bool) :=
  lanes (λ i, ch ← getitem choices i;
              sn ← getitem senses i;
              Ok (Qltb exploration_coefs ch
                  && Qltb 0%Q (max_pheromones sn))) unloaded_ants.

(** One lane of an iteration of the retry loop (lines 136 to 152): the
    direction drawn from the seed, the move it gives and its validity. *)
Record move := mkMove {
  mv_dir : Z; mv_old : pos; mv_new : pos; mv_valid : bool }.

Definition move_of (s : Z) (old_pos : pos) (sn : ant_sense) (prev : Z) : move :=
  let dir := s `mod` 4 in
  let c1 := wrap16 (old_pos.2 - b2z ((dir =? DIR_WEST) && has_west_exit sn)) in
  let c2 := wrap16 (c1 + b2z ((dir =? DIR_EAST) && has_east_exit sn)) in
  let r1 := wrap16 (old_pos.1 - b2z ((dir =? DIR_NORTH) && has_north_exit sn)) in
  let r2 := wrap16 (r1 + b2z ((dir =? DIR_SOUTH) && has_south_exit sn)) in
  let moved := negb (r2 =? old_pos.1) || negb (c2 =? old_pos.2) in
  let valid := moved && (negb (dir =? wrap8 (3 - prev)) || (nb_exits sn =? 1)) in
  mkMove dir old_pos (r2, c2) valid.

Definition try_move (c : Colony) (senses : list ant_sense) (i : nat)
  : result move :=
  s ← getitem (seeds c) i;
  a ← getitem (age c) i;
  row ← getitem (historic_path c) i;
  old_pos ← np_get row a;
  sn ← getitem senses i;
  prev ← getitem (directions c) i;
  Ok (move_of s old_pos sn prev).

(** The state of the retry loop: the colony and [valid_moves]. *)
Definition retry_iter (c : Colony) (senses : list ant_sense)
    (valid_moves : list bool) (ind_exploring_ants : list nat)
  : result (Colony * list bool) :=
  vm ← take valid_moves ind_exploring_ants;
  ind_ants_to_move ← compress (negb <$> vm) ind_exploring_ants;
  (* self.seeds[:] = np.mod(16807*self.seeds[:], 2147483647) *)
  let c1 := set_seeds c (lcg <$> seeds c) in
  moves ← lanes (try_move c1 senses) ind_ants_to_move;
  valid_moves1 ← put valid_moves ind_ants_to_move (mv_valid <$> moves);
  vm1 ← take valid_moves1 ind_ants_to_move;
  ind_valid_moves ← take ind_ants_to_move (nonzero vm1);
  ages ← take (age c1) ind_valid_moves;
  new_pos ← compress vm1 (mv_new <$> moves);
  path1 ← alter2 (historic_path c1)
             (zip (zip ind_valid_moves ((λ a, wrap64 (a + 1)) <$> ages))
                  ((λ p _, p) <$> new_pos));
  dir ← compress vm1 (mv_dir <$> moves);
  directions1 ← put (directions c1) ind_valid_moves (wrap8 <$> dir);
  Ok (set_directions (set_historic_path c1 path1) directions1, valid_moves1).

(** [while np.any(valid_moves[ind_exploring_ants] == 0)], with fuel. *)
Fixpoint retry_loop (fuel : nat) (c : Colony) (senses : list ant_sense)
    (valid_moves : list bool) (ind_exploring_ants : list nat)
  : result (Colony * list bool) :=
  vm ← take valid_moves ind_exploring_ants;
  if existsb negb vm then
    match fuel with
    | O => Raise Diverged
    | S fuel' =>
        st ← retry_iter c senses valid_moves ind_exploring_ants;
        retry_loop fuel' st.1 senses st.2 ind_exploring_ants
    end
  else Ok (c, valid_moves).

(** Lines 124 to 127 and 159 to 162: the ants that explore and the ants
    that follow, as indices into the colony. *)
Definition exploring_ants (choices : list Q) (senses : list ant_sense)
    (unloaded_ants : list nat) : result (list nat) :=
  mask ← explore_mask choices senses unloaded_ants;
  take unloaded_ants (nonzero mask).

Definition following_ants (choices : list Q) (senses : list ant_sense)
    (unloaded_ants : list nat) : result (list nat) :=
  mask ← follow_mask choices senses unloaded_ants;
  take unloaded_ants (nonzero mask).

(** Lines 124 to 157. *)
Definition explore_moves (fuel : nat) (c : Colony) (choices : list Q)
    (senses : list ant_sense) (unloaded_ants : list nat) : result Colony :=
  ind_exploring_ants ← exploring_ants choices senses unloaded_ants;
  if decide (0 < length ind_exploring_ants)%nat then
    let valid_moves := replicate (length choices) false in
    st ← retry_loop fuel c senses valid_moves ind_exploring_ants;
    Ok st.1
  else Ok c.

(** Lines 159 to 174.  Each in-place addition reads the cells it updates
    before it writes them; the ants of an index array being distinct, this
    is the cell-by-cell update of [alter2]. *)
Definition follow_moves (c : Colony) (choices : list Q)
    (senses : list ant_sense) (unloaded_ants : list nat) : result Colony :=
  ind_following_ants ← following_ants choices senses unloaded_ants;
  if decide (0 < length ind_following_ants)%nat then
    ages ← take (age c) ind_following_ants;
    let next := (λ a, wrap64 (a + 1)) <$> ages in
    cur ← lanes (λ i, a ← getitem (age c) i;
                      row ← getitem (historic_path c) i;
                      np_get row a) ind_following_ants;
    path1 ← alter2 (historic_path c)
               (zip (zip ind_following_ants next) ((λ p _, p) <$> cur));
    sns ← take senses ind_following_ants;
    let shift_col (d : Z) (p : pos) : pos := (p.1, wrap16 (p.2 + d)) in
    let shift_row (d : Z) (p : pos) : pos := (wrap16 (p.1 + d), p.2) in
    let max_east := (λ sn, Qeq_bool (east_pheromone sn) (max_pheromones sn)) <$> sns in
    path2 ← alter2 path1
               (zip (zip ind_following_ants next)
                    ((λ b, shift_col (b2z b)) <$> max_east));
    let max_west := (λ sn, Qeq_bool (west_pheromone sn) (max_pheromones sn)) <$> sns in
    path3 ← alter2 path2
               (zip (zip ind_following_ants next)
                    ((λ b, shift_col (- b2z b)) <$> max_west));
    let max_north := (λ sn, Qeq_bool (north_pheromone sn) (max_pheromones sn)) <$> sns in
    path4 ← alter2 path3
               (zip (zip ind_following_ants next)
                    ((λ b, shift_row (- b2z b)) <$> max_north));
    let max_south := (λ sn, Qeq_bool (south_pheromone sn) (max_pheromones sn)) <$> sns in
    path5 ← alter2 path4
               (zip (zip ind_following_ants next)
                    ((λ b, shift_row (b2z b)) <$> max_south));
    Ok (set_historic_path c path5)
  else Ok c.

(** Lines 176 to 178. *)
Definition grow_older (c : Colony) (unloaded_ants : list nat) : result Colony :=
  if decide (0 < length unloaded_ants)%nat then
    ages ← take (age c) unloaded_ants;
    age1 ← put (age c) unloaded_ants ((λ a, wrap64 (a + 1)) <$> ages);
    Ok (set_age c age1)
  else Ok c.

(** Lines 180 to 186. *)
Definition kill_old (c : Colony) (pos_nest : pos) : result Colony :=
  if decide (length (age c) = length (max_life c)) then
    let ind_dying_ants := nonzero (zip_with Z.eqb (age c) (max_life c)) in
    if decide (0 < length ind_dying_ants)%nat then
      age1 ← put_const (age c) ind_dying_ants 0;
      path1 ← alter2 (historic_path c)
                 ((λ i, (i, 0, λ p : pos, (wrap16 pos_nest.1, p.2))) <$> ind_dying_ants);
      path2 ← alter2 path1
                 ((λ i, (i, 0, λ p : pos, (p.1, wrap16 pos_nest.2))) <$> ind_dying_ants);
      directions1 ← put_const (directions c) ind_dying_ants (wrap8 DIR_NONE);
      Ok (set_directions (set_historic_path (set_age c age1) path2) directions1)
    else Ok c
  else Raise ValueError.

(** Lines 188 to 193. *)
Definition pick_food (c : Colony) (unloaded_ants : list nat) (pos_food : pos)
  : result Colony :=
  at_food ← lanes (λ i, a ← getitem (age c) i;
                        row ← getitem (historic_path c) i;
                        p ← np_get row a;
                        Ok ((p.1 =? pos_food.1) && (p.2 =? pos_food.2)))
                  unloaded_ants;
  let ants_at_food_loc := nonzero at_food in
  if decide (0 < length ants_at_food_loc)%nat then
    ants_at_food ← take unloaded_ants ants_at_food_loc;
    loaded1 ← put_const (is_loaded c) ants_at_food LOADED;
    Ok (set_is_loaded c loaded1)
  else Ok c.

(** Lines 87 to 174: the decision and the move of every unloaded ant. *)
Definition move_ants (fuel : nat) (c : Colony) (unloaded_ants : list nat)
    (the_maze : list (list Z)) (pheromon : list (list Q)) : result Colony :=
  c1 ← advance_seeds c unloaded_ants;
  senses ← sense_all c1 the_maze pheromon;
  let choices := choices_of c1 in
  c2 ← explore_moves fuel c1 choices senses unloaded_ants;
  follow_moves c2 choices senses unloaded_ants.

Definition explore (fuel : nat) (c : Colony) (unloaded_ants : list nat)
    (the_maze : list (list Z)) (pos_food pos_nest : pos)
    (pheromon : list (list Q)) : result Colony :=
  c3 ← move_ants fuel c unloaded_ants the_maze pheromon;
  c4 ← grow_older c3 unloaded_ants;
  c5 ← kill_old c4 pos_nest;
  pick_food c5 unloaded_ants pos_food.

(** *** [Colony.advance] *)

(** The deposit requested for one ant: [pheromones.mark(position,
    [north, east, west, south])], a call into the pheromone module. *)
Definition mark_call : Type := pos * (bool * bool * bool * bool).

Definition marks (c : Colony) (the_maze : list (list Z)) : result (list mark_call) :=
  old_pos_ants ← current_positions c;
  cells ← lanes (λ p : pos, np_get2 the_maze p.1 p.2) old_pos_ants;
  lanes (λ i, a ← getitem (age c) i;
              row ← getitem (historic_path c) i;
              p ← np_get row a;
              cell ← getitem cells i;
              Ok (p, (0 <? Z.land cell NORTH, 0 <? Z.land cell EAST,
                      0 <? Z.land cell WEST, 0 <? Z.land cell SOUTH)))
        (seq 0 (length (directions c))).

(** [np.nonzero(self.is_loaded == True)[0]] and
    [np.nonzero(self.is_loaded == False)[0]]. *)
Definition loaded_of (c : Colony) : list nat :=
  nonzero ((λ b, bool_decide (b = LOADED)) <$> is_loaded c).
Definition unloaded_of (c : Colony) : list nat :=
  nonzero ((λ b, bool_decide (b = UNLOADED)) <$> is_loaded c).

Definition advance (fuel : nat) (c : Colony) (the_maze : list (list Z))
    (pos_food pos_nest : pos) (pheromon : list (list Q)) (food_counter : Z)
  : result (Colony * Z * list mark_call) :=
  let loaded_ants := loaded_of c in
  let unloaded_ants := unloaded_of c in
  st ← (if decide (0 < length loaded_ants)%nat
        then return_to_nest c loaded_ants pos_nest food_counter
        else Ok (c, food_counter));
  c2 ← (if decide (0 < length unloaded_ants)%nat
        then explore fuel st.1 unloaded_ants the_maze pos_food pos_nest pheromon
        else Ok st.1);
  ms ← marks c2 the_maze;
  Ok (c2, st.2, ms).

End Model.

(** *** [Colony.returns] *)

Definition returns (c : Colony) : list Z * list (list pos) * list Z :=
  (directions c, historic_path c, age c).

(** ** The display of the ants *)

(** [Colony_show.__init__] cuts four sprites of 8 by 8 pixels out of the
    image [ants.png], at the abscissas [range(0, 32, 8)]; a sprite is
    modelled by the rectangle it is cut from: left, top, width, height. *)
Definition sprite : Type := Z * Z * Z * Z.

Definition Colony_show_init : list sprite :=
  (λ i, (i, 0, 8, 8)) <$> [0; 8; 16; 24].

(** [Colony_show.display]: the calls [screen.blit(sprite, (x, y))] it makes,
    one per ant.  The sprite is [sprites[directions_recv[i]]], an index into
    a Python list, which like an index into an array counts from the end
    when negative; the coordinates are 8 times the column and 8 times the
    row of the cell, products of 16-bit integers. *)
Definition blit_call : Type := sprite * (Z * Z).

Definition display (sprites : list sprite) (directions_recv : list Z)
    (historic_path_recv : list (list pos)) (age_recv : list Z)
  : result (list blit_call) :=
  lanes (λ i, d ← getitem directions_recv i;
              sp ← np_get sprites d;
              a ← getitem age_recv i;
              row ← getitem historic_path_recv i;
              p ← np_get row a;
              Ok (sp, (wrap16 (8 * p.2), wrap16 (8 * p.1))))
        (seq 0 (length directions_recv)).

(** * Notions used in the statements *)

(** The elements of [xs] at the places where [mask] is set: what
    [xs[np.nonzero(mask)[0]]] and [xs[mask]] return. *)
Fixpoint mask_select {A} (mask : list bool) (xs : list A) : list A :=
  match mask, xs with
  | b :: mask', x :: xs' =>
      if b then x :: mask_select mask' xs' else mask_select mask' xs'
  | _, _ => []
  end.

(** The modulus and the ranges of the integer types. *)
Definition modulus : Z := 2147483647.
Definition in_int8 (z : Z) : Prop := -128 ≤ z < 128.
Definition in_int16 (z : Z) : Prop := -32768 ≤ z < 32768.

(** A seed the generator can keep alive: a nonzero residue. *)
Definition seed_ok (s : Z) : Prop := 0 < s < modulus.

(** The ages of an int64 array that a step of one cannot wrap. *)
Definition age_in_range (a : Z) : Prop :=
  -9223372036854775808 < a < 9223372036854775807.

(** The direction constants are the numbers 0 to 3, with [3 - d] the
    opposite of [d]: what the draw [seed mod 4] and the test
    [dir != 3 - directions] of the retry loop rely on. *)
Definition dirs_wf `{direction} : Prop :=
  0 ≤ DIR_NORTH ≤ 3 ∧ 0 ≤ DIR_EAST ≤ 3
  ∧ DIR_NORTH + DIR_SOUTH = 3 ∧ DIR_EAST + DIR_WEST = 3
  ∧ DIR_NORTH ≠ DIR_EAST ∧ DIR_NORTH ≠ DIR_WEST.

(** Whether the exit of a cell in direction [d] is open. *)
Definition exit_open `{direction} (sn : ant_sense) (d : Z) : bool :=
  (d =? DIR_NORTH) && has_north_exit sn || (d =? DIR_EAST) && has_east_exit sn
  || (d =? DIR_SOUTH) && has_south_exit sn || (d =? DIR_WEST) && has_west_exit sn.

(** The neighbour of a cell in direction [d]: north is one row up, east one
    column right. *)
Definition neighbour `{direction} (p : pos) (d : Z) : pos :=
  if d =? DIR_NORTH then (p.1 - 1, p.2)
  else if d =? DIR_SOUTH then (p.1 + 1, p.2)
  else if d =? DIR_EAST then (p.1, p.2 + 1)
  else if d =? DIR_WEST then (p.1, p.2 - 1)
  else p.

Definition opposite `{direction} (d : Z) : option Z :=
  if d =? DIR_NORTH then Some DIR_SOUTH
  else if d =? DIR_SOUTH then Some DIR_NORTH
  else if d =? DIR_EAST then Some DIR_WEST
  else if d =? DIR_WEST then Some DIR_EAST
  else None.

(** The cells of the history are 16-bit integers, and a cell strictly
    inside the range has its four neighbours in the range. *)
Definition pos_int16 (p : pos) : Prop := in_int16 p.1 ∧ in_int16 p.2.

(** The cells of a history all hold 16-bit integers. *)
Definition path_int16 (c : Colony) : Prop :=
  Forall (Forall pos_int16) (historic_path c).

(** Whether a reading attains the maximum of the four, and the cell a
    following ant records: its cell shifted by every direction that ties,
    in the order and with the 16-bit arithmetic of lines 163 to 174. *)
Definition ties (level : Q) (sn : ant_sense) : bool :=
  Qeq_bool level (max_pheromones sn).

Definition follow_target (cur : pos) (sn : ant_sense) : pos :=
  (wrap16 (wrap16 (cur.1 + - b2z (ties (north_pheromone sn) sn))
           + b2z (ties (south_pheromone sn) sn)),
   wrap16 (wrap16 (cur.2 + b2z (ties (east_pheromone sn) sn))
           + - b2z (ties (west_pheromone sn) sn))).


(** ** Reachable colonies and their invariant *)

(** The colonies a run goes through: the colony created for [nb_ants] ants,
    a nest and a configured life, then any number of ticks with that nest,
    each with its own maze, pheromone field, counter and food position, the
    food positions being those that [food_ok] allows. *)
Inductive reachable `{direction} `{maze_flags} (food_ok : pos → Prop)
    (nb_ants : nat) (pos_nest : pos) (max_life0 : Z) : Colony → Prop :=
  | reach_init c :
      Colony_init nb_ants pos_nest max_life0 = Ok c →
      reachable food_ok nb_ants pos_nest max_life0 c
  | reach_tick c fuel the_maze pos_food pheromon food_counter c' fc' ms :
      reachable food_ok nb_ants pos_nest max_life0 c →
      food_ok pos_food →
      advance fuel c the_maze pos_food pos_nest pheromon food_counter
        = Ok (c', fc', ms) →
      reachable food_ok nb_ants pos_nest max_life0 c'.

(** What holds of every ant between two ticks: its age is below its life, a
    loaded ant has walked at least one step, and the first cell of its
    history is the nest. *)
Definition ant_inv (max_life0 : Z) (pos_nest : pos) (c : Colony) (i : nat) : Prop :=
  ∃ a ml ld row,
    age c !! i = Some a ∧ max_life c !! i = Some ml
    ∧ is_loaded c !! i = Some ld ∧ historic_path c !! i = Some row
    ∧ row !! 0%nat = Some pos_nest
    ∧ 0 ≤ a < ml ∧ ml ≤ max_life0 ∧ (ld = LOADED → 1 ≤ a).

Definition colony_inv (nb_ants : nat) (max_life0 : Z) (pos_nest : pos)
    (c : Colony) : Prop :=
  length (age c) = nb_ants
  ∧ ∀ i, (i < nb_ants)%nat → ant_inv max_life0 pos_nest c i.

(** ** Further notions: deliveries, shapes, the maze, the directions *)

(** The ants that delivered during a tick: loaded before it, unloaded after. *)
Definition delivered (c c' : Colony) : list nat :=
  nonzero (zip_with (λ b b' : bool, b && negb b') (is_loaded c) (is_loaded c')).

(** The shape of the arrays of a colony of [nb_ants] ants whose configured
    life is [max_life0]. *)
Definition shape_inv (nb_ants : nat) (max_life0 : Z) (c : Colony) : Prop :=
  length (seeds c) = nb_ants ∧ length (is_loaded c) = nb_ants
  ∧ length (max_life c) = nb_ants ∧ length (age c) = nb_ants
  ∧ length (historic_path c) = nb_ants ∧ length (directions c) = nb_ants
  ∧ Forall (λ row, length row = Z.to_nat (max_life0 + 1)) (historic_path c).

(** The cells of a grid of [h] rows and [w] columns. *)
Definition in_grid (h w : Z) (p : pos) : Prop := 0 ≤ p.1 < h ∧ 0 ≤ p.2 < w.

(** A maze of [h] rows and [w] columns whose border is walled: an open exit
    of a cell leads to a cell of the maze.  The coordinates, and the offsets
    of one and two that the pass adds to them when it reads the pheromone,
    fit 16 bits. *)
Definition maze_wf `{maze_flags} (the_maze : list (list Z)) (h w : Z) : Prop :=
  Z.of_nat (length the_maze) = h
  ∧ Forall (λ row, Z.of_nat (length row) = w) the_maze
  ∧ h ≤ 32766 ∧ w ≤ 32766
  ∧ ∀ p cell, in_grid h w p → np_get2 the_maze p.1 p.2 = Ok cell →
      (0 < Z.land cell NORTH → 0 < p.1) ∧ (0 < Z.land cell SOUTH → p.1 + 1 < h)
      ∧ (0 < Z.land cell WEST → 0 < p.2) ∧ (0 < Z.land cell EAST → p.2 + 1 < w).

(** Every cell of every history is a cell of the grid. *)
Definition path_in_grid (h w : Z) (c : Colony) : Prop :=
  Forall (Forall (in_grid h w)) (historic_path c).

(** What a direction of the colony can be: the mark of no direction, or a
    draw of the retry loop. *)
Definition dir_ok `{direction} (d : Z) : Prop := d = wrap8 DIR_NONE ∨ 0 ≤ d ≤ 3.

(** The pheromone array of a maze of [h] rows and [w] columns: one ghost
    cell on each side. *)
Definition pheromon_wf (pheromon : list (list Q)) (h w : Z) : Prop :=
  Z.of_nat (length pheromon) = h + 2
  ∧ Forall (λ row, Z.of_nat (length row) = w + 2) pheromon.

(** A colony between two ticks of a run in a maze: the shape of its arrays,
    the ages below the lives, the histories in the maze. *)
Definition tick_inv (nb_ants : nat) (max_life0 : Z) (pos_nest : pos) (h w : Z)
    (c : Colony) : Prop :=
  shape_inv nb_ants max_life0 c
  ∧ colony_inv nb_ants max_life0 pos_nest c
  ∧ path_in_grid h w c.

(** ** Notions for the binary64 product *)

(** The number that a mantissa and an exponent stand for. *)
Definition F2Q (m e : Z) : Q := (inject_Z m * 2 ^ e)%Q.

(** A rounding in progress.  The record of a mantissa, a round bit and a
    sticky bit, at the exponent [e], stands for the number [x]: [x] lies in
    the interval of the mantissa, in its upper half if the round bit is set
    and in its lower half if not, and on the boundary that the round bit
    names if the sticky bit is clear. *)
Record sound (mrs : shr_record) (e : Z) (x : Q) : Prop := {
  sound_nonneg : 0 ≤ shr_m mrs;
  sound_lo : (inject_Z (shr_m mrs) * 2 ^ e <= x)%Q;
  sound_hi : (x < (inject_Z (shr_m mrs) + 1) * 2 ^ e)%Q;
  sound_r1 : shr_r mrs = true → ((inject_Z (shr_m mrs) + (1#2)) * 2 ^ e <= x)%Q;
  sound_r0 : shr_r mrs = false → (x <= (inject_Z (shr_m mrs) + (1#2)) * 2 ^ e)%Q;
  sound_s0 : shr_s mrs = false →
    (x <= (inject_Z (shr_m mrs) + (if shr_r mrs then 1#2 else 0)) * 2 ^ e)%Q }.

(** A float that is zero or positive and finite, the number it stands for
    and a bound on its exponent. *)
Definition f64_repr (r : spec_float) (v : Q) (emax : Z) : Prop :=
  match r with
  | S754_zero _ => (v == 0)%Q
  | S754_finite false m e => (F2Q (Z.pos m) e == v)%Q ∧ e ≤ emax
  | _ => False
  end.

(** Whether [n] has no divisor among the [fuel] numbers from [d] on. *)
Fixpoint no_divisor_from (n d : Z) (fuel : nat) : bool :=
  match fuel with
  | O => true
  | S fuel' => negb (n `mod` d =? 0) && no_divisor_from n (d + 1) fuel'
  end.

(** ** The iterations of the retry loop *)

(** The number of iterations that [retry_loop] runs: the loop itself, with a
    counter in place of its result. *)
Fixpoint retry_count `{direction} (fuel : nat) (c : Colony) (senses : list ant_sense)
    (valid_moves : list bool) (ind_exploring_ants : list nat) : result nat :=
  vm ← take valid_moves ind_exploring_ants;
  if existsb negb vm then
    match fuel with
    | O => Raise Diverged
    | S fuel' =>
        st ← retry_iter c senses valid_moves ind_exploring_ants;
        n ← retry_count fuel' st.1 senses st.2 ind_exploring_ants;
        Ok (S n)
    end
  else Ok 0%nat.

(** * An example colony

    Two ants in a maze of two rows and two columns whose four cells form a
    ring: (0,0) opens east and south, (0,1) south and west, (1,0) north and
    east, (1,1) north and west.  The nest is (0,0) and the food (0,1). *)
Definition example_maze : list (list Z) := [[6; 12]; [3; 9]].
Definition example_nest : pos := (0, 0).
Definition example_food : pos := (0, 1).
(** No pheromone anywhere (the array has one ghost cell on each side). *)
Definition example_no_trail : list (list Q) := replicate 4 (replicate 4 0%Q).
(** Level 5 on the cells (0,0) and (1,1) of the maze. *)
Definition example_trail : list (list Q) :=
  [[0; 0; 0; 0]; [0; 5; 0; 0]; [0; 0; 5; 0]; [0; 0; 0; 0]]%Q.

(** Constants for the examples: the four directions are 0 to 3 with
    [3 - d] the opposite of [d], the exits are four distinct bits. *)
Definition example_direction : direction :=
  {| DIR_NONE := -1; DIR_NORTH := 0; DIR_EAST := 1; DIR_WEST := 2; DIR_SOUTH := 3 |}.
Definition example_flags : maze_flags :=
  {| NORTH := 1; EAST := 2; SOUTH := 4; WEST := 8 |}.

(** The colony after one tick: both ants have left the nest, ant 0 to the
    east and ant 1 to the south. *)
Definition example_tick1 : Colony :=
  {| seeds := [1622650073; 1097816499];
     is_loaded := [false; false];
     max_life := [5; 5];
     age := [1; 1];
     historic_path :=
       [[(0, 0); (0, 1); (0, 0); (0, 0); (0, 0); (0, 0)];
        [(0, 0); (1, 0); (0, 0); (0, 0); (0, 0); (0, 0)]];
     directions := [1; 3] |}.

(** The colony after three ticks with the food at (0,1): ant 0 has brought
    food home and left again, ant 1 has just reached the food around the
    ring and carries it. *)
Definition example_tick3 : Colony :=
  {| seeds := [1458777923; 1866991771];
     is_loaded := [false; true];
     max_life := [5; 5];
     age := [1; 3];
     historic_path :=
       [[(0, 0); (1, 0); (0, 0); (0, 0); (0, 0); (0, 0)];
        [(0, 0); (1, 0); (1, 1); (0, 1); (0, 0); (0, 0)]];
     directions := [3; 0] |}.

(** The same colony inside the fourth tick, after the return pass: ant 1
    has stepped back to (1,1) and still carries its food. *)
Definition example_returned : Colony :=
  {| seeds := [1458777923; 1866991771];
     is_loaded := [false; true];
     max_life := [5; 5];
     age := [1; 2];
     historic_path :=
       [[(0, 0); (1, 0); (0, 0); (0, 0); (0, 0); (0, 0)];
        [(0, 0); (1, 0); (1, 1); (0, 1); (0, 0); (0, 0)]];
     directions := [3; 0] |}.

(** Ticks of the example, one after the other. *)
Fixpoint example_run (n : nat) (pos_food : pos) (pheromon : list (list Q))
    (c : Colony) (food_counter : Z) : result (Colony * Z) :=
  match n with
  | O => Ok (c, food_counter)
  | S n' =>
      st ← @advance example_direction example_flags 50 c example_maze
             pos_food example_nest pheromon food_counter;
      example_run n' pos_food pheromon st.1.1 st.1.2
  end.

(** The colony after one tick with the food at (0,1): ant 0 stands on the
    food and carries it. *)
Definition example_tick1_food : Colony := set_is_loaded example_tick1 [true; false].

(** Inside the fourth tick, after step (a) of the explore pass, whose only
    unloaded ant is ant 0; what the pass senses there (no pheromone; ant 0 is
    on (1,0), ant 1 on (1,1)); and the colony after the first iteration of
    the retry loop. *)
Definition example_step_a : Colony := set_seeds example_returned [2007237709; 1866991771].
Definition example_senses : list ant_sense :=
  [mkSense true true false false 0 0 0 0; mkSense true false false true 0 0 0 0]%Q.
Definition example_iter1 : Colony := set_seeds example_returned [823564440; 1647128880].

(** The colony [example_tick1] after the moves of a tick on the trail of
    [example_trail]: both ants have followed it. *)
Definition example_followed : Colony :=
  {| seeds := [984943658; 1969887316];
     is_loaded := [false; false];
     max_life := [5; 5];
     age := [1; 1];
     historic_path :=
       [[(0, 0); (0, 1); (1, 0); (0, 0); (0, 0); (0, 0)];
        [(0, 0); (1, 0); (0, 1); (0, 0); (0, 0); (0, 0)]];
     directions := [1; 3] |}.


(** The colony [example_returned] after the moves of the fourth tick: ant 0
    has explored from (1,0) to (1,1). *)
Definition example_moved : Colony :=
  {| seeds := [1115438165; 83392683];
     is_loaded := [false; true];
     max_life := [5; 5];
     age := [1; 2];
     historic_path :=
       [[(0, 0); (1, 0); (1, 1); (0, 0); (0, 0); (0, 0)];
        [(0, 0); (1, 0); (1, 1); (0, 1); (0, 0); (0, 0)]];
     directions := [1; 0] |}.

(** A dead end: a cell whose only exit is south. *)
Definition example_dead_end : ant_sense :=
  mkSense false false true false 0 0 0 0.

(** The colony of the example when it is created. *)
Definition example_fresh : Colony :=
  {| seeds := [16807; 33614];
     is_loaded := [false; false];
     max_life := [5; 5];
     age := [0; 0];
     historic_path :=
       [[(0, 0); (0, 0); (0, 0); (0, 0); (0, 0); (0, 0)];
        [(0, 0); (0, 0); (0, 0); (0, 0); (0, 0); (0, 0)]];
     directions := [-1; -1] |}.

(** The deposits of the first tick of the example. *)
Definition example_marks1 : list mark_call :=
  [((0, 1), (false, false, true, true)); ((1, 0), (true, true, false, false))].

(** A maze of one cell without exit. *)
Definition example_closed_maze : list (list Z) := [[0]].

(** Level 5 on the cell (1,1) of the maze only. *)
Definition example_south_trail : list (list Q) :=
  [[0; 0; 0; 0]; [0; 0; 0; 0]; [0; 0; 5; 0]; [0; 0; 0; 0]]%Q.

(** The colony [example_tick1] after a tick on that trail: both ants have
    followed it to (1,1), ant 0 from (0,1) southwards and ant 1 from (1,0)
    eastwards.  Their directions are still those of [example_tick1]: east
    for ant 0, south for ant 1. *)
Definition example_south : Colony :=
  {| seeds := [984943658; 1969887316];
     is_loaded := [false; false];
     max_life := [5; 5];
     age := [2; 2];
     historic_path :=
       [[(0, 0); (0, 1); (1, 1); (0, 0); (0, 0); (0, 0)];
        [(0, 0); (1, 0); (1, 1); (0, 0); (0, 0); (0, 0)]];
     directions := [1; 3] |}.

(** The colony after the next tick, without pheromone: both ants have
    explored from (1,1), whose exits are north and west, and each is back on
    the cell it came from; ant 0, on the food, carries it. *)
Definition example_back : Colony :=
  {| seeds := [114807987; 229615974];
     is_loaded := [true; false];
     max_life := [5; 5];
     age := [3; 3];
     historic_path :=
       [[(0, 0); (0, 1); (1, 1); (0, 1); (0, 0); (0, 0)];
        [(0, 0); (1, 0); (1, 1); (1, 0); (0, 0); (0, 0)]];
     directions := [0; 2] |}.

(** * Proofs *)

(** ** The error monad *)

Lemma bind_Ok {A B} (m : result A) (f : A → result B) (b : B) :
  m ≫= f = Ok b → ∃ a, m = Ok a ∧ f a = Ok b.
Proof. destruct m as [a|e]; simpl; [eauto | discriminate]. Qed.

Ltac inv_res :=
  repeat match goal with
    | H : _ ≫= _ = Ok _ |- _ =>
        let x := fresh "x" in let E := fresh "E" in
        apply bind_Ok in H as (x & E & H)
    | H : Ok _ = Ok _ |- _ => injection H as H; try subst
    | H : Raise _ = Ok _ |- _ => discriminate H
    | H : mret _ = Ok _ |- _ => injection H as H; try subst
    | H : (if decide ?P then _ else _) = Ok _ |- _ => destruct (decide P)
    end.

Lemma getitem_Ok {A} (a : list A) i x : getitem a i = Ok x ↔ a !! i = Some x.
Proof. unfold getitem. destruct (a !! i); split; congruence. Qed.

Lemma getitem_lookup {A} (a : list A) i x : a !! i = Some x → getitem a i = Ok x.
Proof. apply getitem_Ok. Qed.

Lemma lanes_Forall2 {A B} (f : A → result B) l ys :
  lanes f l = Ok ys ↔ Forall2 (λ x y, f x = Ok y) l ys.
Proof.
  revert ys. induction l as [|x l IH]; intros ys; simpl.
  - split; [intros [= <-]; constructor | inversion 1; done].
  - split.
    + intros Hb. inv_res. constructor; [done | by apply IH].
    + inversion 1 as [|? y ? ys' Hy Hys]; subst. rewrite Hy. simpl.
      apply IH in Hys. rewrite Hys. done.
Qed.

Lemma lanes_length {A B} (f : A → result B) l ys :
  lanes f l = Ok ys → length ys = length l.
Proof. intros Hl%lanes_Forall2. symmetry. by eapply Forall2_length. Qed.

Lemma lanes_lookup {A B} (f : A → result B) l ys n x :
  lanes f l = Ok ys → l !! n = Some x → ∃ y, ys !! n = Some y ∧ f x = Ok y.
Proof. intros Hl%lanes_Forall2 Hx. by eapply Forall2_lookup_l in Hl. Qed.

Lemma take_Forall2 {A} (a : list A) idx vs :
  take a idx = Ok vs ↔ Forall2 (λ i v, a !! i = Some v) idx vs.
Proof.
  unfold take. rewrite lanes_Forall2.
  split; apply Forall2_impl; intros i v; apply getitem_Ok.
Qed.

Lemma take_lookup {A} (a : list A) idx vs n i :
  take a idx = Ok vs → idx !! n = Some i → ∃ v, vs !! n = Some v ∧ a !! i = Some v.
Proof. intros Ht%take_Forall2 Hi. by eapply Forall2_lookup_l in Ht. Qed.

Lemma take_length {A} (a : list A) idx vs : take a idx = Ok vs → length vs = length idx.
Proof. apply lanes_length. Qed.

(** ** Assignments through an array of indices *)

Lemma assign_length {A} (ivs : list (nat * A)) a a' :
  assign a ivs = Ok a' → length a' = length a.
Proof.
  revert a. induction ivs as [|[i v] ivs IH]; intros a Ha; simpl in Ha.
  - by inv_res.
  - inv_res. apply IH in Ha. by rewrite length_insert in Ha.
Qed.

Lemma assign_other {A} (ivs : list (nat * A)) a a' j :
  assign a ivs = Ok a' → j ∉ ivs.*1 → a' !! j = a !! j.
Proof.
  revert a. induction ivs as [|[i v] ivs IH]; intros a Ha Hj; simpl in *.
  - by inv_res.
  - inv_res. apply not_elem_of_cons in Hj as [Hne Hj].
    rewrite (IH _ Ha Hj). by apply list_lookup_insert_ne.
Qed.

Lemma assign_in {A} (ivs : list (nat * A)) a a' i v :
  assign a ivs = Ok a' → NoDup ivs.*1 → (i, v) ∈ ivs → a' !! i = Some v.
Proof.
  revert a. induction ivs as [|[i0 v0] ivs IH]; intros a Ha Hnd Hin; simpl in *.
  - by apply elem_of_nil in Hin.
  - inv_res. apply list.NoDup_cons in Hnd as [Hfresh Hnd].
    apply elem_of_cons in Hin as [[= -> ->]|Hin].
    + rewrite (assign_other _ _ _ _ Ha Hfresh). by apply list_lookup_insert_eq.
    + by eapply IH.
Qed.

Lemma put_length {A} (a : list A) idx vals a' :
  put a idx vals = Ok a' → length a' = length a.
Proof. unfold put. intros Hp. inv_res. by eapply assign_length. Qed.

Lemma put_same_length {A} (a : list A) idx vals a' :
  put a idx vals = Ok a' → length idx = length vals.
Proof. unfold put. intros Hp. by inv_res. Qed.

Lemma put_other {A} (a : list A) idx vals a' j :
  put a idx vals = Ok a' → j ∉ idx → a' !! j = a !! j.
Proof.
  unfold put. intros Hp Hj. inv_res. eapply assign_other; [done|].
  by rewrite fst_zip by lia.
Qed.

Lemma put_in {A} (a : list A) idx vals a' n i v :
  put a idx vals = Ok a' → NoDup idx →
  idx !! n = Some i → vals !! n = Some v → a' !! i = Some v.
Proof.
  unfold put. intros Hp Hnd Hi Hv. inv_res. eapply assign_in; [done| |].
  - by rewrite fst_zip by lia.
  - apply list_elem_of_lookup. exists n. rewrite lookup_zip_with, Hi. simpl. by rewrite Hv.
Qed.

Lemma put_const_other {A} (a : list A) idx v a' j :
  put_const a idx v = Ok a' → j ∉ idx → a' !! j = a !! j.
Proof. apply put_other. Qed.

Lemma put_const_in {A} (a : list A) idx v a' i :
  put_const a idx v = Ok a' → NoDup idx → i ∈ idx → a' !! i = Some v.
Proof.
  intros Hp Hnd [n Hn]%list_elem_of_lookup. eapply put_in; [done..|].
  apply lookup_replicate_2. by eapply lookup_lt_Some.
Qed.

Lemma put_const_length {A} (a : list A) idx v a' :
  put_const a idx v = Ok a' → length a' = length a.
Proof. apply put_length. Qed.

Lemma put_take {A} (a : list A) idx vals a' :
  put a idx vals = Ok a' → NoDup idx → take a' idx = Ok vals.
Proof.
  intros Hp Hnd. apply take_Forall2, Forall2_same_length_lookup.
  split; [by eapply put_same_length|]. intros n i v Hi Hv. by eapply put_in.
Qed.

Lemma put_Forall {A} (P : A → Prop) (a : list A) idx vals a' :
  put a idx vals = Ok a' → Forall P a → Forall P vals → Forall P a'.
Proof.
  unfold put. intros Hp Ha Hv. inv_res.
  assert (Forall (λ iv : nat * A, P iv.2) (zip idx vals)) as Hz.
  { apply list.Forall_forall. intros [i v] Hin. simpl.
    rewrite list.Forall_forall in Hv. apply Hv. by eapply elem_of_zip_r. }
  clear Hv e. revert a Ha Hp.
  induction Hz as [|[i v] ivs Hv Hz IH]; intros a Ha Hp; simpl in Hp; inv_res; [done|].
  eapply IH; [|done]. by apply Forall_insert.
Qed.

(** ** Integer indices *)

Lemma norm_index_inv n k j :
  norm_index n k = Ok j →
  (0 ≤ k < Z.of_nat n ∧ j = Z.to_nat k)
  ∨ (- Z.of_nat n ≤ k < 0 ∧ j = Z.to_nat (Z.of_nat n + k)).
Proof.
  unfold norm_index.
  destruct (0 <=? k) eqn:E1, (k <? Z.of_nat n) eqn:E2,
    (- Z.of_nat n <=? k) eqn:E3, (k <? 0) eqn:E4; simpl; intros [=]; subst; lia.
Qed.

Lemma norm_index_lt n k j : norm_index n k = Ok j → (j < n)%nat.
Proof. intros [[? ->]|[? ->]]%norm_index_inv; lia. Qed.

Lemma norm_index_nonneg n k :
  0 ≤ k < Z.of_nat n → norm_index n k = Ok (Z.to_nat k).
Proof.
  intros Hk. unfold norm_index.
  destruct (0 <=? k) eqn:E1, (k <? Z.of_nat n) eqn:E2; simpl; try done; lia.
Qed.

Lemma np_get_nonneg {A} (a : list A) k x :
  0 ≤ k → a !! Z.to_nat k = Some x → np_get a k = Ok x.
Proof.
  intros Hk Hx. unfold np_get. rewrite norm_index_nonneg.
  - simpl. by apply getitem_lookup.
  - apply lookup_lt_Some in Hx. lia.
Qed.

Lemma np_get_inv {A} (a : list A) k x :
  np_get a k = Ok x →
  ∃ j, norm_index (length a) k = Ok j ∧ a !! j = Some x.
Proof. unfold np_get. intros Hg. inv_res. apply getitem_Ok in Hg. eauto. Qed.

(** ** Writes into the path history *)

Lemma alter2_length {A} (ops : list (nat * Z * (A → A))) h h' :
  alter2 h ops = Ok h' → length h' = length h.
Proof.
  revert h. induction ops as [|[[i k] f] ops IH]; intros h Ha; simpl in Ha.
  - by inv_res.
  - inv_res. apply IH in Ha. by rewrite length_insert in Ha.
Qed.

Lemma alter2_other {A} (ops : list (nat * Z * (A → A))) h h' j :
  alter2 h ops = Ok h' → j ∉ ops.*1.*1 → h' !! j = h !! j.
Proof.
  revert h. induction ops as [|[[i k] f] ops IH]; intros h Ha Hj; simpl in *.
  - by inv_res.
  - inv_res. apply not_elem_of_cons in Hj as [Hne Hj].
    rewrite (IH _ Ha Hj). by apply list_lookup_insert_ne.
Qed.

Lemma alter2_in {A} (ops : list (nat * Z * (A → A))) h h' i k f :
  alter2 h ops = Ok h' → NoDup ops.*1.*1 → (i, k, f) ∈ ops →
  ∃ row j, h !! i = Some row ∧ norm_index (length row) k = Ok j
           ∧ h' !! i = Some (alter f j row).
Proof.
  revert h. induction ops as [|[[i0 k0] f0] ops IH]; intros h Ha Hnd Hin; simpl in *.
  - by apply elem_of_nil in Hin.
  - inv_res. apply list.NoDup_cons in Hnd as [Hfresh Hnd].
    apply elem_of_cons in Hin as [[= -> -> ->]|Hin].
    + apply getitem_Ok in E. exists x, x0. split_and!; [done..|].
      rewrite (alter2_other _ _ _ _ Ha Hfresh).
      apply list_lookup_insert_eq. by eapply lookup_lt_Some.
    + destruct (IH _ Ha Hnd Hin) as (row & j & Hrow & Hj & Hh').
      assert (i ≠ i0) as Hne.
      { intros ->. apply Hfresh.
        apply (list_elem_of_fmap_2 fst) in Hin. by apply (list_elem_of_fmap_2 fst) in Hin. }
      rewrite list_lookup_insert_ne in Hrow by done. eauto.
Qed.

(** ** Masks *)

Lemma elem_of_nonzero_from mask k i :
  i ∈ nonzero_from k mask ↔ ∃ n, i = (k + n)%nat ∧ mask !! n = Some true.
Proof.
  revert k. induction mask as [|b mask IH]; intros k; simpl.
  - split; [by intros ?%elem_of_nil | by intros (n & _ & ?)].
  - assert (i ∈ nonzero_from (S k) mask ↔
            ∃ n, i = (k + S n)%nat ∧ (b :: mask) !! S n = Some true) as Htl.
    { rewrite IH. split; intros (n & -> & Hn); exists n; split; (lia || done). }
    destruct b.
    + rewrite elem_of_cons, Htl. split.
      * intros [->|(n & -> & Hn)]; [exists 0%nat; split; [lia | done] | eauto].
      * intros ([|n] & -> & Hn); [left; lia | right; eauto].
    + rewrite Htl. split.
      * intros (n & -> & Hn). eauto.
      * intros ([|n] & -> & Hn); [done | eauto].
Qed.

Lemma elem_of_nonzero mask i : i ∈ nonzero mask ↔ mask !! i = Some true.
Proof.
  unfold nonzero. rewrite elem_of_nonzero_from. split.
  - by intros (n & -> & Hn).
  - intros Hi. by exists i.
Qed.

Lemma NoDup_nonzero_from mask k : NoDup (nonzero_from k mask).
Proof.
  revert k. induction mask as [|b mask IH]; intros k; simpl; [constructor|].
  destruct b; [|done]. apply NoDup_cons_2; [|done].
  rewrite elem_of_nonzero_from. intros (n & Hn & _). lia.
Qed.

Lemma NoDup_nonzero mask : NoDup (nonzero mask).
Proof. apply NoDup_nonzero_from. Qed.

Lemma take_nonzero_from {A} mask (xs pre : list A) :
  (length mask ≤ length xs)%nat →
  take (pre ++ xs) (nonzero_from (length pre) mask) = Ok (mask_select mask xs).
Proof.
  revert xs pre. induction mask as [|b mask IH]; intros xs pre Hlen; [done|].
  destruct xs as [|x xs]; simpl in Hlen; [lia|].
  assert (take (pre ++ x :: xs) (nonzero_from (S (length pre)) mask)
          = Ok (mask_select mask xs)) as Htl.
  { specialize (IH xs (pre ++ [x])).
    replace (length (pre ++ [x])) with (S (length pre)) in IH
      by (rewrite length_app; simpl; lia).
    replace ((pre ++ [x]) ++ xs) with (pre ++ x :: xs) in IH
      by (by rewrite <- app_assoc).
    apply IH. lia. }
  simpl. destruct b; [|done].
  unfold take in *. simpl. rewrite Htl.
  unfold getitem. by rewrite list_lookup_middle.
Qed.

Lemma take_nonzero {A} mask (xs : list A) :
  (length mask ≤ length xs)%nat → take xs (nonzero mask) = Ok (mask_select mask xs).
Proof. apply (take_nonzero_from mask xs []). Qed.

Lemma compress_Ok {A} mask (xs ys : list A) :
  compress mask xs = Ok ys → length mask = length xs ∧ ys = mask_select mask xs.
Proof.
  unfold compress. intros Hc. inv_res. split; [done|].
  rewrite take_nonzero in Hc by lia. by inv_res.
Qed.

Lemma elem_of_mask_select {A} mask (xs : list A) x :
  x ∈ mask_select mask xs ↔ ∃ n, mask !! n = Some true ∧ xs !! n = Some x.
Proof.
  revert xs. induction mask as [|b mask IH]; intros [|x0 xs]; simpl;
    try (split; [by intros ?%elem_of_nil | by intros (n & ? & ?)]).
  assert (x ∈ mask_select mask xs ↔
          ∃ n, (b :: mask) !! S n = Some true ∧ (x0 :: xs) !! S n = Some x) as Htl
    by apply IH.
  destruct b.
  - rewrite elem_of_cons, Htl. split.
    + intros [->|(n & ? & ?)]; [by exists 0%nat | eauto].
    + intros ([|n] & Hm & Hx); [left; by injection Hx | right; eauto].
  - rewrite Htl. split.
    + intros (n & ? & ?). eauto.
    + intros ([|n] & Hm & Hx); [done | eauto].
Qed.

Lemma NoDup_mask_select {A} mask (xs : list A) :
  NoDup xs → NoDup (mask_select mask xs).
Proof.
  intros Hnd. revert mask. induction Hnd as [|x xs Hx Hnd IH]; intros [|b mask];
    simpl; try constructor.
  destruct b; [|apply IH]. apply NoDup_cons_2; [|apply IH].
  rewrite elem_of_mask_select. intros (n & _ & Hn). apply Hx.
  by eapply list_elem_of_lookup_2.
Qed.

Lemma select_lanes (f : nat → result bool) idx mask sel :
  lanes f idx = Ok mask → take idx (nonzero mask) = Ok sel →
  sel = mask_select mask idx ∧ ∀ i, i ∈ sel ↔ i ∈ idx ∧ f i = Ok true.
Proof.
  intros Hm Hs. pose proof (lanes_length _ _ _ Hm) as Hlen.
  rewrite take_nonzero in Hs by lia. inv_res. split; [done|].
  intros i. rewrite elem_of_mask_select. split.
  - intros (n & Hn & Hi). split; [by eapply list_elem_of_lookup_2|].
    destruct (lanes_lookup _ _ _ _ _ Hm Hi) as (b & Hb & Hf). congruence.
  - intros [[n Hi]%list_elem_of_lookup Hf]. exists n. split; [|done].
    destruct (lanes_lookup _ _ _ _ _ Hm Hi) as (b & Hb & Hf'). congruence.
Qed.

(** ** Fixed-width integers and the generator *)

Lemma wrap8_id z : in_int8 z → wrap8 z = z.
Proof. unfold in_int8, wrap8. intros Hz. rewrite Z.mod_small; lia. Qed.

Lemma wrap16_id z : in_int16 z → wrap16 z = z.
Proof. unfold in_int16, wrap16. intros Hz. rewrite Z.mod_small; lia. Qed.

Lemma wrap32_id z : -2147483648 ≤ z < 2147483648 → wrap32 z = z.
Proof. unfold wrap32. intros Hz. rewrite Z.mod_small; lia. Qed.

Lemma wrap64_id z :
  -9223372036854775808 ≤ z < 9223372036854775808 → wrap64 z = z.
Proof. unfold wrap64. intros Hz. rewrite Z.mod_small; lia. Qed.

Lemma wrap16_range z : in_int16 (wrap16 z).
Proof.
  unfold in_int16, wrap16.
  pose proof (Z.mod_pos_bound (z + 32768) 65536 eq_refl). lia.
Qed.

(** A step of one never leaves a 16-bit cell where it is. *)
Lemma wrap16_step z d : d = 1 ∨ d = -1 → wrap16 (z + d) ≠ z.
Proof.
  unfold wrap16. intros Hd Heq.
  pose proof (Z.div_mod (z + d + 32768) 65536 ltac:(lia)) as Hdm.
  pose proof (Z.mod_pos_bound (z + d + 32768) 65536 eq_refl). lia.
Qed.

Lemma lcg_small s :
  0 ≤ 16807 * s < 9223372036854775808 → lcg s = (16807 * s) `mod` modulus.
Proof. intros Hs. unfold lcg. rewrite wrap64_id by lia. done. Qed.

Lemma lcg_range s : 0 ≤ lcg s < modulus.
Proof. unfold lcg. apply Z.mod_pos_bound. done. Qed.

(** The multiplier is prime to the modulus, so the recurrence sends no
    nonzero residue to 0. *)
Lemma lcg_seed_ok s : seed_ok s → seed_ok (lcg s).
Proof.
  unfold seed_ok, modulus. intros Hs. rewrite lcg_small by lia. unfold modulus.
  pose proof (Z.mod_pos_bound (16807 * s) 2147483647 eq_refl) as Hb.
  assert ((16807 * s) `mod` 2147483647 ≠ 0); [|lia].
  intros Hz. apply Z.mod_divide in Hz; [|done].
  apply Z.gauss in Hz; [|reflexivity].
  destruct Hz as [q Hq]. assert (0 < q) by nia. nia.
Qed.

Lemma lanes_post {A B C} (f : A → result B) (h : B → C) l ys :
  lanes f l = Ok ys → lanes (λ x, y ← f x; Ok (h y)) l = Ok (h <$> ys).
Proof.
  intros Hl%lanes_Forall2. apply lanes_Forall2, Forall2_fmap_r.
  eapply list.Forall2_impl; [exact Hl|]. intros x y Hxy. simpl. by rewrite Hxy.
Qed.

Lemma nonzero_nil_select {A} mask (xs : list A) :
  (length mask ≤ length xs)%nat → nonzero mask = [] → mask_select mask xs = [].
Proof.
  intros Hlen Hnz. pose proof (take_nonzero mask xs Hlen) as Ht.
  rewrite Hnz in Ht. by injection Ht.
Qed.

Lemma loaded_of_spec c i : i ∈ loaded_of c ↔ is_loaded c !! i = Some LOADED.
Proof.
  unfold loaded_of. rewrite elem_of_nonzero, list_lookup_fmap.
  unfold LOADED, UNLOADED.
  destruct (is_loaded c !! i) as [[]|]; simpl; split; intros Hx; try done;
    injection Hx as Hx; by case_bool_decide.
Qed.

Lemma unloaded_of_spec c i : i ∈ unloaded_of c ↔ is_loaded c !! i = Some UNLOADED.
Proof.
  unfold unloaded_of. rewrite elem_of_nonzero, list_lookup_fmap.
  unfold LOADED, UNLOADED.
  destruct (is_loaded c !! i) as [[]|]; simpl; split; intros Hx; try done;
    injection Hx as Hx; by case_bool_decide.
Qed.

Lemma NoDup_loaded_of c : NoDup (loaded_of c).
Proof. apply NoDup_nonzero. Qed.

Lemma NoDup_unloaded_of c : NoDup (unloaded_of c).
Proof. apply NoDup_nonzero. Qed.

(** ** The return-to-nest pass *)

Lemma return_to_nest_effect c loaded_ants pos_nest food_counter c' fc' :
  NoDup loaded_ants →
  return_to_nest c loaded_ants pos_nest food_counter = Ok (c', fc') →
  ∃ arrived,
    NoDup arrived
    ∧ (∀ i, i ∈ arrived ↔
         i ∈ loaded_ants ∧ ∃ a row, age c !! i = Some a
           ∧ historic_path c !! i = Some row
           ∧ np_get row (wrap64 (a - 1)) = Ok pos_nest)
    ∧ fc' = food_counter + Z.of_nat (length arrived)
    ∧ (∀ i, i ∈ arrived →
         age c' !! i = Some 0 ∧ is_loaded c' !! i = Some UNLOADED)
    ∧ (∀ i, i ∈ loaded_ants → i ∉ arrived →
         ∃ a, age c !! i = Some a ∧ age c' !! i = Some (wrap64 (a - 1))
              ∧ is_loaded c' !! i = is_loaded c !! i)
    ∧ (∀ i, i ∉ loaded_ants →
         age c' !! i = age c !! i ∧ is_loaded c' !! i = is_loaded c !! i)
    ∧ length (age c') = length (age c)
    ∧ length (is_loaded c') = length (is_loaded c)
    ∧ seeds c' = seeds c ∧ max_life c' = max_life c
    ∧ historic_path c' = historic_path c ∧ directions c' = directions c.
Proof.
  intros Hnd Hr. unfold return_to_nest in Hr.
  apply bind_Ok in Hr as (ages & Hages & Hr).
  apply bind_Ok in Hr as (age1 & Hage1 & Hr).
  apply bind_Ok in Hr as (tmp & Htmp & Hr).
  set (m := (λ b : bool * bool, b.1 && b.2) <$> tmp) in *.
  set (arrived := mask_select m loaded_ants).
  assert (length m = length loaded_ants) as Hlen.
  { unfold m. rewrite length_fmap. by eapply lanes_length. }
  (* the age of each loaded ant after the decrement *)
  assert (∀ i, i ∈ loaded_ants →
            ∃ a, age c !! i = Some a ∧ age1 !! i = Some (wrap64 (a - 1))) as Hdec.
  { intros i [n Hn]%list_elem_of_lookup.
    destruct (take_lookup _ _ _ _ _ Hages Hn) as (a & Ha & Hia).
    exists a. split; [done|]. eapply put_in; [done..|].
    by rewrite list_lookup_fmap, Ha. }
  assert (∀ i, i ∉ loaded_ants → age1 !! i = age c !! i) as Hkeep
    by (intros i; by eapply put_other).
  assert (∀ i, i ∈ arrived ↔
            i ∈ loaded_ants ∧ ∃ a row, age c !! i = Some a
              ∧ historic_path c !! i = Some row
              ∧ np_get row (wrap64 (a - 1)) = Ok pos_nest) as Harr.
  { pose proof (lanes_post _ (λ b : bool * bool, b.1 && b.2) _ _ Htmp) as Hm.
    pose proof (take_nonzero m loaded_ants ltac:(lia)) as Hsel.
    destruct (select_lanes _ _ _ _ Hm Hsel) as [_ Hin].
    intros i. unfold arrived. rewrite Hin. split.
    - intros [Hi Hf]. split; [done|].
      destruct (Hdec i Hi) as (a & Ha & Ha1).
      apply bind_Ok in Hf as ([b1 b2] & Hf & Hb).
      apply bind_Ok in Hf as (a' & Ea & Hf). apply getitem_Ok in Ea.
      apply bind_Ok in Hf as (row & Erow & Hf). apply getitem_Ok in Erow.
      apply bind_Ok in Hf as ([r k] & Ep & Hf).
      simpl in *. simplify_eq. exists a, row. split_and!; [done..|].
      rewrite Ep. destruct pos_nest as [nr nk]. simpl in *.
      apply andb_true_iff in Hb as [->%Z.eqb_eq ->%Z.eqb_eq]. done.
    - intros (Hi & a & row & Ha & Hrow & Hp). split; [done|].
      destruct (Hdec i Hi) as (a' & Ha' & Ha1). simplify_eq.
      rewrite (getitem_lookup _ _ _ Ha1). simpl.
      rewrite (getitem_lookup _ _ _ Hrow). simpl. rewrite Hp. simpl.
      by rewrite !Z.eqb_refl. }
  assert (NoDup arrived) as Hnda by by apply NoDup_mask_select.
  assert (∀ i, i ∈ arrived → i ∈ loaded_ants) as Hsub by (intros i; rewrite Harr; tauto).
  (* the two branches in which no ant arrives *)
  assert (nonzero m = [] →
          (set_age c age1, food_counter) = (c', fc') →
          ∃ arrived, NoDup arrived
            ∧ (∀ i, i ∈ arrived ↔
                 i ∈ loaded_ants ∧ ∃ a row, age c !! i = Some a
                   ∧ historic_path c !! i = Some row
                   ∧ np_get row (wrap64 (a - 1)) = Ok pos_nest)
            ∧ fc' = food_counter + Z.of_nat (length arrived)
            ∧ (∀ i, i ∈ arrived →
                 age c' !! i = Some 0 ∧ is_loaded c' !! i = Some UNLOADED)
            ∧ (∀ i, i ∈ loaded_ants → i ∉ arrived →
                 ∃ a, age c !! i = Some a ∧ age c' !! i = Some (wrap64 (a - 1))
                      ∧ is_loaded c' !! i = is_loaded c !! i)
            ∧ (∀ i, i ∉ loaded_ants →
                 age c' !! i = age c !! i ∧ is_loaded c' !! i = is_loaded c !! i)
            ∧ length (age c') = length (age c)
            ∧ length (is_loaded c') = length (is_loaded c)
            ∧ seeds c' = seeds c ∧ max_life c' = max_life c
            ∧ historic_path c' = historic_path c ∧ directions c' = directions c)
    as Hnone.
  { intros Hnz [= <- <-]. exists arrived.
    assert (arrived = []) as Hnil by (apply nonzero_nil_select; [lia | done]).
    split_and!; try done.
    - rewrite Hnil. simpl. lia.
    - intros i. rewrite Hnil. by intros ?%elem_of_nil.
    - intros i Hi _. destruct (Hdec i Hi) as (a & ? & ?). eauto.
    - intros i Hi. simpl. split; [by apply Hkeep | done].
    - simpl. by eapply put_length. }
  destruct (existsb _ tmp) eqn:Hany.
  - destruct (decide (0 < length (nonzero m))%nat) as [Hpos|Hzero].
    + apply bind_Ok in Hr as (in_nest & Hin_nest & Hr).
      apply bind_Ok in Hr as (loaded1 & Hloaded1 & Hr).
      apply bind_Ok in Hr as (age2 & Hage2 & Hr).
      injection Hr as <- <-.
      rewrite take_nonzero in Hin_nest by lia. injection Hin_nest as <-.
      fold arrived in Hloaded1, Hage2.
      exists arrived. split_and!; try done.
      * f_equal. f_equal.
        pose proof (take_nonzero m loaded_ants ltac:(lia)) as Hsel.
        apply take_length in Hsel. by rewrite <- Hsel.
      * intros i Hi. simpl. split; by eapply put_const_in.
      * intros i Hi Hni. simpl. destruct (Hdec i Hi) as (a & Ha & Ha1).
        exists a. split_and!; [done| |].
        -- by rewrite (put_const_other _ _ _ _ _ Hage2 Hni).
        -- by eapply put_const_other.
      * intros i Hi. simpl. split.
        -- rewrite (put_const_other _ _ _ _ i Hage2), Hkeep; [done..|]. auto.
        -- eapply put_const_other; [done|]. auto.
      * simpl. rewrite (put_const_length _ _ _ _ Hage2). by eapply put_length.
      * simpl. by eapply put_const_length.
    + apply Hnone; [|congruence]. destruct (nonzero m); [done | simpl in Hzero; lia].
  - apply Hnone; [|congruence].
    destruct (nonzero m) as [|i l] eqn:Hnz; [done|].
    assert (i ∈ nonzero m) as Hi by (rewrite Hnz; left).
    apply elem_of_nonzero in Hi. unfold m in Hi. rewrite list_lookup_fmap in Hi.
    destruct (tmp !! i) as [[b1 b2]|] eqn:Hb; simpl in Hi; [|done].
    assert (existsb (λ b : bool * bool, b.1 || b.2) tmp = true) as Hex.
    { apply existsb_exists. exists (b1, b2). split.
      - apply list_elem_of_In. by eapply list_elem_of_lookup_2.
      - simpl in *. destruct b1; [done | by simplify_eq]. }
    congruence.
Qed.

Lemma alter2_zip_other {A} (h h' : list (list A)) idx ks (fs : list (A → A)) i :
  alter2 h (zip (zip idx ks) fs) = Ok h' → i ∉ idx → h' !! i = h !! i.
Proof.
  intros Ha Hi. eapply alter2_other; [done|]. intros Hin. apply Hi.
  apply list_elem_of_fmap in Hin as ([i' k] & -> & Hin).
  apply list_elem_of_fmap in Hin as ([[i'' k'] f] & [= -> ->] & Hin).
  apply elem_of_zip_l in Hin. by apply elem_of_zip_l in Hin.
Qed.

Lemma alter2_zip_in {A} (h h' : list (list A)) idx ks (fs : list (A → A)) n i k f :
  alter2 h (zip (zip idx ks) fs) = Ok h' → NoDup idx →
  length idx = length ks → length idx = length fs →
  idx !! n = Some i → ks !! n = Some k → fs !! n = Some f →
  ∃ row j, h !! i = Some row ∧ norm_index (length row) k = Ok j
           ∧ h' !! i = Some (alter f j row).
Proof.
  intros Ha Hnd Hl1 Hl2 Hi Hk Hf. eapply alter2_in; [done| |].
  - rewrite fst_zip by (rewrite length_zip_with; lia). by rewrite fst_zip by lia.
  - apply list_elem_of_lookup. exists n.
    rewrite !lookup_zip_with, Hi. simpl. rewrite Hk. simpl. by rewrite Hf.
Qed.

(** ** Binary64

    What the rounding of [SpecFloat] does to a number: the error of a
    rounding to nearest, and the bounds it keeps. *)

(** *** Powers of two and digits *)

Lemma pow2_pos e : (0 < 2 ^ e)%Q.
Proof. by apply Qpower_0_lt. Qed.

Lemma pow2_add a b : (2 ^ (a + b) == 2 ^ a * 2 ^ b)%Q.
Proof. by apply Qpower_plus. Qed.

Lemma pow2_succ e : (2 ^ (e + 1) == 2 * 2 ^ e)%Q.
Proof. rewrite pow2_add. change (2 ^ 1)%Q with 2%Q. lra. Qed.

Lemma pow2_le a b : a ≤ b → (2 ^ a <= 2 ^ b)%Q.
Proof. intros. by apply Qpower_le_compat_l. Qed.

Lemma pow2_lt_inv a b : (2 ^ a < 2 ^ b)%Q → a < b.
Proof. intros. by apply (Qpower_lt_compat_l_inv 2). Qed.

Lemma pow2_Z k : 0 ≤ k → (2 ^ k == inject_Z (2 ^ k))%Q.
Proof. intros. by rewrite Zpower_Qpower. Qed.

Lemma inject_Z_le_inv a b u : (0 < u)%Q → (inject_Z a * u <= inject_Z b * u)%Q → a ≤ b.
Proof. intros Hu Hle. apply Qmult_le_r in Hle; [|done]. by rewrite <- Zle_Qle in Hle. Qed.

Lemma inject_Z_lt_inv a b u : (0 < u)%Q → (inject_Z a * u < inject_Z b * u)%Q → a < b.
Proof. intros Hu Hle. apply Qmult_lt_r in Hle; [|done]. by rewrite <- Zlt_Qlt in Hle. Qed.

Lemma digits2_pos_bounds p :
  2 ^ (Z.pos (digits2_pos p) - 1) ≤ Z.pos p < 2 ^ Z.pos (digits2_pos p).
Proof.
  induction p as [p IH|p IH|]; simpl digits2_pos.
  - rewrite Pos2Z.inj_succ.
    replace (Z.succ (Z.pos (digits2_pos p)) - 1) with (Z.succ (Z.pos (digits2_pos p) - 1)) by lia.
    rewrite !Z.pow_succ_r by lia. lia.
  - rewrite Pos2Z.inj_succ.
    replace (Z.succ (Z.pos (digits2_pos p)) - 1) with (Z.succ (Z.pos (digits2_pos p) - 1)) by lia.
    rewrite !Z.pow_succ_r by lia. lia.
  - simpl. lia.
Qed.

Lemma Zdigits2_bounds m :
  0 < m → 2 ^ (Zdigits2 m - 1) ≤ m < 2 ^ Zdigits2 m.
Proof. destruct m; try lia. intros _. apply digits2_pos_bounds. Qed.

Lemma Zdigits2_nonneg m : 0 ≤ Zdigits2 m.
Proof. destruct m; simpl; lia. Qed.

Lemma fexp_eq e : fexp 53 1024 e = Z.max (e - 53) (-1074).
Proof. reflexivity. Qed.

Ltac use_bits :=
  repeat match goal with
  | H : ?a = ?a → _ |- _ => specialize (H eq_refl)
  | H : true = false → _ |- _ => clear H
  | H : false = true → _ |- _ => clear H
  end.

Lemma shr_1_sound mrs e x : sound mrs e x → sound (shr_1 mrs) (e + 1) x.
Proof.
  destruct mrs as [m r s]. intros [Hn Hlo Hhi Hr1 Hr0 Hs0]. simpl in *.
  pose proof (pow2_pos e) as Hu. pose proof (pow2_succ e) as Hsucc.
  set (u := (2 ^ e)%Q) in *. set (u' := (2 ^ (e + 1))%Q) in *.
  destruct m as [|[p|p|]|]; [| | | |lia].
  - change (inject_Z 0) with 0%Q in *.
    destruct r, s; use_bits; split; simpl; fold u';
      change (inject_Z 0) with 0%Q; intros; try done; try (rewrite Hsucc; lra).
  - assert (inject_Z (Z.pos p~1) == 2 * inject_Z (Z.pos p) + 1)%Q as Hm.
    { change (Z.pos p~1) with (2 * Z.pos p + 1).
      by rewrite inject_Z_plus, inject_Z_mult. }
    rewrite Hm in *.
    destruct r, s; use_bits; split; simpl; fold u'; intros; try done; try (rewrite Hsucc; lra).
  - assert (inject_Z (Z.pos p~0) == 2 * inject_Z (Z.pos p))%Q as Hm.
    { change (Z.pos p~0) with (2 * Z.pos p).
      by rewrite inject_Z_mult. }
    rewrite Hm in *.
    destruct r, s; use_bits; split; simpl; fold u'; intros; try done; try (rewrite Hsucc; lra).
  - change (inject_Z 1) with 1%Q in *.
    destruct r, s; use_bits; split; simpl; fold u';
      change (inject_Z 0) with 0%Q; intros; try done; try (rewrite Hsucc; lra).
Qed.

Lemma iter_shr_1_sound p : ∀ mrs e x,
  sound mrs e x → sound (SpecFloat.iter_pos shr_1 p mrs) (e + Z.pos p) x.
Proof.
  induction p as [p IH|p IH|]; intros mrs e x Hs; simpl SpecFloat.iter_pos.
  - replace (e + Z.pos p~1) with (e + 1 + Z.pos p + Z.pos p) by lia.
    by apply IH, IH, shr_1_sound.
  - replace (e + Z.pos p~0) with (e + Z.pos p + Z.pos p) by lia.
    by apply IH, IH.
  - by apply shr_1_sound.
Qed.

Lemma shr_sound mrs e n x :
  sound mrs e x → sound (shr mrs e n).1 (shr mrs e n).2 x
  ∧ (shr mrs e n).2 = e + Z.max 0 n.
Proof.
  intros Hs. destruct n as [|p|p]; simpl.
  - split; [done|lia].
  - split; [by apply iter_shr_1_sound|lia].
  - split; [done|lia].
Qed.

Lemma shr_fexp_sound m e l x :
  sound (shr_record_of_loc m l) e x →
  sound (shr_fexp 53 1024 m e l).1 (shr_fexp 53 1024 m e l).2 x
  ∧ (shr_fexp 53 1024 m e l).2 = Z.max e (fexp 53 1024 (Zdigits2 m + e)).
Proof.
  intros Hs. unfold shr_fexp.
  destruct (shr_sound _ _ (fexp 53 1024 (Zdigits2 m + e) - e) _ Hs) as [H1 H2].
  split; [done|]. rewrite H2. lia.
Qed.

Lemma round_sound mrs e x :
  sound mrs e x →
  let m := shr_m mrs in
  let m2 := round_nearest_even m (loc_of_shr_record mrs) in
  m2 = m ∧ (x <= (inject_Z m + (1#2)) * 2 ^ e)%Q
  ∨ m2 = m + 1 ∧ ((inject_Z m + (1#2)) * 2 ^ e <= x)%Q.
Proof.
  destruct mrs as [m r s]. intros [Hn Hlo Hhi Hr1 Hr0 Hs0]. simpl in *.
  destruct r, s; use_bits; simpl; auto.
  destruct (Z.even m); auto.
Qed.

Lemma Zdigits2_value_lt m e : 0 ≤ m → ((inject_Z m + 1) * 2 ^ e <= 2 ^ (Zdigits2 m + e))%Q.
Proof.
  intros Hm. change 1%Q with (inject_Z 1). rewrite <- inject_Z_plus, pow2_add. apply Qmult_le_compat_r; [|apply Qlt_le_weak, pow2_pos].
  rewrite pow2_Z by apply Zdigits2_nonneg. rewrite <- Zle_Qle.
  destruct (decide (m = 0)) as [->|]; [done|].
  pose proof (Zdigits2_bounds m). lia.
Qed.

Lemma Zdigits2_value_ge m e : 0 < m → (2 ^ (Zdigits2 m - 1 + e) <= inject_Z m * 2 ^ e)%Q.
Proof.
  intros Hm. rewrite pow2_add. apply Qmult_le_compat_r; [|apply Qlt_le_weak, pow2_pos].
  pose proof (Zdigits2_bounds m Hm) as Hd.
  assert (0 < Zdigits2 m) by (destruct m; simpl; lia).
  rewrite pow2_Z by lia. rewrite <- Zle_Qle. lia.
Qed.

(** The rounding of a number to binary64, as [binary_round_aux] does it. *)
Lemma binary_round_aux_spec sx mx ex lx x :
  0 ≤ mx → sound (shr_record_of_loc mx lx) ex x →
  let e1 := Z.max ex (fexp 53 1024 (Zdigits2 mx + ex)) in
  ∃ m2, 0 ≤ m2
    ∧ (inject_Z m2 * 2 ^ e1 - (1#2) * 2 ^ e1 <= x)%Q
    ∧ (x <= inject_Z m2 * 2 ^ e1 + (1#2) * 2 ^ e1)%Q
    ∧ (∀ b, (x <= inject_Z b * 2 ^ e1)%Q → m2 ≤ b)
    ∧ (∀ a, (inject_Z a * 2 ^ e1 <= x)%Q → a ≤ m2)
    ∧ (e1 ≤ 970 →
       match binary_round_aux 53 1024 sx mx ex lx with
       | S754_zero s => s = sx ∧ m2 = 0
       | S754_finite s m e => s = sx ∧ (F2Q (Z.pos m) e == F2Q m2 e1)%Q ∧ e ≤ e1 + 1
       | _ => False
       end).
Proof.
  intros Hmx Hs e1. unfold binary_round_aux.
  destruct (shr_fexp_sound _ _ _ _ Hs) as [Hs1 He1].
  destruct (shr_fexp 53 1024 mx ex lx) as [mrs1 e1']. simpl in Hs1, He1.
  fold e1 in He1. subst e1'.
  pose proof (round_sound _ _ _ Hs1) as Hround. cbv zeta in Hround.
  set (m1 := shr_m mrs1) in *.
  set (m2 := round_nearest_even m1 (loc_of_shr_record mrs1)) in *.
  pose proof (pow2_pos e1) as Hu.
  pose proof (sound_nonneg _ _ _ Hs1) as Hm1. fold m1 in Hm1.
  pose proof (sound_lo _ _ _ Hs1) as Hlo. fold m1 in Hlo.
  pose proof (sound_hi _ _ _ Hs1) as Hhi. fold m1 in Hhi.
  assert (m1 < 2 ^ 53) as Hm1lt.
  { apply (inject_Z_lt_inv _ _ (2 ^ e1)%Q Hu).
    eapply Qle_lt_trans; [exact Hlo|].
    eapply Qlt_le_trans; [exact (sound_hi _ _ _ Hs)|]. simpl.
    assert (shr_m (shr_record_of_loc mx lx) = mx) as -> by by destruct lx as [|[]].
    eapply Qle_trans; [apply (Zdigits2_value_lt mx ex Hmx)|].
    rewrite <- (pow2_Z 53) by done. rewrite <- pow2_add.
    apply pow2_le. unfold e1. rewrite fexp_eq. lia. }
  assert (m2 = m1 ∨ m2 = m1 + 1) as Hm2 by (destruct Hround as [[? _]|[? _]]; auto).
  assert (sound (shr_record_of_loc m2 loc_Exact) e1 (inject_Z m2 * 2 ^ e1)%Q) as Hs2.
  { split; simpl; intros; try done; try lra. lia. }
  destruct (shr_fexp_sound _ _ _ _ Hs2) as [Hs3 He3].
  destruct (shr_fexp 53 1024 m2 e1 loc_Exact) as [mrs3 e3]. simpl in Hs3, He3.
  exists m2. split; [lia|]. split; [|split; [|split; [|split]]].
  - destruct Hround as [[-> Hx]|[-> Hx]]; [lra|].
    rewrite inject_Z_plus. change (inject_Z 1) with 1%Q. lra.
  - destruct Hround as [[-> Hx]|[-> Hx]]; [lra|].
    rewrite inject_Z_plus. change (inject_Z 1) with 1%Q. lra.
  - intros b Hb.
    assert (m1 ≤ b) as Hle.
    { apply (inject_Z_le_inv _ _ (2 ^ e1)%Q Hu). lra. }
    destruct Hround as [[-> Hx]|[-> Hx]]; [done|].
    destruct (decide (m1 = b)) as [->|]; [|lia]. lra.
  - intros a Ha.
    assert (a < m1 + 1) as Hle.
    { apply (inject_Z_lt_inv _ _ (2 ^ e1)%Q Hu).
      rewrite inject_Z_plus. change (inject_Z 1) with 1%Q. lra. }
    destruct Hround as [[-> Hx]|[-> Hx]]; lia.
  - intros He1.
    assert (fexp 53 1024 (Zdigits2 mx + ex) ≤ e1) as Hf1 by (unfold e1; lia).
    rewrite fexp_eq in Hf1.
    pose proof (sound_nonneg _ _ _ Hs3) as Hm3.
    pose proof (sound_lo _ _ _ Hs3) as Hlo3.
    pose proof (sound_hi _ _ _ Hs3) as Hhi3.
    set (m3 := shr_m mrs3) in *.
    assert (e3 ≤ 971 ∧ (inject_Z m3 * 2 ^ e3 == inject_Z m2 * 2 ^ e1)%Q) as [He3' Hval].
    { destruct (decide (m2 = 2 ^ 53)) as [Heq|Hne].
      - rewrite Heq in He3. change (Zdigits2 (2 ^ 53)) with 54 in He3.
        rewrite fexp_eq in He3.
        assert (e3 = e1 + 1) as -> by lia. split; [lia|].
        rewrite pow2_succ in *.
        assert (m3 = 2 ^ 52) as Hm3v;
          [|subst m3 m2; rewrite Heq, Hm3v; change (2 ^ 53) with (2 * 2 ^ 52);
            rewrite inject_Z_mult; change (inject_Z 2) with 2%Q; lra].
        rewrite Heq in Hlo3, Hhi3.
        change (2 ^ 53) with (2 * 2 ^ 52) in Hlo3, Hhi3.
        rewrite inject_Z_mult in Hlo3, Hhi3. change (inject_Z 2) with 2%Q in *.
        assert (m3 ≤ 2 ^ 52).
        { apply (inject_Z_le_inv _ _ (2 ^ e1)%Q Hu). lra. }
        assert (2 ^ 52 < m3 + 1); [|lia].
        apply (inject_Z_lt_inv _ _ (2 ^ e1)%Q Hu).
        rewrite inject_Z_plus. change (inject_Z 1) with 1%Q. lra.
      - assert (e3 = e1) as ->.
        { rewrite He3, fexp_eq.
          destruct (decide (m2 = 0)) as [->|]; [simpl; lia|].
          pose proof (Zdigits2_bounds m2 ltac:(lia)) as Hd.
          assert (Zdigits2 m2 - 1 < 53); [|lia].
          apply (Z.pow_lt_mono_r_iff 2); lia. }
        split; [lia|].
        assert (m3 = m2) as ->; [|done].
        assert (m3 ≤ m2).
        { apply (inject_Z_le_inv _ _ (2 ^ e1)%Q Hu). lra. }
        assert (m2 < m3 + 1); [|lia].
        apply (inject_Z_lt_inv _ _ (2 ^ e1)%Q Hu).
        rewrite inject_Z_plus. change (inject_Z 1) with 1%Q. lra. }
    destruct m3 as [|p|p] eqn:Hm3e; [| |lia].
    + split; [done|].
      change (inject_Z 0) with 0%Q in Hval.
      assert (m2 ≤ 0); [|lia].
      apply (inject_Z_le_inv _ _ (2 ^ e1)%Q Hu).
      change (inject_Z 0) with 0%Q. lra.
    + destruct (Z.leb_spec e3 (1024 - 53)); [|lia].
      split; [done|]. split; [exact Hval|].
      rewrite He3, fexp_eq.
      assert (Zdigits2 m2 ≤ 54); [|lia].
      destruct (decide (m2 = 0)) as [->|]; [done|].
      pose proof (Zdigits2_bounds m2 ltac:(lia)) as Hd.
      assert (Zdigits2 m2 - 1 < 54); [|lia].
      apply (Z.pow_lt_mono_r_iff 2); lia.
Qed.

Lemma round_exp_le mx ex k :
  0 < mx → (F2Q mx ex < 2 ^ k)%Q → ex ≤ k - 53 → -1074 ≤ k - 53 →
  Z.max ex (fexp 53 1024 (Zdigits2 mx + ex)) ≤ k - 53.
Proof.
  intros Hmx Hlt Hex Hk. rewrite fexp_eq.
  assert (Zdigits2 mx - 1 + ex < k); [|lia].
  apply pow2_lt_inv. eapply Qle_lt_trans; [|exact Hlt].
  by apply Zdigits2_value_ge.
Qed.

Lemma round_exp_cases mx ex x :
  0 < mx → (F2Q mx ex <= x)%Q → (2 ^ (-1022) <= x)%Q →
  let e1 := Z.max ex (fexp 53 1024 (Zdigits2 mx + ex)) in
  e1 = ex ∨ (2 ^ (e1 + 52) <= x)%Q.
Proof.
  intros Hmx Hle Hx e1. unfold e1. rewrite fexp_eq.
  destruct (Z.max_spec ex (Z.max (Zdigits2 mx + ex - 53) (-1074))) as [[_ ->]|[_ ->]];
    [|by left].
  right.
  destruct (Z.max_spec (Zdigits2 mx + ex - 53) (-1074)) as [[_ ->]|[_ ->]]; [done|].
  eapply Qle_trans; [|exact Hle].
  replace (Zdigits2 mx + ex - 53 + 52) with (Zdigits2 mx - 1 + ex) by lia.
  by apply Zdigits2_value_ge.
Qed.

Lemma round_rel_err m2 e1 x :
  (inject_Z m2 * 2 ^ e1 - (1#2) * 2 ^ e1 <= x)%Q →
  (x <= inject_Z m2 * 2 ^ e1 + (1#2) * 2 ^ e1)%Q →
  (2 ^ (e1 + 52) <= x)%Q →
  (x * (1 - 2 ^ (-53)) <= F2Q m2 e1 ∧ F2Q m2 e1 <= x * (1 + 2 ^ (-53)))%Q.
Proof.
  intros Hlo Hhi Hx. unfold F2Q.
  assert ((1#2) * 2 ^ e1 == 2 ^ (-53) * 2 ^ (e1 + 52))%Q as Heq.
  { rewrite <- pow2_add. replace (-53 + (e1 + 52)) with (e1 + -1) by lia.
    rewrite pow2_add. change (2 ^ (-1))%Q with (1#2)%Q. lra. }
  assert (0 < 2 ^ (-53))%Q by apply pow2_pos.
  rewrite Heq in Hlo, Hhi.
  assert (2 ^ (-53) * 2 ^ (e1 + 52) <= 2 ^ (-53) * x)%Q
    by (apply Qmult_le_l; done).
  split; lra.
Qed.

(** *** Conversions *)

Lemma Pos_iter_xO p d : Z.pos (Pos.iter xO p d) = Z.pos p * 2 ^ Z.pos d.
Proof.
  induction d as [|d IH] using Pos.peano_ind.
  - simpl. lia.
  - rewrite Pos.iter_succ, Pos2Z.inj_succ, Z.pow_succ_r by lia.
    rewrite Pos2Z.inj_xO, IH. lia.
Qed.

Lemma shl_align_value mx ex ex' :
  (F2Q (Z.pos (shl_align mx ex ex').1) (shl_align mx ex ex').2 == F2Q (Z.pos mx) ex)%Q
  ∧ (shl_align mx ex ex').2 = Z.min ex ex'.
Proof.
  unfold shl_align. destruct (ex' - ex) as [|d|d] eqn:Hd; simpl;
    try (split; [reflexivity|lia]).
  split; [|lia]. unfold F2Q. rewrite Pos_iter_xO, inject_Z_mult.
  assert (ex = ex' + Z.pos d) as -> by lia.
  rewrite pow2_add, <- pow2_Z by lia. ring.
Qed.

Lemma f64_of_Z_exact m :
  0 ≤ m < 2 ^ 31 → f64_repr (f64_of_Z m) (inject_Z m) (-21).
Proof.
  intros Hm. destruct m as [|p|p]; [done| |lia].
  unfold f64_of_Z, binary_normalize, binary_round.
  pose proof (shl_align_value p 0 (fexp 53 1024 (Z.pos (digits2_pos p) + 0)))
    as [Hv He].
  destruct (shl_align _ _ _) as [mz ez]. simpl in Hv, He.
  assert (F2Q (Z.pos p) 0 == inject_Z (Z.pos p))%Q as Hp.
  { unfold F2Q. change (2 ^ 0)%Q with 1%Q. ring. }
  rewrite Hp in Hv.
  assert (ez ≤ -22) as Hez.
  { rewrite He, fexp_eq.
    pose proof (digits2_pos_bounds p) as Hd.
    assert (Z.pos (digits2_pos p) - 1 < 31); [|lia].
    apply (Z.pow_lt_mono_r_iff 2); lia. }
  assert (sound (shr_record_of_loc (Z.pos mz) loc_Exact) ez (inject_Z (Z.pos p)))
    as Hs.
  { unfold F2Q in Hv. pose proof (pow2_pos ez).
    split; simpl; intros; try done; try lra. }
  destruct (binary_round_aux_spec false (Z.pos mz) ez loc_Exact (inject_Z (Z.pos p))
              ltac:(done) Hs) as (m2 & H0 & _ & _ & Hub & Hlb & Hres).
  set (e1 := Z.max ez (fexp 53 1024 (Zdigits2 (Z.pos mz) + ez))) in *.
  assert (e1 ≤ 31 - 53) as He1.
  { apply round_exp_le; [done| |lia|lia].
    rewrite Hv, pow2_Z by done. rewrite <- Zlt_Qlt. lia. }
  assert (inject_Z (Z.pos p) == inject_Z (Z.pos p * 2 ^ (- e1)) * 2 ^ e1)%Q as Hx.
  { rewrite inject_Z_mult, <- pow2_Z by lia.
    rewrite <- Qmult_assoc, <- pow2_add.
    replace (- e1 + e1) with 0 by lia. change (2 ^ 0)%Q with 1%Q. ring. }
  assert (m2 = Z.pos p * 2 ^ (- e1)) as Hm2.
  { apply Z.le_antisymm; [apply Hub | apply Hlb]; rewrite <- Hx; apply Qle_refl. }
  specialize (Hres ltac:(lia)).
  destruct (binary_round_aux 53 1024 false (Z.pos mz) ez loc_Exact)
    as [sg|sg| |sg m e]; try done.
  - destruct Hres as [_ ->]. lia.
  - destruct Hres as (-> & Hval & He'). simpl. split; [|lia].
    rewrite Hval. unfold F2Q. by rewrite Hm2, <- Hx.
Qed.

(** *** Truncation *)

Lemma f64_trunc_floor r v e :
  f64_repr r v e → f64_trunc r = Qfloor v.
Proof.
  destruct r as [sg|sg| |[] m e']; try done; simpl.
  - intros ->. done.
  - intros [<- _]. unfold F2Q. destruct (Z.leb_spec 0 e').
    + rewrite pow2_Z, <- inject_Z_mult by done. by rewrite Qfloor_Z.
    + rewrite Zdiv_Qdiv. apply Qfloor_comp.
      replace e' with (- - e') at 2 by lia.
      rewrite Qpower_opp, pow2_Z by lia. reflexivity.
Qed.

Lemma Qfloor_unique x k : (inject_Z k <= x)%Q → (x < inject_Z (k + 1))%Q → Qfloor x = k.
Proof.
  intros Hlo Hhi. apply Z.le_antisymm.
  - assert (Qfloor x < k + 1); [|lia].
    rewrite Zlt_Qlt. eapply Qle_lt_trans; [apply Qfloor_le|done].
  - rewrite <- (Qfloor_Z k). by apply Qfloor_resp_le.
Qed.

(** *** Multiplication *)

Lemma f64_repr_nonneg r v e : f64_repr r v e → (0 <= v)%Q.
Proof.
  destruct r as [sg|sg| |[] m e']; try done; simpl.
  - intros ->. apply Qle_refl.
  - intros [<- _]. unfold F2Q. apply Qmult_le_0_compat.
    + by rewrite <- (Zle_Qle 0). 
    + apply Qlt_le_weak, pow2_pos.
Qed.

Lemma Z_as_multiple k e : e ≤ 0 → (inject_Z k == inject_Z (k * 2 ^ (- e)) * 2 ^ e)%Q.
Proof.
  intros He. rewrite inject_Z_mult, <- pow2_Z by lia.
  rewrite <- Qmult_assoc, <- pow2_add.
  replace (- e + e) with 0 by lia. change (2 ^ 0)%Q with 1%Q. ring.
Qed.

Lemma f64_mul_spec a b va vb ea eb :
  f64_repr a va ea → f64_repr b vb eb → ea + eb ≤ 0 →
  (va * vb < 2 ^ 53)%Q → ((va * vb == 0)%Q ∨ (2 ^ (-1022) <= va * vb)%Q) →
  ∃ vp, f64_repr (f64_mul a b) vp 1
    ∧ (va * vb * (1 - 2 ^ (-53)) <= vp)%Q
    ∧ (vp <= va * vb * (1 + 2 ^ (-53)))%Q
    ∧ ∀ k, (va * vb <= inject_Z k)%Q → (vp <= inject_Z k)%Q.
Proof.
  intros Ha Hb He Hlt Hnz.
  pose proof (f64_repr_nonneg _ _ _ Ha) as Hva.
  pose proof (f64_repr_nonneg _ _ _ Hb) as Hvb.
  assert (0 < 2 ^ (-53) < 1)%Q as Hu by (split; [apply pow2_pos|done]).
  assert ((va == 0)%Q ∨ (vb == 0)%Q →
          ∃ vp, (vp == 0)%Q
            ∧ (va * vb * (1 - 2 ^ (-53)) <= vp)%Q
            ∧ (vp <= va * vb * (1 + 2 ^ (-53)))%Q
            ∧ ∀ k, (va * vb <= inject_Z k)%Q → (vp <= inject_Z k)%Q) as Hzero.
  { intros Hz. exists 0%Q.
    assert (va * vb == 0)%Q as Hprod by (destruct Hz as [-> | ->]; ring).
    split; [reflexivity|]. split; [lra|]. split; [lra|]. intros k Hk. lra. }
  destruct a as [sa|sa| |[] ma ea']; try done;
    destruct b as [sb|sb| |[] mb eb']; try done; simpl in Ha, Hb.
  - destruct Hzero as (vp & Hvp & ?); [by left|]. by exists vp.
  - destruct Hzero as (vp & Hvp & ?); [by left|]. by exists vp.
  - destruct Hzero as (vp & Hvp & ?); [by right|]. by exists vp.
  - destruct Ha as [Ha Hea], Hb as [Hb Heb].
    unfold f64_mul, SFmul. simpl xorb.
    set (x := (va * vb)%Q) in *.
    assert (F2Q (Z.pos (ma * mb)) (ea' + eb') == x)%Q as Hx.
    { unfold x. rewrite <- Ha, <- Hb. unfold F2Q.
      rewrite Pos2Z.inj_mul, inject_Z_mult, pow2_add. ring. }
    assert (sound (shr_record_of_loc (Z.pos (ma * mb)) loc_Exact) (ea' + eb') x)
      as Hs.
    { unfold F2Q in Hx. pose proof (pow2_pos (ea' + eb')).
      split; simpl; intros; try done; try lra. }
    destruct (binary_round_aux_spec false (Z.pos (ma * mb)) (ea' + eb') loc_Exact x
                ltac:(done) Hs) as (m2 & H0 & Hlo & Hhi & Hub & Hlb & Hres).
    set (e1 := Z.max (ea' + eb') (fexp 53 1024 (Zdigits2 (Z.pos (ma * mb)) + (ea' + eb')))) in *.
    assert (e1 ≤ 53 - 53) as He1.
    { apply round_exp_le; [done| |lia|lia]. by rewrite Hx. }
    specialize (Hres ltac:(lia)).
    exists (F2Q m2 e1). split; [|split; [|split]].
    + destruct (binary_round_aux 53 1024 false _ _ loc_Exact)
        as [sg|sg| |sg m e]; try done.
      * destruct Hres as [_ ->]. unfold F2Q. simpl. ring.
      * destruct Hres as (-> & Hval & He'). simpl. split; [done|lia].
    + assert (0 < x)%Q as Hpos.
      { rewrite <- Hx. unfold F2Q. apply Qmult_lt_0_compat; [done|apply pow2_pos]. }
      destruct Hnz as [Hz|Hnz]; [lra|].
      destruct (round_exp_cases (Z.pos (ma * mb)) (ea' + eb') x) as [Heq|Hbig];
        [done|rewrite Hx; apply Qle_refl|done| |].
      * fold e1 in Heq.
        assert (m2 = Z.pos (ma * mb)) as ->.
        { apply Z.le_antisymm; [apply Hub | apply Hlb];
            rewrite Heq; unfold F2Q in Hx; rewrite Hx; apply Qle_refl. }
        rewrite Heq, Hx. nra.
      * fold e1 in Hbig. by apply round_rel_err.
    + assert (0 < x)%Q as Hpos.
      { rewrite <- Hx. unfold F2Q. apply Qmult_lt_0_compat; [done|apply pow2_pos]. }
      destruct Hnz as [Hz|Hnz]; [lra|].
      destruct (round_exp_cases (Z.pos (ma * mb)) (ea' + eb') x) as [Heq|Hbig];
        [done|rewrite Hx; apply Qle_refl|done| |].
      * fold e1 in Heq.
        assert (m2 = Z.pos (ma * mb)) as ->.
        { apply Z.le_antisymm; [apply Hub | apply Hlb];
            rewrite Heq; unfold F2Q in Hx; rewrite Hx; apply Qle_refl. }
        rewrite Heq, Hx. nra.
      * fold e1 in Hbig. by apply round_rel_err.
    + intros k Hk. rewrite (Z_as_multiple k e1) by lia. unfold F2Q.
      apply Qmult_le_compat_r; [|apply Qlt_le_weak, pow2_pos].
      rewrite <- Zle_Qle. apply Hub. by rewrite <- Z_as_multiple by lia.
Qed.

(** *** Division *)

Lemma new_location_sound m2 r q e x :
  0 < m2 → 0 ≤ r < m2 → 0 ≤ q →
  (x * inject_Z m2 == (inject_Z m2 * inject_Z q + inject_Z r) * 2 ^ e)%Q →
  sound (shr_record_of_loc q (new_location m2 r)) e x.
Proof.
  intros Hm2 Hr Hq Hx.
  pose proof (pow2_pos e) as Hu. set (u := (2 ^ e)%Q) in *.
  assert (0 < inject_Z m2)%Q as HM by by rewrite <- (Zlt_Qlt 0).
  assert (0 <= inject_Z r)%Q as HR0 by (rewrite <- (Zle_Qle 0); lia).
  assert (inject_Z r < inject_Z m2)%Q as HR1 by (rewrite <- Zlt_Qlt; lia).
  assert (∀ c, (c * inject_Z m2 <= inject_Z r)%Q → ((inject_Z q + c) * u <= x)%Q)
    as Hge.
  { intros c Hc. apply (Qmult_le_r _ _ (inject_Z m2)); [done|]. rewrite Hx. nra. }
  assert (∀ c, (inject_Z r <= c * inject_Z m2)%Q → (x <= (inject_Z q + c) * u)%Q)
    as Hle.
  { intros c Hc. apply (Qmult_le_r _ _ (inject_Z m2)); [done|]. rewrite Hx. nra. }
  assert (∀ c, (inject_Z r < c * inject_Z m2)%Q → (x < (inject_Z q + c) * u)%Q)
    as Hlt.
  { intros c Hc. apply (Qmult_lt_r _ _ (inject_Z m2)); [done|]. rewrite Hx. nra. }
  assert ((inject_Z q * u <= x)%Q ∧ (x < (inject_Z q + 1) * u)%Q) as [Hlo Hhi].
  { split.
    - specialize (Hge 0%Q ltac:(lra)). lra.
    - apply Hlt. lra. }
  assert (∀ a b, a ≤ b → (inject_Z a <= inject_Z b)%Q) as HZle
    by (intros; by rewrite <- Zle_Qle).
  assert (inject_Z (2 * r) == 2 * inject_Z r)%Q as H2r by by rewrite inject_Z_mult.
  assert (inject_Z (2 * r + 1) == 2 * inject_Z r + 1)%Q as H2r1
    by by rewrite inject_Z_plus, inject_Z_mult.
  unfold new_location, new_location_even, new_location_odd.
  destruct (Z.even m2); (destruct (Z.eqb_spec r 0) as [->|Hr0];
    [change (inject_Z 0) with 0%Q in *;
     split; simpl; fold u; intros; try done; try lra;
     specialize (Hle 0%Q ltac:(lra)); lra|]).
  - destruct (Z.compare_spec (2 * r) m2) as [Hc|Hc|Hc].
    + pose proof (HZle _ _ (Z.eq_le_incl _ _ Hc)) as H1.
      pose proof (HZle _ _ (Z.eq_le_incl _ _ (eq_sym Hc))) as H2.
      rewrite H2r in H1, H2.
      split; simpl; fold u; intros; try done.
      * apply Hge. lra.
      * apply Hle. lra.
    + pose proof (HZle _ _ (Z.lt_le_incl _ _ Hc)) as H1. rewrite H2r in H1.
      split; simpl; fold u; intros; try done.
      apply Hle. lra.
    + pose proof (HZle _ _ (Z.lt_le_incl _ _ Hc)) as H1. rewrite H2r in H1.
      split; simpl; fold u; intros; try done.
      apply Hge. lra.
  - destruct (Z.compare_spec (2 * r + 1) m2) as [Hc|Hc|Hc].
    + pose proof (HZle _ _ (Z.eq_le_incl _ _ Hc)) as H1. rewrite H2r1 in H1.
      split; simpl; fold u; intros; try done.
      apply Hle. lra.
    + pose proof (HZle _ _ (Z.lt_le_incl _ _ Hc)) as H1. rewrite H2r1 in H1.
      split; simpl; fold u; intros; try done.
      apply Hle. lra.
    + assert (m2 ≤ 2 * r) as Hc' by lia.
      pose proof (HZle _ _ Hc') as H1. rewrite H2r in H1.
      split; simpl; fold u; intros; try done.
      apply Hge. lra.
Qed.

Lemma pow2_div_le x a b : (2 ^ a <= x * 2 ^ b)%Q → (2 ^ (a - b) <= x)%Q.
Proof.
  intros Hle. apply (Qmult_le_r _ _ (2 ^ b)%Q); [apply pow2_pos|].
  rewrite <- pow2_add. by replace (a - b + b) with a by lia.
Qed.

Lemma SFdiv_core_sound m1 e1 m2 e2 x :
  0 < m1 → 0 < m2 → (x * F2Q m2 e2 == F2Q m1 e1)%Q → (2 ^ (-1022) <= x)%Q →
  let r := SFdiv_core_binary 53 1024 m1 e1 m2 e2 in
  0 ≤ r.1.1 ∧ sound (shr_record_of_loc r.1.1 r.2) r.1.2 x
  ∧ (2 ^ (r.1.2 + 52) <= x)%Q.
Proof.
  intros Hm1 Hm2 Hx Hbig. unfold SFdiv_core_binary.
  set (d := Zdigits2 m1 + e1 - (Zdigits2 m2 + e2)).
  set (e' := Z.min (fexp 53 1024 d) (e1 - e2)).
  set (s := e1 - e2 - e').
  assert (0 ≤ s) as Hs by (unfold s, e'; lia).
  set (m' := match s with Z.pos _ => Z.shiftl m1 s | 0 => m1 | Z.neg _ => 0 end).
  assert (m' = m1 * 2 ^ s) as Hm'.
  { unfold m'. destruct s as [|p|p]; [simpl; lia| |lia].
    by rewrite Z.shiftl_mul_pow2. }
  pose proof (Z_div_mod m' m2 ltac:(lia)) as Hdiv.
  destruct (Z.div_eucl m' m2) as [q r]. destruct Hdiv as [Hqr Hr]. simpl.
  assert (0 ≤ q) as Hq by nia.
  assert (0 < F2Q m2 e2)%Q as Hvb.
  { unfold F2Q. apply Qmult_lt_0_compat; [by rewrite <- (Zlt_Qlt 0)|apply pow2_pos]. }
  assert (0 < x)%Q as Hxpos.
  { eapply Qlt_le_trans; [apply (pow2_pos (-1022))|done]. }
  assert (2 ^ (d - 1) <= x)%Q as Hd.
  { replace (d - 1) with (Zdigits2 m1 - 1 + e1 - (Zdigits2 m2 + e2)) by (unfold d; lia).
    apply pow2_div_le.
    eapply Qle_trans; [apply (Zdigits2_value_ge m1 e1 Hm1)|].
    fold (F2Q m1 e1). rewrite <- Hx.
    apply Qmult_le_l; [done|].
    eapply Qle_trans; [|apply (Zdigits2_value_lt m2 e2); lia].
    unfold F2Q. pose proof (pow2_pos e2). lra. }
  split; [done|]. split.
  - apply new_location_sound; [done|done|done|].
    rewrite <- inject_Z_mult, <- inject_Z_plus, <- Hqr, Hm', inject_Z_mult.
    assert (2 ^ e1 == 2 ^ s * 2 ^ e' * 2 ^ e2)%Q as Hp.
    { rewrite <- !pow2_add. by replace (s + e' + e2) with e1 by (unfold s; lia). }
    apply (Qmult_inj_r _ _ (2 ^ e2)%Q); [pose proof (pow2_pos e2); lra|].
    unfold F2Q in Hx. rewrite <- Qmult_assoc, Hx, Hp, <- pow2_Z by done. ring.
  - assert (e' + 52 ≤ Z.max (d - 1) (-1022)) as Hle
      by (unfold e'; rewrite fexp_eq; lia).
    destruct (Z.max_spec (d - 1) (-1022)) as [[_ Hmax]|[_ Hmax]]; rewrite Hmax in Hle.
    + eapply Qle_trans; [apply pow2_le, Hle|done].
    + eapply Qle_trans; [apply pow2_le, Hle|done].
Qed.

Lemma f64_div_spec a b va vb ea eb :
  f64_repr a va ea → f64_repr b vb eb → (0 < vb)%Q → (va < vb)%Q →
  ((va == 0)%Q ∨ (2 ^ (-1022) * vb <= va)%Q) →
  ∃ vq, f64_repr (f64_div a b) vq (-52)
    ∧ (va * (1 - 2 ^ (-53)) <= vq * vb)%Q
    ∧ (vq * vb <= va * (1 + 2 ^ (-53)))%Q
    ∧ (vq <= 1)%Q.
Proof.
  intros Ha Hb Hvb Hlt Hnz.
  pose proof (f64_repr_nonneg _ _ _ Ha) as Hva.
  assert (0 < 2 ^ (-53) < 1)%Q as Hu by (split; [apply pow2_pos|done]).
  destruct b as [sb|sb| |[] mb eb']; try done; simpl in Hb; [lra|].
  destruct a as [sa|sa| |[] ma ea']; try done; simpl in Ha.
  { exists 0%Q. simpl. split; [reflexivity|]. rewrite Ha. lra. }
  destruct Ha as [Ha Hea], Hb as [Hb Heb].
  assert (0 < va)%Q as Hvapos.
  { rewrite <- Ha. unfold F2Q. apply Qmult_lt_0_compat; [done|apply pow2_pos]. }
  destruct Hnz as [Hz|Hnz]; [lra|].
  set (x := (va / vb)%Q).
  assert (x * vb == va)%Q as Hxv by (unfold x; field; lra).
  assert (0 < x)%Q as Hxpos.
  { unfold x. apply Qlt_shift_div_l; lra. }
  assert (x < 1)%Q as Hx1.
  { unfold x. apply Qlt_shift_div_r; lra. }
  assert (2 ^ (-1022) <= x)%Q as Hbig.
  { unfold x. apply Qle_shift_div_l; lra. }
  unfold f64_div, SFdiv. simpl xorb.
  destruct (SFdiv_core_sound (Z.pos ma) ea' (Z.pos mb) eb' x) as (Hq & Hs & He');
    [done|done|by rewrite Ha, Hb|done|].
  destruct (SFdiv_core_binary 53 1024 (Z.pos ma) ea' (Z.pos mb) eb') as [[q e'] l].
  simpl in Hq, Hs, He'.
  assert (shr_m (shr_record_of_loc q l) = q) as Hshr by by destruct l as [|[]].
  pose proof (sound_lo _ _ _ Hs) as Hlo. rewrite Hshr in Hlo.
  pose proof (sound_hi _ _ _ Hs) as Hhi. rewrite Hshr in Hhi.
  assert (0 < q) as Hqpos.
  { assert (2 ^ 52 < q + 1); [|lia].
    apply (inject_Z_lt_inv _ _ (2 ^ e')%Q (pow2_pos e')).
    rewrite inject_Z_plus. change (inject_Z 1) with 1%Q.
    eapply Qle_lt_trans; [|exact Hhi].
    rewrite <- pow2_Z, <- pow2_add by done.
    by replace (52 + e') with (e' + 52) by lia. }
  destruct (binary_round_aux_spec false q e' l x Hq Hs)
    as (m2 & H0 & Hrlo & Hrhi & Hub & Hlb & Hres).
  set (e1 := Z.max e' (fexp 53 1024 (Zdigits2 q + e'))) in *.
  assert (e1 ≤ 0 - 53) as He1.
  { assert (e' + 52 < 0) as He0.
    { apply pow2_lt_inv. eapply Qle_lt_trans; [exact He'|].
      by change (2 ^ 0)%Q with 1%Q. }
    apply round_exp_le; [done| |lia|lia].
    change (2 ^ 0)%Q with 1%Q. unfold F2Q. lra. }
  assert (2 ^ (e1 + 52) <= x)%Q as Hbig1.
  { destruct (round_exp_cases q e' x Hqpos Hlo Hbig) as [Heq|Hb1]; [|done].
    fold e1 in Heq. by rewrite Heq. }
  destruct (round_rel_err _ _ _ Hrlo Hrhi Hbig1) as [Hel Heh].
  specialize (Hres ltac:(lia)).
  exists (F2Q m2 e1). split; [|split; [|split]].
  - destruct (binary_round_aux 53 1024 false q e' l) as [sg|sg| |sg m e]; try done.
    + destruct Hres as [_ ->]. unfold F2Q. simpl. ring.
    + destruct Hres as (-> & Hval & Hee). simpl. split; [done|lia].
  - rewrite <- Hxv. nra.
  - rewrite <- Hxv. nra.
  - change 1%Q with (inject_Z 1). rewrite (Z_as_multiple 1 e1) by lia. unfold F2Q.
    apply Qmult_le_compat_r; [|apply Qlt_le_weak, pow2_pos].
    rewrite <- Zle_Qle. apply Hub. rewrite <- Z_as_multiple by lia.
    change (inject_Z 1) with 1%Q. lra.
Qed.

(** *** The product of line 39 *)

Lemma life_product_spec m s :
  0 ≤ m < 2147483648 → 0 ≤ s < 2147483647 →
  ∃ vq vp,
    life_product m s = Qfloor vp
    ∧ (0 <= vq <= 1)%Q
    ∧ (inject_Z s * (1 - 2 ^ (-53)) <= vq * inject_Z 2147483647)%Q
    ∧ (vq * inject_Z 2147483647 <= inject_Z s * (1 + 2 ^ (-53)))%Q
    ∧ (inject_Z m * vq * (1 - 2 ^ (-53)) <= vp)%Q
    ∧ (vp <= inject_Z m * vq * (1 + 2 ^ (-53)))%Q
    ∧ (0 <= vp <= inject_Z m)%Q.
Proof.
  intros Hm Hs.
  pose proof (f64_of_Z_exact m Hm) as Ha.
  pose proof (f64_of_Z_exact s ltac:(lia)) as Hb.
  pose proof (f64_of_Z_exact 2147483647 ltac:(done)) as Hc.
  assert (0 <= inject_Z m)%Q as Hm0 by (rewrite <- (Zle_Qle 0); lia).
  assert (inject_Z m < 2147483648)%Q as Hm1
    by (change 2147483648%Q with (inject_Z (2 ^ 31)); rewrite <- Zlt_Qlt; lia).
  assert (0 <= inject_Z s)%Q as Hs0 by (rewrite <- (Zle_Qle 0); lia).
  assert (inject_Z s < 2147483647)%Q as Hs1
    by (change 2147483647%Q with (inject_Z 2147483647); rewrite <- Zlt_Qlt; lia).
  assert (0 < s → (1 <= inject_Z s)%Q) as Hs2
    by (intros; rewrite <- (Zle_Qle 1); lia).
  assert (0 < m → (1 <= inject_Z m)%Q) as Hm2
    by (intros; rewrite <- (Zle_Qle 1); lia).
  change (inject_Z 2147483647) with 2147483647%Q in *.
  assert (2 ^ (-1022) <= 2 ^ (-33))%Q as Hsmall by by apply pow2_le.
  change (2 ^ (-33))%Q with (1 # 8589934592)%Q in Hsmall.
  assert (0 < 2 ^ (-53) < 1 # 2)%Q as Hu by (split; [apply pow2_pos|done]).
  destruct (f64_div_spec _ _ _ _ _ _ Hb Hc) as (vq & Hq & Hq1 & Hq2 & Hq3);
    [done|done| |].
  { destruct (decide (s = 0)) as [->|]; [by left|right].
    specialize (Hs2 ltac:(lia)). lra. }
  pose proof (f64_repr_nonneg _ _ _ Hq) as Hq0.
  destruct (f64_mul_spec _ _ _ _ _ _ Ha Hq) as (vp & Hp & Hp1 & Hp2 & Hp3);
    [done| | |].
  { apply (Qle_lt_trans _ (inject_Z m)); [nra|].
    change (2 ^ 53)%Q with 9007199254740992%Q. lra. }
  { destruct (decide (m = 0)) as [->|]; [left; change (inject_Z 0) with 0%Q; ring|].
    destruct (decide (s = 0)) as [->|].
    { left. change (inject_Z 0) with 0%Q in *. assert (vq == 0)%Q as -> by lra. ring. }
    right. specialize (Hs2 ltac:(lia)). specialize (Hm2 ltac:(lia)).
    assert (1 # 8589934592 <= vq)%Q by nra. nra. }
  pose proof (f64_repr_nonneg _ _ _ Hp) as Hp0.
  exists vq, vp. split; [by eapply f64_trunc_floor|].
  split; [done|]. split; [done|]. split; [done|]. split; [done|]. split; [done|].
  split; [done|]. apply Hp3. nra.
Qed.

Lemma life_product_bounds m s :
  0 ≤ m < 2147483648 → 0 ≤ s < 2147483647 → 0 ≤ life_product m s ≤ m.
Proof.
  intros Hm Hs.
  destruct (life_product_spec m s Hm Hs) as (vq & vp & -> & _ & _ & _ & _ & _ & Hp).
  destruct Hp as [Hp0 Hp1]. split.
  - exact (Qfloor_resp_le 0 vp Hp0).
  - pose proof (Qfloor_resp_le _ _ Hp1) as Hle. by rewrite Qfloor_Z in Hle.
Qed.

(** *** The modulus is prime *)

Lemma no_divisor_from_spec n fuel : ∀ d x,
  no_divisor_from n d fuel = true → d ≤ x < d + Z.of_nat fuel → n `mod` x ≠ 0.
Proof.
  induction fuel as [|fuel IH]; intros d x Hnd Hx; [lia|].
  simpl in Hnd. apply andb_true_iff in Hnd as [Hd Hnd].
  destruct (decide (x = d)) as [->|].
  - by destruct (Z.eqb_spec (n `mod` d) 0).
  - apply (IH (d + 1)); [done|lia].
Qed.

Lemma modulus_prime : Z.prime 2147483647.
Proof.
  split; [done|]. intros n Hn [c Hc].
  assert (no_divisor_from 2147483647 2 (Z.to_nat 46339) = true) as Hnd
    by (vm_compute; reflexivity).
  assert (∀ d, 2 ≤ d ≤ 46340 → 2147483647 `mod` d ≠ 0) as Hsmall.
  { intros d Hd. apply (no_divisor_from_spec _ _ _ _ Hnd). lia. }
  assert (0 < c) by nia.
  destruct (Z_le_gt_dec n 46340).
  - apply (Hsmall n); [lia|]. rewrite Hc. apply Z.mod_mul. lia.
  - apply (Hsmall c); [nia|]. rewrite Hc, Z.mul_comm. apply Z.mod_mul. lia.
Qed.

Lemma modulus_coprime m s :
  0 < m < 2147483647 → 0 < s < 2147483647 → (m * s) `mod` 2147483647 ≠ 0.
Proof.
  intros Hm Hs Hz. apply Z.mod_divide in Hz; [|done].
  destruct (proj1 (Z.divide_prime_mul m s _ modulus_prime) Hz) as [Hd|Hd];
    apply Z.divide_pos_le in Hd; lia.
Qed.

Lemma life_product_exact m s :
  0 ≤ m ≤ 1048576 → 0 ≤ s < 2147483647 →
  life_product m s = (m * s) `div` 2147483647.
Proof.
  intros Hm Hs.
  destruct (life_product_spec m s ltac:(lia) Hs)
    as (vq & vp & -> & [Hq0 Hq3] & Hq1 & Hq2 & Hp1 & Hp2 & [Hp0 Hp3]).
  apply Qfloor_unique.
  all: rewrite ?inject_Z_plus; change (inject_Z 2147483647) with 2147483647%Q in *;
    change (inject_Z 1) with 1%Q.
  all: change (2 ^ (-53))%Q with (1 # 9007199254740992)%Q in *.
  all: pose proof (Z.div_mod (m * s) 2147483647 ltac:(done)) as Hdm.
  all: pose proof (Z.mod_pos_bound (m * s) 2147483647 ltac:(done)) as Hr.
  all: set (k := (m * s) `div` 2147483647) in *.
  all: set (r := (m * s) `mod` 2147483647) in *.
  all: assert (inject_Z m * inject_Z s == 2147483647 * inject_Z k + inject_Z r)%Q as HP
    by (rewrite <- inject_Z_mult, Hdm, inject_Z_plus, inject_Z_mult; reflexivity).
  all: assert (0 <= inject_Z m)%Q as Hm0 by (rewrite <- (Zle_Qle 0); lia).
  all: assert (inject_Z m <= 1048576)%Q as Hm1
    by (change 1048576%Q with (inject_Z (2 ^ 20)); rewrite <- Zle_Qle; lia).
  all: assert (0 <= inject_Z s)%Q as Hs0 by (rewrite <- (Zle_Qle 0); lia).
  all: assert (inject_Z s <= 2147483647)%Q as Hs1
    by (change 2147483647%Q with (inject_Z 2147483647); rewrite <- Zle_Qle; lia).
  all: assert (0 <= inject_Z r)%Q as Hr0 by (rewrite <- (Zle_Qle 0); lia).
  all: assert (inject_Z r <= 2147483646)%Q as Hr1
    by (change 2147483646%Q with (inject_Z 2147483646); rewrite <- Zle_Qle; lia).
  all: assert (0 <= inject_Z m * inject_Z s <= 1048576 * 2147483647)%Q as HPb by nra.
  all: assert (inject_Z m * (inject_Z s * (1 - (1 # 9007199254740992)))
               <= inject_Z m * (vq * 2147483647))%Q as HA
    by nra.
  all: assert (inject_Z m * (vq * 2147483647)
               <= inject_Z m * (inject_Z s * (1 + (1 # 9007199254740992))))%Q as HB
    by nra.
  - destruct (decide (r = 0)) as [Hz|Hnz].
    + assert (m = 0 ∨ s = 0) as Hms.
      { destruct (decide (m = 0)); [by left|]. destruct (decide (s = 0)); [by right|].
        exfalso. by apply (modulus_coprime m s); [lia|lia|]. }
      assert (k = 0) as -> by (destruct Hms as [-> | ->]; unfold k; [done|];
                                 by rewrite Z.mul_0_r).
      done.
    + assert (1 <= inject_Z r)%Q by (rewrite <- (Zle_Qle 1); lia). lra.
  - lra.
Qed.

Section Proofs.
Context `{direction} `{maze_flags}.

(** ** The stages of the explore pass *)

Lemma advance_seeds_effect c unloaded_ants c1 :
  NoDup unloaded_ants → advance_seeds c unloaded_ants = Ok c1 →
  (∀ i, i ∈ unloaded_ants →
     ∃ s, seeds c !! i = Some s ∧ seeds c1 !! i = Some (lcg s))
  ∧ (∀ i, i ∉ unloaded_ants → seeds c1 !! i = seeds c !! i)
  ∧ length (seeds c1) = length (seeds c)
  ∧ is_loaded c1 = is_loaded c ∧ max_life c1 = max_life c ∧ age c1 = age c
  ∧ historic_path c1 = historic_path c ∧ directions c1 = directions c.
Proof.
  intros Hnd Ha. unfold advance_seeds in Ha.
  apply bind_Ok in Ha as (ss & Hss & Ha).
  apply bind_Ok in Ha as (seeds1 & Hput & Ha). injection Ha as <-.
  simpl. split_and!; try done.
  - intros i [n Hn]%list_elem_of_lookup.
    destruct (take_lookup _ _ _ _ _ Hss Hn) as (s & Hs & His).
    exists s. split; [done|]. eapply put_in; [done..|].
    by rewrite list_lookup_fmap, Hs.
  - intros i Hi. by eapply put_other.
  - by eapply put_length.
Qed.

Lemma advance_seeds_ok c unloaded_ants c1 :
  advance_seeds c unloaded_ants = Ok c1 →
  Forall seed_ok (seeds c) → Forall seed_ok (seeds c1).
Proof.
  intros Ha Hok. unfold advance_seeds in Ha.
  apply bind_Ok in Ha as (ss & Hss & Ha).
  apply bind_Ok in Ha as (seeds1 & Hput & Ha). injection Ha as <-. simpl.
  eapply put_Forall; [done..|]. apply Forall_fmap.
  apply take_Forall2 in Hss. apply list.Forall_forall. intros s [n Hn]%list_elem_of_lookup.
  simpl. apply lcg_seed_ok.
  destruct (Forall2_lookup_r _ _ _ _ _ Hss Hn) as (i & _ & Hi).
  rewrite list.Forall_forall in Hok. apply Hok. by eapply list_elem_of_lookup_2.
Qed.

Lemma current_positions_effect c ps :
  current_positions c = Ok ps →
  length ps = length (seeds c) ∧ length (age c) = length (seeds c)
  ∧ ∀ i p, ps !! i = Some p →
      ∃ a row, age c !! i = Some a ∧ historic_path c !! i = Some row
               ∧ np_get row a = Ok p.
Proof.
  unfold current_positions. intros Hc.
  destruct (decide _) as [Hlen|]; [|done].
  pose proof (lanes_length _ _ _ Hc) as Hl. rewrite length_seq in Hl.
  split_and!; [done..|]. intros i p Hp.
  assert ((i < length (seeds c))%nat) as Hi
    by (rewrite <- Hl; by eapply lookup_lt_Some).
  destruct (lanes_lookup _ _ _ i i Hc) as (p' & Hp' & Hf).
  { by apply lookup_seq. }
  apply bind_Ok in Hf as (a & Ha%getitem_Ok & Hf).
  apply bind_Ok in Hf as (row & Hrow%getitem_Ok & Hf).
  simplify_eq. eauto.
Qed.

Lemma sense_all_effect c the_maze pheromon senses :
  sense_all c the_maze pheromon = Ok senses →
  length senses = length (seeds c) ∧ length (age c) = length (seeds c)
  ∧ ∀ i sn, senses !! i = Some sn →
      ∃ a row p, age c !! i = Some a ∧ historic_path c !! i = Some row
                 ∧ np_get row a = Ok p ∧ sense_cell the_maze pheromon p = Ok sn.
Proof.
  unfold sense_all. intros Hs. apply bind_Ok in Hs as (ps & Hps & Hs).
  destruct (current_positions_effect _ _ Hps) as (Hl1 & Hl2 & Hpos).
  pose proof (lanes_length _ _ _ Hs) as Hl. split_and!; [lia | done |].
  intros i sn Hsn. apply lanes_Forall2 in Hs.
  destruct (Forall2_lookup_r _ _ _ _ _ Hs Hsn) as (p & Hp & Hsp).
  destruct (Hpos _ _ Hp) as (a & row & ? & ? & ?). eauto 10.
Qed.

Lemma exploring_ants_spec choices senses unloaded_ants ex :
  exploring_ants choices senses unloaded_ants = Ok ex → NoDup unloaded_ants →
  NoDup ex
  ∧ (∀ i, i ∈ unloaded_ants →
       ∃ ch sn, choices !! i = Some ch ∧ senses !! i = Some sn)
  ∧ ∀ i, i ∈ ex ↔
      i ∈ unloaded_ants
      ∧ ∃ ch sn, choices !! i = Some ch ∧ senses !! i = Some sn
          ∧ Qle_bool ch exploration_coefs || Qeq_bool (max_pheromones sn) 0%Q = true.
Proof.
  unfold exploring_ants, explore_mask. intros He Hnd.
  apply bind_Ok in He as (mask & Hmask & He).
  destruct (select_lanes _ _ _ _ Hmask He) as [-> Hin].
  split_and!; [by apply NoDup_mask_select | |].
  - intros i [n Hn]%list_elem_of_lookup.
    destruct (lanes_lookup _ _ _ _ _ Hmask Hn) as (b & _ & Hf).
    apply bind_Ok in Hf as (ch & Hch%getitem_Ok & Hf).
    apply bind_Ok in Hf as (sn & Hsn%getitem_Ok & Hf). eauto.
  - intros i. rewrite Hin. split.
    + intros [Hi Hf]. split; [done|].
      apply bind_Ok in Hf as (ch & Hch%getitem_Ok & Hf).
      apply bind_Ok in Hf as (sn & Hsn%getitem_Ok & Hf).
      injection Hf as Hf. eauto 10.
    + intros (Hi & ch & sn & Hch & Hsn & Hb). split; [done|].
      rewrite (getitem_lookup _ _ _ Hch). simpl.
      rewrite (getitem_lookup _ _ _ Hsn). simpl. by rewrite Hb.
Qed.

Lemma following_ants_spec choices senses unloaded_ants fo :
  following_ants choices senses unloaded_ants = Ok fo → NoDup unloaded_ants →
  NoDup fo
  ∧ ∀ i, i ∈ fo ↔
      i ∈ unloaded_ants
      ∧ ∃ ch sn, choices !! i = Some ch ∧ senses !! i = Some sn
          ∧ Qltb exploration_coefs ch && Qltb 0%Q (max_pheromones sn) = true.
Proof.
  unfold following_ants, follow_mask. intros He Hnd.
  apply bind_Ok in He as (mask & Hmask & He).
  destruct (select_lanes _ _ _ _ Hmask He) as [-> Hin].
  split; [by apply NoDup_mask_select|].
  intros i. rewrite Hin. split.
  - intros [Hi Hf]. split; [done|].
    apply bind_Ok in Hf as (ch & Hch%getitem_Ok & Hf).
    apply bind_Ok in Hf as (sn & Hsn%getitem_Ok & Hf).
    injection Hf as Hf. eauto 10.
  - intros (Hi & ch & sn & Hch & Hsn & Hb). split; [done|].
    rewrite (getitem_lookup _ _ _ Hch). simpl.
    rewrite (getitem_lookup _ _ _ Hsn). simpl. by rewrite Hb.
Qed.

Lemma grow_older_effect c unloaded_ants c' :
  NoDup unloaded_ants → grow_older c unloaded_ants = Ok c' →
  (∀ i, i ∈ unloaded_ants →
     ∃ a, age c !! i = Some a ∧ age c' !! i = Some (wrap64 (a + 1)))
  ∧ (∀ i, i ∉ unloaded_ants → age c' !! i = age c !! i)
  ∧ length (age c') = length (age c)
  ∧ seeds c' = seeds c ∧ is_loaded c' = is_loaded c ∧ max_life c' = max_life c
  ∧ historic_path c' = historic_path c ∧ directions c' = directions c.
Proof.
  intros Hnd Hg. unfold grow_older in Hg.
  destruct (decide _) as [Hpos|Hzero].
  - apply bind_Ok in Hg as (ages & Hages & Hg).
    apply bind_Ok in Hg as (age1 & Hput & Hg). injection Hg as <-.
    simpl. split_and!; try done.
    + intros i [n Hn]%list_elem_of_lookup.
      destruct (take_lookup _ _ _ _ _ Hages Hn) as (a & Ha & Hia).
      exists a. split; [done|]. eapply put_in; [done..|].
      by rewrite list_lookup_fmap, Ha.
    + intros i Hi. by eapply put_other.
    + by eapply put_length.
  - injection Hg as <-. split_and!; try done.
    intros i Hi. destruct unloaded_ants; [by apply elem_of_nil in Hi|].
    simpl in Hzero. lia.
Qed.

Lemma kill_old_effect c pos_nest c' :
  kill_old c pos_nest = Ok c' →
  seeds c' = seeds c ∧ is_loaded c' = is_loaded c ∧ max_life c' = max_life c
  ∧ length (age c') = length (age c)
  ∧ length (age c) = length (max_life c)
  ∧ length (historic_path c') = length (historic_path c)
  ∧ length (directions c') = length (directions c)
  ∧ ∀ i a ml, age c !! i = Some a → max_life c !! i = Some ml →
      if a =? ml
      then age c' !! i = Some 0
           ∧ directions c' !! i = Some (wrap8 DIR_NONE)
           ∧ ∃ row, historic_path c !! i = Some row ∧ (0 < length row)%nat
               ∧ historic_path c' !! i
                 = Some (<[0%nat := (wrap16 pos_nest.1, wrap16 pos_nest.2)]> row)
      else age c' !! i = Some a
           ∧ directions c' !! i = directions c !! i
           ∧ historic_path c' !! i = historic_path c !! i.
Proof.
  unfold kill_old. intros Hk. destruct (decide _) as [Hlen|]; [|done].
  set (dying := nonzero (zip_with Z.eqb (age c) (max_life c))) in *.
  assert (∀ i a ml, age c !! i = Some a → max_life c !! i = Some ml →
            (i ∈ dying ↔ (a =? ml) = true)) as Hdying.
  { intros i a ml Ha Hml. unfold dying.
    rewrite elem_of_nonzero, lookup_zip_with, Ha. simpl. rewrite Hml. simpl.
    split; [by intros [=] | by intros ->]. }
  assert (NoDup dying) as Hnd by apply NoDup_nonzero.
  destruct (decide (0 < length dying)%nat) as [Hpos|Hzero].
  - apply bind_Ok in Hk as (age1 & Hage1 & Hk).
    apply bind_Ok in Hk as (path1 & Hpath1 & Hk).
    apply bind_Ok in Hk as (path2 & Hpath2 & Hk).
    apply bind_Ok in Hk as (dir1 & Hdir1 & Hk). injection Hk as <-. simpl.
    split_and!; try done.
    + by eapply put_const_length.
    + rewrite (alter2_length _ _ _ Hpath2). by eapply alter2_length.
    + by eapply put_const_length.
    + intros i a ml Ha Hml. specialize (Hdying i a ml Ha Hml).
      assert (∀ f : pos → pos,
                ((λ i : nat, (i, 0, f)) <$> dying).*1.*1 = dying) as Hrows.
      { intros f. rewrite <- !list_fmap_compose. apply list_fmap_id. }
      destruct (a =? ml) eqn:Heq.
      * assert (i ∈ dying) as Hi by by apply Hdying.
        split_and!; [by eapply put_const_in..|].
        destruct (alter2_in _ _ _ i 0 (λ p : pos, (wrap16 pos_nest.1, p.2)) Hpath1)
          as (row & j & Hrow & Hj & Hrow1).
        { by rewrite Hrows. }
        { by apply (list_elem_of_fmap_2 (λ i : nat, (i, 0, _))). }
        destruct (alter2_in _ _ _ i 0 (λ p : pos, (p.1, wrap16 pos_nest.2)) Hpath2)
          as (row' & j' & Hrow' & Hj' & Hrow2).
        { by rewrite Hrows. }
        { by apply (list_elem_of_fmap_2 (λ i : nat, (i, 0, _))). }
        rewrite Hrow1 in Hrow'. injection Hrow' as <-.
        pose proof (norm_index_lt _ _ _ Hj) as Hlt.
        apply norm_index_inv in Hj as [[_ ->]|[? _]]; [|lia].
        rewrite length_alter in Hj'.
        apply norm_index_inv in Hj' as [[_ ->]|[? _]]; [|lia].
        exists row. split_and!; [done | lia |].
        rewrite Hrow2. f_equal. rewrite list_alter_alter_eq.
        destruct row as [|p row]; [simpl in Hlt; lia | done].
      * assert (i ∉ dying) as Hi by (rewrite Hdying; congruence).
        split_and!.
        -- rewrite <- Ha. by eapply put_const_other.
        -- by eapply put_const_other.
        -- rewrite (alter2_other _ _ _ _ Hpath2) by by rewrite Hrows.
           eapply alter2_other; [done|]. by rewrite Hrows.
  - injection Hk as <-. split_and!; try done.
    intros i a ml Ha Hml. specialize (Hdying i a ml Ha Hml).
    destruct (a =? ml); [|done].
    destruct dying; [|simpl in Hzero; lia].
    exfalso. eapply elem_of_nil. by apply Hdying.
Qed.

Lemma pick_food_effect c unloaded_ants pos_food c' :
  NoDup unloaded_ants → pick_food c unloaded_ants pos_food = Ok c' →
  seeds c' = seeds c ∧ max_life c' = max_life c ∧ age c' = age c
  ∧ historic_path c' = historic_path c ∧ directions c' = directions c
  ∧ length (is_loaded c') = length (is_loaded c)
  ∧ (∀ i, i ∉ unloaded_ants → is_loaded c' !! i = is_loaded c !! i)
  ∧ ∀ i, i ∈ unloaded_ants →
      ∃ a row p, age c !! i = Some a ∧ historic_path c !! i = Some row
        ∧ np_get row a = Ok p
        ∧ ((p = pos_food ∧ is_loaded c' !! i = Some LOADED)
           ∨ (p ≠ pos_food ∧ is_loaded c' !! i = is_loaded c !! i)).
Proof.
  intros Hnd Hp. unfold pick_food in Hp.
  apply bind_Ok in Hp as (mask & Hmask & Hp).
  pose proof (lanes_length _ _ _ Hmask) as Hlen.
  pose proof (take_nonzero mask unloaded_ants ltac:(lia)) as Hsel.
  destruct (select_lanes _ _ _ _ Hmask Hsel) as [_ Hin].
  set (at_food := mask_select mask unloaded_ants) in *.
  assert (∀ i, i ∈ unloaded_ants →
            ∃ a row p, age c !! i = Some a ∧ historic_path c !! i = Some row
              ∧ np_get row a = Ok p
              ∧ (i ∈ at_food ↔ p = pos_food)) as Hlane.
  { intros i Hi. pose proof Hi as [n Hn]%list_elem_of_lookup.
    destruct (lanes_lookup _ _ _ _ _ Hmask Hn) as (b & _ & Hf).
    pose proof Hf as Hf'.
    apply bind_Ok in Hf as (a & Ha%getitem_Ok & Hf).
    apply bind_Ok in Hf as (row & Hrow%getitem_Ok & Hf).
    apply bind_Ok in Hf as ([r k] & Hp' & Hf). injection Hf as <-.
    exists a, row, (r, k). split_and!; [done..|].
    rewrite Hin, Hf'. destruct pos_food as [fr fk]. simpl. split.
    - intros [_ [= [->%Z.eqb_eq ->%Z.eqb_eq]%andb_true_iff]]. done.
    - intros [= -> ->]. by rewrite !Z.eqb_refl. }
  destruct (decide (0 < length (nonzero mask))%nat) as [Hpos|Hzero].
  - apply bind_Ok in Hp as (ants & Hants & Hp).
    apply bind_Ok in Hp as (loaded1 & Hput & Hp). injection Hp as <-.
    rewrite Hsel in Hants. injection Hants as <-. simpl.
    assert (NoDup at_food) as Hnda by by apply NoDup_mask_select.
    split_and!; try done.
    + by eapply put_const_length.
    + intros i Hi. eapply put_const_other; [done|]. rewrite Hin. tauto.
    + intros i Hi. destruct (Hlane i Hi) as (a & row & p & Ha & Hrow & Hp' & Hiff).
      exists a, row, p. split_and!; [done..|].
      destruct (decide (p = pos_food)) as [Heq|Hne].
      * left. split; [done|]. eapply put_const_in; [done..|]. by apply Hiff.
      * right. split; [done|]. eapply put_const_other; [done|]. by rewrite Hiff.
  - injection Hp as <-. split_and!; try done.
    intros i Hi. destruct (Hlane i Hi) as (a & row & p & Ha & Hrow & Hp' & Hiff).
    exists a, row, p. split_and!; [done..|]. right. split; [|done].
    rewrite <- Hiff. unfold at_food.
    rewrite nonzero_nil_select; [by intros ?%elem_of_nil | lia |].
    destruct (nonzero mask); [done | simpl in Hzero; lia].
Qed.

(** A selected element sits at one lane of every array selected by the same
    mask. *)
Lemma mask_select_lane {A} mask (xs : list A) n x :
  mask !! n = Some true → xs !! n = Some x →
  ∃ n', mask_select mask xs !! n' = Some x
        ∧ ∀ B (ys : list B), mask_select mask ys !! n' = ys !! n.
Proof.
  revert xs n. induction mask as [|b mask IH]; intros [|x0 xs] [|n] Hm Hx;
    simpl in *; try done.
  - simplify_eq. exists 0%nat. split; [done|]. by intros B [|y ys].
  - destruct (IH xs n Hm Hx) as (n' & Hn' & Hys).
    destruct b.
    + exists (S n'). split; [done|]. intros B [|y ys]; [done|]. simpl. apply Hys.
    + exists n'. split; [done|]. intros B [|y ys]; simpl; [|apply Hys].
      specialize (Hys B []). by destruct mask.
Qed.

Lemma mask_select_length {A B} mask (xs : list A) (ys : list B) :
  length xs = length ys →
  length (mask_select mask xs) = length (mask_select mask ys).
Proof.
  revert xs ys. induction mask as [|b mask IH]; intros [|x xs] [|y ys] Hl;
    simpl in *; try done.
  destruct b; simpl; rewrite (IH xs ys); (done || lia).
Qed.

(** ** One iteration of the retry loop *)

Lemma retry_iter_effect c senses vm ex c' vm' :
  NoDup ex → retry_iter c senses vm ex = Ok (c', vm') →
  seeds c' = lcg <$> seeds c ∧ is_loaded c' = is_loaded c
  ∧ max_life c' = max_life c ∧ age c' = age c
  ∧ length (historic_path c') = length (historic_path c)
  ∧ length (directions c') = length (directions c)
  ∧ length vm' = length vm
  ∧ (∀ i, ¬ (i ∈ ex ∧ vm !! i = Some false) →
       historic_path c' !! i = historic_path c !! i
       ∧ directions c' !! i = directions c !! i
       ∧ vm' !! i = vm !! i)
  ∧ (∀ i, i ∈ ex → vm !! i = Some false →
       ∃ mv, try_move (set_seeds c (lcg <$> seeds c)) senses i = Ok mv
         ∧ vm' !! i = Some (mv_valid mv)
         ∧ if mv_valid mv
           then ∃ a row j, age c !! i = Some a
                  ∧ historic_path c !! i = Some row
                  ∧ norm_index (length row) (wrap64 (a + 1)) = Ok j
                  ∧ historic_path c' !! i = Some (<[j := mv_new mv]> row)
                  ∧ directions c' !! i = Some (wrap8 (mv_dir mv))
           else historic_path c' !! i = historic_path c !! i
                ∧ directions c' !! i = directions c !! i).
Proof.
  intros Hnd Hr. unfold retry_iter in Hr.
  apply bind_Ok in Hr as (vmx & Hvmx & Hr).
  apply bind_Ok in Hr as (to_move & Hto & Hr).
  apply compress_Ok in Hto as [Hlen0 ->].
  set (to_move := mask_select (negb <$> vmx) ex) in *.
  set (c1 := set_seeds c (lcg <$> seeds c)) in *.
  apply bind_Ok in Hr as (moves & Hmoves & Hr).
  apply bind_Ok in Hr as (vm1 & Hvm1 & Hr).
  apply bind_Ok in Hr as (vmnow & Hvmnow & Hr).
  apply bind_Ok in Hr as (ind_valid & Hiv & Hr).
  apply bind_Ok in Hr as (ages & Hages & Hr).
  apply bind_Ok in Hr as (new_pos & Hnew & Hr).
  apply bind_Ok in Hr as (path1 & Hpath & Hr).
  apply bind_Ok in Hr as (dir & Hdir & Hr).
  apply bind_Ok in Hr as (dirs1 & Hdirs & Hr).
  injection Hr as <- <-. simpl.
  assert (NoDup to_move) as Hndto by by apply NoDup_mask_select.
  assert (∀ i, i ∈ to_move ↔ i ∈ ex ∧ vm !! i = Some false) as Hmem.
  { intros i. unfold to_move. rewrite elem_of_mask_select. split.
    - intros (n & Hn & Hi). split; [by eapply list_elem_of_lookup_2|].
      destruct (take_lookup _ _ _ _ _ Hvmx Hi) as (v & Hv & Hvi).
      rewrite list_lookup_fmap, Hv in Hn. destruct v; [done | done].
    - intros [[n Hi]%list_elem_of_lookup Hv]. exists n. split; [|done].
      destruct (take_lookup _ _ _ _ _ Hvmx Hi) as (v & Hv' & Hvi).
      rewrite list_lookup_fmap, Hv'. by replace v with false by congruence. }
  pose proof (lanes_length _ _ _ Hmoves) as Hlenm.
  assert (vmnow = mv_valid <$> moves) as ->.
  { pose proof (put_take _ _ _ _ Hvm1 Hndto) as Ht. congruence. }
  rewrite take_nonzero in Hiv by (rewrite length_fmap; lia).
  injection Hiv as <-.
  set (ok := mv_valid <$> moves) in *.
  set (ind_valid := mask_select ok to_move) in *.
  apply compress_Ok in Hnew as [_ ->]. apply compress_Ok in Hdir as [_ ->].
  assert (NoDup ind_valid) as Hndv by by apply NoDup_mask_select.
  assert (∀ i, i ∈ ind_valid → i ∈ to_move) as Hsub.
  { intros i (n & _ & Hn)%elem_of_mask_select. by eapply list_elem_of_lookup_2. }
  pose proof (take_length _ _ _ Hages) as Hlena.
  assert (length (mask_select ok (mv_new <$> moves)) = length ind_valid) as Hlenn.
  { apply mask_select_length. rewrite length_fmap. lia. }
  split_and!; try done.
  - rewrite (alter2_length _ _ _ Hpath). done.
  - by eapply put_length.
  - by eapply put_length.
  - intros i Hi. rewrite <- Hmem in Hi.
    assert (i ∉ ind_valid) as Hiv by auto.
    split_and!.
    + by eapply alter2_zip_other.
    + by eapply put_other.
    + by eapply put_other.
  - intros i Hi Hv.
    assert (i ∈ to_move) as [n Hn]%list_elem_of_lookup by by apply Hmem.
    destruct (lanes_lookup _ _ _ _ _ Hmoves Hn) as (mv & Hmv & Htry).
    exists mv. split_and!; [done | |].
    { eapply put_in; [done..|]. unfold ok. by rewrite list_lookup_fmap, Hmv. }
    destruct (mv_valid mv) eqn:Hvalid.
    + destruct (mask_select_lane ok to_move n i) as (n' & Hn' & Hpar); [|done|].
      { unfold ok. by rewrite list_lookup_fmap, Hmv, <- Hvalid. }
      destruct (take_lookup _ _ _ _ _ Hages Hn') as (a & Ha & Hai).
      destruct (alter2_zip_in _ _ _ _ _ n' i (wrap64 (a + 1)) (λ _, mv_new mv) Hpath)
        as (row & j & Hrow & Hj & Hrow'); try done.
      * rewrite length_fmap. lia.
      * rewrite length_fmap. lia.
      * by rewrite list_lookup_fmap, Ha.
      * rewrite list_lookup_fmap, Hpar, list_lookup_fmap, Hmv. done.
      * exists a, row, j. split_and!; [done..| |].
        -- rewrite Hrow'. by rewrite <- list_insert_alter.
        -- eapply put_in; [done..|].
           rewrite list_lookup_fmap, Hpar, list_lookup_fmap, Hmv. done.
    + assert (i ∉ ind_valid) as Hiv.
      { intros (n2 & Hok & Hn2)%elem_of_mask_select.
        assert (n2 = n) as -> by by apply (NoDup_lookup to_move n2 n i).
        unfold ok in Hok. rewrite list_lookup_fmap, Hmv in Hok.
        simpl in Hok. congruence. }
      split; [by eapply alter2_zip_other | by eapply put_other].
Qed.

Lemma try_move_inv c senses i mv :
  try_move c senses i = Ok mv ↔
  ∃ s a row old sn prev,
    seeds c !! i = Some s ∧ age c !! i = Some a
    ∧ historic_path c !! i = Some row ∧ np_get row a = Ok old
    ∧ senses !! i = Some sn ∧ directions c !! i = Some prev
    ∧ mv = move_of s old sn prev.
Proof.
  unfold try_move. split.
  - intros Ht.
    apply bind_Ok in Ht as (s & Hs%getitem_Ok & Ht).
    apply bind_Ok in Ht as (a & Ha%getitem_Ok & Ht).
    apply bind_Ok in Ht as (row & Hrow%getitem_Ok & Ht).
    apply bind_Ok in Ht as (old & Hold & Ht).
    apply bind_Ok in Ht as (sn & Hsn%getitem_Ok & Ht).
    apply bind_Ok in Ht as (prev & Hprev%getitem_Ok & Ht).
    injection Ht as <-. eauto 15.
  - intros (s & a & row & old & sn & prev & Hs & Ha & Hrow & Hold & Hsn & Hprev & ->).
    rewrite (getitem_lookup _ _ _ Hs). simpl.
    rewrite (getitem_lookup _ _ _ Ha). simpl.
    rewrite (getitem_lookup _ _ _ Hrow). simpl. rewrite Hold. simpl.
    rewrite (getitem_lookup _ _ _ Hsn). simpl.
    by rewrite (getitem_lookup _ _ _ Hprev).
Qed.

Lemma wrap16_wrap16 z : wrap16 (wrap16 z) = wrap16 z.
Proof. apply wrap16_id, wrap16_range. Qed.

(** The draw of one lane: what a valid move is. *)
Lemma move_of_spec s old sn prev :
  dirs_wf → pos_int16 old →
  let mv := move_of s old sn prev in
  let d := mv_dir mv in
  d = s `mod` 4 ∧ 0 ≤ d ≤ 3
  ∧ mv_new mv = (if exit_open sn d
                 then (wrap16 (neighbour old d).1, wrap16 (neighbour old d).2)
                 else old)
  ∧ (exit_open sn d = true ↔ mv_new mv ≠ old)
  ∧ mv_valid mv
    = exit_open sn d && (negb (d =? wrap8 (3 - prev)) || (nb_exits sn =? 1)).
Proof.
  intros (HN & HE & HS & HW & HNE & HNW) [Hr Hc]. simpl.
  pose proof (Z.mod_pos_bound s 4 ltac:(lia)) as Hd.
  set (d := s `mod` 4) in *. destruct old as [r k]. simpl in *.
  pose proof (wrap16_id r Hr) as Hwr. pose proof (wrap16_id k Hc) as Hwk.
  pose proof (wrap16_step r 1 ltac:(lia)) as Hs1.
  pose proof (wrap16_step r (-1) ltac:(lia)) as Hs2.
  pose proof (wrap16_step k 1 ltac:(lia)) as Hs3.
  pose proof (wrap16_step k (-1) ltac:(lia)) as Hs4.
  replace (r + -1) with (r - 1) in Hs2 by lia.
  replace (k + -1) with (k - 1) in Hs4 by lia.
  pose proof (proj2 (Z.eqb_neq _ _) Hs1) as Hb1.
  pose proof (proj2 (Z.eqb_neq _ _) Hs2) as Hb2.
  pose proof (proj2 (Z.eqb_neq _ _) Hs3) as Hb3.
  pose proof (proj2 (Z.eqb_neq _ _) Hs4) as Hb4.
  unfold exit_open, neighbour.
  split; [done|]. split; [lia|].
  destruct (Z.eqb_spec d DIR_NORTH), (Z.eqb_spec d DIR_EAST),
    (Z.eqb_spec d DIR_SOUTH), (Z.eqb_spec d DIR_WEST); try lia;
    destruct (has_north_exit sn), (has_east_exit sn),
      (has_south_exit sn), (has_west_exit sn); simpl;
    rewrite ?Z.sub_0_r, ?Z.add_0_r, ?Hwr, ?Hwk, ?wrap16_wrap16,
      ?Z.sub_0_r, ?Z.add_0_r, ?Hwr, ?Hwk, ?Hb1, ?Hb2, ?Hb3, ?Hb4, ?Z.eqb_refl;
    simpl;
    (split; [done|]);
    (split; [|done]);
    (split; [intros Ht Heq; first [discriminate Ht | injection Heq; intros; congruence]
           | intros Hne; first [done | by destruct Hne]]).
Qed.

(** ** The retry loop *)

Lemma retry_done vm ex vmx i :
  take vm ex = Ok vmx → existsb negb vmx = false → i ∈ ex → vm !! i = Some true.
Proof.
  intros Ht Hex [n Hn]%list_elem_of_lookup.
  destruct (take_lookup _ _ _ _ _ Ht Hn) as ([] & Hv & Hvi); [done|].
  assert (existsb negb vmx = true); [|congruence].
  apply existsb_exists. exists false. split; [|done].
  apply list_elem_of_In. by eapply list_elem_of_lookup_2.
Qed.

Lemma retry_loop_effect fuel c senses vm ex c' vm' :
  NoDup ex → retry_loop fuel c senses vm ex = Ok (c', vm') →
  is_loaded c' = is_loaded c ∧ max_life c' = max_life c ∧ age c' = age c
  ∧ length (seeds c') = length (seeds c)
  ∧ length (historic_path c') = length (historic_path c)
  ∧ length (directions c') = length (directions c)
  ∧ (Forall seed_ok (seeds c) → Forall seed_ok (seeds c'))
  ∧ (∀ i, ¬ (i ∈ ex ∧ vm !! i = Some false) →
       historic_path c' !! i = historic_path c !! i
       ∧ directions c' !! i = directions c !! i)
  ∧ (∀ i, i ∈ ex → vm !! i = Some false →
       ∃ s0 n a row old sn prev j,
         seeds c !! i = Some s0 ∧ age c !! i = Some a
         ∧ historic_path c !! i = Some row ∧ np_get row a = Ok old
         ∧ senses !! i = Some sn ∧ directions c !! i = Some prev
         ∧ let mv := move_of (Nat.iter (S n) lcg s0) old sn prev in
           mv_valid mv = true
           ∧ norm_index (length row) (wrap64 (a + 1)) = Ok j
           ∧ historic_path c' !! i = Some (<[j := mv_new mv]> row)
           ∧ directions c' !! i = Some (wrap8 (mv_dir mv))).
Proof.
  intros Hnd. revert c vm.
  induction fuel as [|fuel IH]; intros c vm Hl; simpl in Hl;
    apply bind_Ok in Hl as (vmx & Hvmx & Hl);
    destruct (existsb negb vmx) eqn:Hex; try done.
  1, 3: injection Hl as <- <-; split_and!; try done;
    intros i Hi Hv; rewrite (retry_done _ _ _ _ Hvmx Hex Hi) in Hv; done.
  apply bind_Ok in Hl as ([c1 vm1] & Hiter & Hl). simpl in Hl.
  destruct (retry_iter_effect _ _ _ _ _ _ Hnd Hiter)
    as (Hseeds & Hld & Hml & Hage & Hlh & Hld' & Hlv & Hframe & Hmove).
  destruct (IH _ _ Hl)
    as (Hld2 & Hml2 & Hage2 & Hls2 & Hlh2 & Hldir2 & Hok2 & Hframe2 & Hmove2).
  split_and!; try congruence.
  - rewrite Hls2, Hseeds. by rewrite length_fmap.
  - intros Hok. apply Hok2. rewrite Hseeds. apply Forall_fmap.
    eapply list.Forall_impl; [done|]. intros s. apply lcg_seed_ok.
  - intros i Hi. destruct (Hframe i Hi) as (Hh & Hd & Hv).
    destruct (Hframe2 i) as [Hh2 Hd2]; [rewrite Hv; done|]. split; congruence.
  - intros i Hi Hv.
    destruct (Hmove i Hi Hv) as (mv & Htry & Hv1 & Hcase).
    apply try_move_inv in Htry
        as (s & a & row & old & sn & prev & Hs & Ha & Hrow & Hold & Hsn & Hprev & ->).
    simpl in Hs. rewrite list_lookup_fmap in Hs.
    destruct (seeds c !! i) as [s0|] eqn:Hs0; [|done]. injection Hs as <-.
    simpl in Ha, Hrow, Hprev.
    destruct (mv_valid (move_of (lcg s0) old sn prev)) eqn:Hvalid.
    + destruct Hcase as (a' & row' & j & Ha' & Hrow' & Hj & Hnew & Hdir).
      simplify_eq.
      destruct (Hframe2 i) as [Hh2 Hd2]; [rewrite Hv1; by intros [_ [=]]|].
      exists s0, 0%nat, a, row, old, sn, prev, j.
      change (Nat.iter 1 lcg s0) with (lcg s0). cbv zeta.
      split_and!; try done; congruence.
    + destruct Hcase as [Hh Hd].
      destruct (Hmove2 i Hi Hv1)
        as (s1 & n & a' & row' & old' & sn' & prev' & j
            & Hs1 & Ha' & Hrow' & Hold' & Hsn' & Hprev' & Hv' & Hj & Hnew & Hdir).
      rewrite Hseeds, list_lookup_fmap, Hs0 in Hs1. injection Hs1 as <-.
      rewrite Hage in Ha'. rewrite Hh in Hrow'. rewrite Hd in Hprev'.
      simplify_eq. assert (old' = old) as -> by congruence.
      exists s0, (S n), a, row, old, sn, prev, j.
      rewrite (Nat.iter_succ_r (S n)). cbv zeta.
      split_and!; done.
Qed.

Lemma explore_moves_effect fuel c choices senses unloaded_ants c2 :
  NoDup unloaded_ants →
  explore_moves fuel c choices senses unloaded_ants = Ok c2 →
  ∃ ex, exploring_ants choices senses unloaded_ants = Ok ex
    ∧ is_loaded c2 = is_loaded c ∧ max_life c2 = max_life c ∧ age c2 = age c
    ∧ length (seeds c2) = length (seeds c)
    ∧ length (historic_path c2) = length (historic_path c)
    ∧ length (directions c2) = length (directions c)
    ∧ (Forall seed_ok (seeds c) → Forall seed_ok (seeds c2))
    ∧ (∀ i, i ∉ ex →
         historic_path c2 !! i = historic_path c !! i
         ∧ directions c2 !! i = directions c !! i)
    ∧ (∀ i, i ∈ ex →
         ∃ s0 n a row old sn prev j,
           seeds c !! i = Some s0 ∧ age c !! i = Some a
           ∧ historic_path c !! i = Some row ∧ np_get row a = Ok old
           ∧ senses !! i = Some sn ∧ directions c !! i = Some prev
           ∧ let mv := move_of (Nat.iter (S n) lcg s0) old sn prev in
             mv_valid mv = true
             ∧ norm_index (length row) (wrap64 (a + 1)) = Ok j
             ∧ historic_path c2 !! i = Some (<[j := mv_new mv]> row)
             ∧ directions c2 !! i = Some (wrap8 (mv_dir mv))).
Proof.
  intros Hnd He. unfold explore_moves in He.
  apply bind_Ok in He as (ex & Hex & He). exists ex. split; [done|].
  destruct (exploring_ants_spec _ _ _ _ Hex Hnd) as (Hndex & Hlook & Hin).
  destruct (decide _) as [Hpos|Hzero].
  - apply bind_Ok in He as ([c' vm'] & Hloop & He). injection He as <-. simpl.
    destruct (retry_loop_effect _ _ _ _ _ _ _ Hndex Hloop)
      as (? & ? & ? & ? & ? & ? & ? & Hframe & Hmove).
    assert (∀ i, i ∈ ex → replicate (length choices) false !! i = Some false) as Hvm.
    { intros i Hi. apply lookup_replicate_2.
      apply Hin in Hi as (_ & ch & _ & Hch & _). by eapply lookup_lt_Some. }
    split_and!; try done.
    + intros i Hi. apply Hframe. tauto.
    + intros i Hi. apply Hmove; auto.
  - injection He as <-. split_and!; try done.
    intros i Hi. destruct ex; [by apply elem_of_nil in Hi | simpl in Hzero; lia].
Qed.

Lemma alter_insert_eq {A} (f : A → A) (l : list A) j v :
  alter f j (<[j := v]> l) = <[j := f v]> l.
Proof.
  apply list_eq. intros k. destruct (decide (k = j)) as [->|Hne].
  - destruct (decide (j < length l)%nat).
    + rewrite list_lookup_alter_eq, !list_lookup_insert_eq by done. done.
    + rewrite list_lookup_alter_eq, !list_insert_ge by lia. 
      by rewrite lookup_ge_None_2 by lia.
  - rewrite list_lookup_alter_ne, !list_lookup_insert_ne by done. done.
Qed.

(** ** The ants that follow *)

Lemma follow_moves_effect c choices senses unloaded_ants c3 :
  NoDup unloaded_ants →
  follow_moves c choices senses unloaded_ants = Ok c3 →
  ∃ fo, following_ants choices senses unloaded_ants = Ok fo
    ∧ seeds c3 = seeds c ∧ is_loaded c3 = is_loaded c
    ∧ max_life c3 = max_life c ∧ age c3 = age c
    ∧ directions c3 = directions c
    ∧ length (historic_path c3) = length (historic_path c)
    ∧ (∀ i, i ∉ fo → historic_path c3 !! i = historic_path c !! i)
    ∧ (∀ i, i ∈ fo →
         ∃ a row cur sn j,
           age c !! i = Some a ∧ historic_path c !! i = Some row
           ∧ np_get row a = Ok cur ∧ senses !! i = Some sn
           ∧ norm_index (length row) (wrap64 (a + 1)) = Ok j
           ∧ historic_path c3 !! i = Some (<[j := follow_target cur sn]> row)).
Proof.
  intros Hnd Hf. unfold follow_moves in Hf.
  apply bind_Ok in Hf as (fo & Hfo & Hf). exists fo. split; [done|].
  destruct (following_ants_spec _ _ _ _ Hfo Hnd) as (Hndfo & Hin).
  destruct (decide _) as [Hpos|Hzero].
  - apply bind_Ok in Hf as (ages & Hages & Hf).
    apply bind_Ok in Hf as (cur & Hcur & Hf).
    apply bind_Ok in Hf as (path1 & Hp1 & Hf).
    apply bind_Ok in Hf as (sns & Hsns & Hf).
    apply bind_Ok in Hf as (path2 & Hp2 & Hf).
    apply bind_Ok in Hf as (path3 & Hp3 & Hf).
    apply bind_Ok in Hf as (path4 & Hp4 & Hf).
    apply bind_Ok in Hf as (path5 & Hp5 & Hf).
    injection Hf as <-. simpl.
    pose proof (take_length _ _ _ Hages) as Hla.
    pose proof (lanes_length _ _ _ Hcur) as Hlc.
    pose proof (take_length _ _ _ Hsns) as Hls.
    split_and!; try done.
    + rewrite (alter2_length _ _ _ Hp5), (alter2_length _ _ _ Hp4),
        (alter2_length _ _ _ Hp3), (alter2_length _ _ _ Hp2).
      by eapply alter2_length.
    + intros i Hi.
      rewrite (alter2_zip_other _ _ _ _ _ _ Hp5 Hi),
        (alter2_zip_other _ _ _ _ _ _ Hp4 Hi),
        (alter2_zip_other _ _ _ _ _ _ Hp3 Hi),
        (alter2_zip_other _ _ _ _ _ _ Hp2 Hi).
      by eapply alter2_zip_other.
    + intros i [n Hn]%list_elem_of_lookup.
      destruct (take_lookup _ _ _ _ _ Hages Hn) as (a & Ha & Hia).
      destruct (lanes_lookup _ _ _ _ _ Hcur Hn) as (p & Hp & Hfp).
      destruct (take_lookup _ _ _ _ _ Hsns Hn) as (sn & Hsn & Hisn).
      apply bind_Ok in Hfp as (a' & Ha'%getitem_Ok & Hfp).
      apply bind_Ok in Hfp as (row & Hrow%getitem_Ok & Hfp).
      assert (a' = a) as -> by congruence.
      assert (((λ a : Z, wrap64 (a + 1)) <$> ages) !! n = Some (wrap64 (a + 1)))
        as Hk by by rewrite list_lookup_fmap, Ha.
      destruct (alter2_zip_in _ _ _ _ _ n i (wrap64 (a + 1)) (λ _, p) Hp1)
        as (row0 & j & Hrow0 & Hj & Hr1); try done;
        [by rewrite length_fmap | by rewrite length_fmap; lia
        | by rewrite list_lookup_fmap, Hp |].
      assert (row0 = row) as -> by congruence.
      rewrite <- list_insert_alter in Hr1.
      destruct (alter2_zip_in _ _ _ _ _ n i (wrap64 (a + 1)) _ Hp2 Hndfo
                  ltac:(by rewrite length_fmap)
                  ltac:(by rewrite !length_fmap; lia) Hn Hk
                  ltac:(by rewrite !list_lookup_fmap, Hsn))
        as (r1 & j1 & Hr1' & Hj1 & Hr2).
      rewrite Hr1 in Hr1'. injection Hr1' as <-.
      rewrite length_insert in Hj1. assert (j1 = j) as -> by congruence.
      rewrite alter_insert_eq in Hr2.
      destruct (alter2_zip_in _ _ _ _ _ n i (wrap64 (a + 1)) _ Hp3 Hndfo
                  ltac:(by rewrite length_fmap)
                  ltac:(by rewrite !length_fmap; lia) Hn Hk
                  ltac:(by rewrite !list_lookup_fmap, Hsn))
        as (r2 & j2 & Hr2' & Hj2 & Hr3).
      rewrite Hr2 in Hr2'. injection Hr2' as <-.
      rewrite length_insert in Hj2. assert (j2 = j) as -> by congruence.
      rewrite alter_insert_eq in Hr3.
      destruct (alter2_zip_in _ _ _ _ _ n i (wrap64 (a + 1)) _ Hp4 Hndfo
                  ltac:(by rewrite length_fmap)
                  ltac:(by rewrite !length_fmap; lia) Hn Hk
                  ltac:(by rewrite !list_lookup_fmap, Hsn))
        as (r3 & j3 & Hr3' & Hj3 & Hr4).
      rewrite Hr3 in Hr3'. injection Hr3' as <-.
      rewrite length_insert in Hj3. assert (j3 = j) as -> by congruence.
      rewrite alter_insert_eq in Hr4.
      destruct (alter2_zip_in _ _ _ _ _ n i (wrap64 (a + 1)) _ Hp5 Hndfo
                  ltac:(by rewrite length_fmap)
                  ltac:(by rewrite !length_fmap; lia) Hn Hk
                  ltac:(by rewrite !list_lookup_fmap, Hsn))
        as (r4 & j4 & Hr4' & Hj4 & Hr5).
      rewrite Hr4 in Hr4'. injection Hr4' as <-.
      rewrite length_insert in Hj4. assert (j4 = j) as -> by congruence.
      rewrite alter_insert_eq in Hr5.
      exists a, row, p, sn, j. split_and!; try done.
  - injection Hf as <-. split_and!; try done.
    intros i Hi. destruct fo; [by apply elem_of_nil in Hi | simpl in Hzero; lia].
Qed.

(** ** Exploring or following *)

Lemma Qeq_bool_le m : Qeq_bool m 0%Q = true → Qle_bool m 0%Q = true.
Proof.
  intros Hm%Qeq_bool_iff. apply Qle_bool_iff. rewrite Hm. apply Qle_refl.
Qed.

Lemma explore_follow_excl ch m :
  Qle_bool ch exploration_coefs || Qeq_bool m 0%Q = true →
  Qltb exploration_coefs ch && Qltb 0%Q m = true → False.
Proof.
  unfold Qltb. destruct (Qle_bool ch exploration_coefs); simpl; [done|].
  intros Hm%Qeq_bool_le. by rewrite Hm.
Qed.


(** ** The moves of a tick, ant by ant *)

Lemma move_ants_effect fuel c unloaded_ants the_maze pheromon c3 :
  NoDup unloaded_ants →
  move_ants fuel c unloaded_ants the_maze pheromon = Ok c3 →
  ∃ c1 senses ex fo,
    advance_seeds c unloaded_ants = Ok c1
    ∧ sense_all c1 the_maze pheromon = Ok senses
    ∧ exploring_ants (choices_of c1) senses unloaded_ants = Ok ex
    ∧ following_ants (choices_of c1) senses unloaded_ants = Ok fo
    ∧ is_loaded c3 = is_loaded c ∧ max_life c3 = max_life c ∧ age c3 = age c
    ∧ length (seeds c3) = length (seeds c)
    ∧ length (historic_path c3) = length (historic_path c)
    ∧ length (directions c3) = length (directions c)
    ∧ (Forall seed_ok (seeds c) → Forall seed_ok (seeds c3))
    ∧ (∀ i, i ∈ ex → i ∉ fo)
    ∧ (∀ i, i ∉ ex → directions c3 !! i = directions c !! i)
    ∧ (∀ i, i ∉ ex → i ∉ fo → historic_path c3 !! i = historic_path c !! i)
    ∧ (∀ i, i ∈ ex →
         ∃ s1 n a row old sn prev j,
           seeds c1 !! i = Some s1 ∧ age c !! i = Some a
           ∧ historic_path c !! i = Some row ∧ np_get row a = Ok old
           ∧ senses !! i = Some sn ∧ directions c !! i = Some prev
           ∧ let mv := move_of (Nat.iter (S n) lcg s1) old sn prev in
             mv_valid mv = true
             ∧ norm_index (length row) (wrap64 (a + 1)) = Ok j
             ∧ historic_path c3 !! i = Some (<[j := mv_new mv]> row)
             ∧ directions c3 !! i = Some (wrap8 (mv_dir mv)))
    ∧ (∀ i, i ∈ fo →
         ∃ a row cur sn j,
           age c !! i = Some a ∧ historic_path c !! i = Some row
           ∧ np_get row a = Ok cur ∧ senses !! i = Some sn
           ∧ norm_index (length row) (wrap64 (a + 1)) = Ok j
           ∧ historic_path c3 !! i = Some (<[j := follow_target cur sn]> row)).
Proof.
  intros Hnd Hm. unfold move_ants in Hm.
  apply bind_Ok in Hm as (c1 & Hc1 & Hm).
  apply bind_Ok in Hm as (senses & Hsenses & Hm).
  apply bind_Ok in Hm as (c2 & Hc2 & Hm).
  destruct (advance_seeds_effect _ _ _ Hnd Hc1)
    as (_ & _ & Hls1 & Hld1 & Hml1 & Hage1 & Hh1 & Hd1).
  destruct (explore_moves_effect _ _ _ _ _ _ Hnd Hc2)
    as (ex & Hex & Hld2 & Hml2 & Hage2 & Hls2 & Hlh2 & Hldir2 & Hok2 & Hfr2 & Hmv2).
  destruct (follow_moves_effect _ _ _ _ _ Hnd Hm)
    as (fo & Hfo & Hs3 & Hld3 & Hml3 & Hage3 & Hd3 & Hlh3 & Hfr3 & Hmv3).
  destruct (exploring_ants_spec _ _ _ _ Hex Hnd) as (_ & _ & Hinex).
  destruct (following_ants_spec _ _ _ _ Hfo Hnd) as (_ & Hinfo).
  assert (∀ i, i ∈ ex → i ∉ fo) as Hexcl.
  { intros i (_ & ch & sn & Hch & Hsn & Hb)%Hinex
             (_ & ch' & sn' & Hch' & Hsn' & Hb')%Hinfo.
    simplify_eq. by eapply explore_follow_excl. }
  exists c1, senses, ex, fo. split_and!; try done; try congruence.
  - intros Hok. rewrite Hs3. apply Hok2. by eapply advance_seeds_ok.
  - intros i Hi. rewrite Hd3. destruct (Hfr2 i Hi) as [_ ->]. by rewrite Hd1.
  - intros i Hi Hi'. rewrite (Hfr3 i Hi'). destruct (Hfr2 i Hi) as [-> _].
    by rewrite Hh1.
  - intros i Hi.
    destruct (Hmv2 i Hi) as (s1 & n & a & row & old & sn & prev & j
      & Hs & Ha & Hrow & Hold & Hsn & Hprev & Hv & Hj & Hnew & Hdir).
    exists s1, n, a, row, old, sn, prev, j.
    rewrite Hage1 in Ha. rewrite Hh1 in Hrow. rewrite Hd1 in Hprev.
    split_and!; try done. cbv zeta. split_and!; try done.
    + rewrite (Hfr3 i) by auto. done.
    + by rewrite Hd3.
  - intros i Hi.
    destruct (Hmv3 i Hi) as (a & row & cur & sn & j
      & Ha & Hrow & Hcur & Hsn & Hj & Hnew).
    assert (i ∉ ex) as Hni by (intros Hx; by eapply Hexcl).
    destruct (Hfr2 i Hni) as [Hh2 _].
    rewrite Hage2, Hage1 in Ha. rewrite Hh2, Hh1 in Hrow.
    exists a, row, cur, sn, j. split_and!; done.
Qed.

(** * The passes of a tick *)

(** C6.  The return-to-nest pass of a tick, on the loaded ants
    [loaded_of c]: the age of every loaded ant is decremented by exactly 1;
    every loaded ant whose recorded position at the new age is the nest (both
    coordinates) becomes unloaded with age 0, and the returned counter is the
    input counter plus the number of these ants; the age and load of every
    unloaded ant, and the seeds, lives, positions and directions of all ants,
    are unchanged. *)
Theorem return_to_nest_pass c pos_nest food_counter c' fc' :
  (∀ i a, age c !! i = Some a → age_in_range a) →
  return_to_nest c (loaded_of c) pos_nest food_counter = Ok (c', fc') →
  ∃ arrived,
    NoDup arrived
    ∧ (∀ i, i ∈ arrived ↔
         is_loaded c !! i = Some LOADED
         ∧ ∃ a row, age c !! i = Some a ∧ historic_path c !! i = Some row
             ∧ np_get row (a - 1) = Ok pos_nest)
    ∧ fc' = food_counter + Z.of_nat (length arrived)
    ∧ (∀ i, i ∈ arrived →
         age c' !! i = Some 0 ∧ is_loaded c' !! i = Some UNLOADED)
    ∧ (∀ i a, is_loaded c !! i = Some LOADED → i ∉ arrived →
         age c !! i = Some a →
         age c' !! i = Some (a - 1) ∧ is_loaded c' !! i = Some LOADED)
    ∧ (∀ i, is_loaded c !! i = Some UNLOADED →
         age c' !! i = age c !! i ∧ is_loaded c' !! i = Some UNLOADED)
    ∧ seeds c' = seeds c ∧ max_life c' = max_life c
    ∧ historic_path c' = historic_path c ∧ directions c' = directions c.
Proof.
  intros Hrange Hr.
  destruct (return_to_nest_effect _ _ _ _ _ _ (NoDup_loaded_of c) Hr)
    as (arrived & Hnd & Harr & Hfc & Hin & Hout & Hkeep & _ & _ & Hrest).
  assert (∀ i a, age c !! i = Some a → wrap64 (a - 1) = a - 1) as Hwrap.
  { intros i a Ha. apply wrap64_id. specialize (Hrange i a Ha).
    unfold age_in_range in Hrange. lia. }
  exists arrived. split; [done|].
  split; [|split; [done|]; split; [done|]; split; [|split; [|done]]].
  - intros i. rewrite Harr, loaded_of_spec. split.
    + intros (Hi & a & row & Ha & Hrow & Hp). split; [done|].
      exists a, row. rewrite <- (Hwrap i a Ha). done.
    + intros (Hi & a & row & Ha & Hrow & Hp). split; [done|].
      exists a, row. rewrite (Hwrap i a Ha). done.
  - intros i a Hi Hni Ha. apply loaded_of_spec in Hi as Hi'.
    destruct (Hout i Hi' Hni) as (a' & Ha' & Hage & Hld).
    assert (a' = a) as -> by congruence.
    rewrite Hage, (Hwrap i a Ha), Hld. done.
  - intros i Hi. destruct (Hkeep i) as [Ha Hl].
    + rewrite loaded_of_spec, Hi. done.
    + split; congruence.
Qed.

(** C2 (amended).  One iteration of the retry loop advances the seed of
    every ant of the colony by one step of the recurrence, and changes
    nothing else for the ants outside the subset still lacking a valid move:
    their recorded positions and their direction are unchanged. *)
Theorem retry_iteration_frame c senses valid_moves ind_exploring_ants c' vm' :
  NoDup ind_exploring_ants →
  retry_iter c senses valid_moves ind_exploring_ants = Ok (c', vm') →
  (∀ i s, seeds c !! i = Some s → seeds c' !! i = Some (lcg s))
  ∧ ∀ i, ¬ (i ∈ ind_exploring_ants ∧ valid_moves !! i = Some false) →
      historic_path c' !! i = historic_path c !! i
      ∧ directions c' !! i = directions c !! i.
Proof.
  intros Hnd Hr.
  destruct (retry_iter_effect _ _ _ _ _ _ Hnd Hr)
    as (Hseeds & _ & _ & _ & _ & _ & _ & Hframe & _).
  split.
  - intros i s Hs. by rewrite Hseeds, list_lookup_fmap, Hs.
  - intros i Hi. destruct (Hframe i Hi) as (? & ? & _). done.
Qed.

(** C1 (amended).  Step (a) of the explore pass advances by one step of
    the recurrence the seed of every ant that was unloaded when the tick
    began ([c0] is the colony at that moment, [c] the colony when the pass
    starts), and leaves the seed of every other ant as it is. *)
Theorem advance_seeds_unloaded_only c0 c c1 :
  advance_seeds c (unloaded_of c0) = Ok c1 →
  ∀ i s, seeds c !! i = Some s →
    (is_loaded c0 !! i = Some UNLOADED → seeds c1 !! i = Some (lcg s))
    ∧ (is_loaded c0 !! i ≠ Some UNLOADED → seeds c1 !! i = Some s).
Proof.
  intros Ha i s Hs.
  destruct (advance_seeds_effect _ _ _ (NoDup_unloaded_of c0) Ha)
    as (Hin & Hout & _).
  split.
  - intros Hi%unloaded_of_spec. destruct (Hin i Hi) as (s' & Hs' & ->). congruence.
  - intros Hi. rewrite Hout, Hs; [done|]. by rewrite unloaded_of_spec.
Qed.

Lemma np_get_insert {A} (row : list A) k j v :
  norm_index (length row) k = Ok j → np_get (<[j := v]> row) k = Ok v.
Proof.
  intros Hj. unfold np_get. rewrite length_insert, Hj. simpl.
  apply getitem_lookup, list_lookup_insert_eq. by eapply norm_index_lt.
Qed.

Lemma np_get_elem {A} (a : list A) k x : np_get a k = Ok x → x ∈ a.
Proof. intros (j & _ & Hx)%np_get_inv. by eapply list_elem_of_lookup_2. Qed.


Lemma wrap64_succ a : age_in_range a → wrap64 (a + 1) = a + 1.
Proof. unfold age_in_range. intros Ha. apply wrap64_id. lia. Qed.


(** What the readings of a cell are. *)
Lemma sense_cell_inv the_maze pheromon p sn :
  sense_cell the_maze pheromon p = Ok sn →
  ∃ pn pe ps pw,
    np_get2 pheromon p.1 (wrap16 (p.2 + 1)) = Ok pn
    ∧ np_get2 pheromon (wrap16 (p.1 + 1)) (wrap16 (p.2 + 2)) = Ok pe
    ∧ np_get2 pheromon (wrap16 (p.1 + 2)) (wrap16 (p.2 + 1)) = Ok ps
    ∧ np_get2 pheromon (wrap16 (p.1 + 1)) p.2 = Ok pw
    ∧ north_pheromone sn = gate pn (has_north_exit sn)
    ∧ east_pheromone sn = gate pe (has_east_exit sn)
    ∧ south_pheromone sn = gate ps (has_south_exit sn)
    ∧ west_pheromone sn = gate pw (has_west_exit sn).
Proof.
  unfold sense_cell. intros Hs.
  apply bind_Ok in Hs as (cell & Hcell & Hs).
  apply bind_Ok in Hs as (pn & Hpn & Hs).
  apply bind_Ok in Hs as (pe & Hpe & Hs).
  apply bind_Ok in Hs as (ps & Hps & Hs).
  apply bind_Ok in Hs as (pw & Hpw & Hs).
  injection Hs as <-. simpl. exists pn, pe, ps, pw. done.
Qed.





(** A reading that ties with a positive maximum is the reading of an open
    exit. *)
Lemma tie_open q b m :
  Qltb 0%Q m = true → Qeq_bool (gate q b) m = true → b = true.
Proof.
  destruct b; [done|]. simpl. unfold Qltb.
  intros Hpos Hz%Qeq_bool_iff.
  assert (Qle_bool m 0 = true) as Hle; [|by rewrite Hle in Hpos].
  apply Qle_bool_iff. rewrite <- Hz. apply Qle_refl.
Qed.


Lemma opposite_spec prev d :
  dirs_wf → opposite prev = Some d → 0 ≤ prev ≤ 3 ∧ d = 3 - prev.
Proof.
  intros (HN & HE & HS & HW & HNE & HNW). unfold opposite.
  destruct (Z.eqb_spec prev DIR_NORTH), (Z.eqb_spec prev DIR_SOUTH),
    (Z.eqb_spec prev DIR_EAST), (Z.eqb_spec prev DIR_WEST);
    intros [=]; lia.
Qed.

(** X19.  The moves of the retry loop and the stored directions.  Every move
    that the retry loop commits for an exploring ant goes through an open
    exit of the ant's current cell: the position recorded at age+1 is the
    neighbour cell in the direction drawn and differs from the current one,
    that direction is stored for the ant, and it is not the opposite of the
    direction that was stored for the ant in [directions] (the direction of
    its last exploring move, which a step along a trail leaves as it is)
    unless the cell has exactly one open exit.  In a cell whose only exit is
    south, a draw of south against a stored direction of north is
    accepted. *)
Theorem exploring_moves_valid fuel c unloaded_ants the_maze pheromon c3 :
  dirs_wf → NoDup unloaded_ants →
  move_ants fuel c unloaded_ants the_maze pheromon = Ok c3 →
  (∃ c1 senses ex,
     advance_seeds c unloaded_ants = Ok c1
     ∧ sense_all c1 the_maze pheromon = Ok senses
     ∧ exploring_ants (choices_of c1) senses unloaded_ants = Ok ex
     ∧ ∀ i, i ∈ ex →
         ∃ a row old sn prev d row3,
           age c !! i = Some a ∧ historic_path c !! i = Some row
           ∧ np_get row a = Ok old
           ∧ sense_cell the_maze pheromon old = Ok sn
           ∧ directions c !! i = Some prev
           ∧ historic_path c3 !! i = Some row3
           ∧ (age_in_range a → pos_int16 old →
              0 ≤ d ≤ 3 ∧ directions c3 !! i = Some d
              ∧ exit_open sn d = true
              ∧ np_get row3 (a + 1)
                = Ok (wrap16 (neighbour old d).1, wrap16 (neighbour old d).2)
              ∧ (wrap16 (neighbour old d).1, wrap16 (neighbour old d).2) ≠ old
              ∧ (opposite prev = Some d → nb_exits sn = 1)))
  ∧ ∀ s old sn,
      pos_int16 old →
      has_south_exit sn = true → has_north_exit sn = false →
      has_east_exit sn = false → has_west_exit sn = false →
      s `mod` 4 = DIR_SOUTH →
      let mv := move_of s old sn DIR_NORTH in
      mv_valid mv = true ∧ mv_dir mv = DIR_SOUTH
      ∧ mv_new mv = (wrap16 (old.1 + 1), old.2).
Proof.
  intros Hwf Hnd Hm. split.
  - destruct (move_ants_effect _ _ _ _ _ _ Hnd Hm)
      as (c1 & senses & ex & fo & Hc1 & Hsenses & Hex & Hfo & _ & _ & _ & _ & _ & _
          & _ & _ & _ & _ & Hexplore & _).
    exists c1, senses, ex. split_and!; try done.
    intros i Hi.
    destruct (Hexplore i Hi) as (s1 & n & a & row & old & sn & prev & j
      & Hs & Ha & Hrow & Hold & Hsn & Hprev & Hv & Hj & Hnew & Hdir).
    destruct (advance_seeds_effect _ _ _ Hnd Hc1)
      as (_ & _ & _ & _ & _ & Hage1 & Hh1 & _).
    destruct (sense_all_effect _ _ _ _ Hsenses) as (_ & _ & Hsense).
    destruct (Hsense i sn Hsn) as (a' & row' & p & Ha' & Hrow' & Hp & Hcell).
    rewrite Hage1 in Ha'. rewrite Hh1 in Hrow'.
    assert (a' = a) as -> by congruence. assert (row' = row) as -> by congruence.
    assert (p = old) as -> by congruence.
    set (mv := move_of (Nat.iter (S n) lcg s1) old sn prev) in *.
    exists a, row, old, sn, prev, (mv_dir mv), (<[j := mv_new mv]> row).
    split_and!; try done.
    intros Hrange Hint.
    destruct (move_of_spec (Nat.iter (S n) lcg s1) old sn prev Hwf Hint)
      as (_ & Hd & Hnewpos & Hopen & Hvalid).
    fold mv in Hd, Hnewpos, Hopen, Hvalid.
    rewrite Hv in Hvalid. symmetry in Hvalid.
    apply andb_true_iff in Hvalid as [Hexit Hrev].
    rewrite Hexit in Hnewpos.
    split; [done|]. split_and!; try done.
    + rewrite Hdir. f_equal. apply wrap8_id. unfold in_int8. lia.
    + rewrite <- Hnewpos. apply np_get_insert. by rewrite <- (wrap64_succ a Hrange).
    + rewrite <- Hnewpos. by apply Hopen.
    + intros Hopp. destruct (opposite_spec _ _ Hwf Hopp) as [Hp3 Hd3].
      apply orb_true_iff in Hrev as [Hne|Hone]; [|by apply Z.eqb_eq].
      rewrite wrap8_id in Hne by (unfold in_int8; lia).
      apply negb_true_iff, Z.eqb_neq in Hne. done.
  - intros s old sn Hint Hs Hn He Hw Hdraw.
    destruct (move_of_spec s old sn DIR_NORTH Hwf Hint)
      as (Hd & _ & Hnewpos & _ & Hvalid).
    destruct Hwf as (HN & HE & HS & HW & HNE & HNW). cbv zeta.
    rewrite Hd, Hdraw in *.
    assert (exit_open sn DIR_SOUTH = true) as Hexit.
    { unfold exit_open. rewrite Hs, Z.eqb_refl. simpl. by rewrite !orb_true_r. }
    assert (nb_exits sn = 1) as Hone.
    { unfold nb_exits. by rewrite Hs, Hn, He, Hw. }
    rewrite Hexit in Hnewpos, Hvalid. rewrite Hone in Hvalid.
    rewrite Hvalid, Hnewpos. split_and!; [by rewrite orb_true_r | done |].
    unfold neighbour.
    destruct (Z.eqb_spec DIR_SOUTH DIR_NORTH); [lia|].
    rewrite Z.eqb_refl. simpl. destruct Hint as [_ Hk]. by rewrite (wrap16_id old.2).
Qed.



(** * The constructor *)

Lemma life_bounds m t :
  0 ≤ t ≤ m →
  let life := m - t `div` 4 in
  3 * m ≤ 4 * life ≤ 4 * m.
Proof.
  intros Ht. cbv zeta.
  pose proof (Z.div_pos t 4 ltac:(lia) ltac:(lia)) as Hpos.
  pose proof (Z.mul_div_le t 4 ltac:(lia)) as Hle. lia.
Qed.

Lemma init_life m s :
  0 ≤ m < 2147483648 → 0 ≤ s < modulus →
  wrap32 (wrap32 m - wrap32 (life_product m s) `div` 4)
  = m - life_product m s `div` 4.
Proof.
  unfold modulus. intros Hm Hs.
  pose proof (life_product_bounds m s Hm Hs) as Ht.
  rewrite (wrap32_id m), (wrap32_id (life_product m s)) by lia.
  pose proof (life_bounds m _ Ht) as Hb. cbv zeta in Hb.
  apply wrap32_id. lia.
Qed.

Lemma init_returns nb_ants pos_init max_life0 :
  0 ≤ max_life0 → ∃ c, Colony_init nb_ants pos_init max_life0 = Ok c.
Proof.
  intros HM. unfold Colony_init.
  destruct (Z.ltb_spec (max_life0 + 1) 0); [lia|].
  destruct (Z.eqb_spec (max_life0 + 1) 0); [lia|]. by eexists.
Qed.

(** The seeds and the lives of a new colony. *)
Lemma init_seeds_lives nb_ants pos_init max_life0 c :
  16807 * Z.of_nat nb_ants < 9223372036854775808 →
  0 ≤ max_life0 < 2147483648 →
  Colony_init nb_ants pos_init max_life0 = Ok c →
  ∀ i, (i < nb_ants)%nat →
    let seed := (16807 * (Z.of_nat i + 1)) `mod` 2147483647 in
    seeds c !! i = Some seed
    ∧ max_life c !! i = Some (max_life0 - life_product max_life0 seed `div` 4).
Proof.
  intros HN HM Hc i Hi. unfold Colony_init in Hc.
  destruct (Z.ltb_spec (max_life0 + 1) 0); [lia|].
  destruct (Z.eqb_spec (max_life0 + 1) 0); [lia|].
  injection Hc as <-. cbn [seeds max_life].
  assert (lcg (wrap64 (Z.of_nat (1 + i)))
          = (16807 * (Z.of_nat i + 1)) `mod` 2147483647) as Hseed.
  { rewrite wrap64_id by lia. rewrite lcg_small by lia.
    unfold modulus. f_equal. lia. }
  pose proof (Z.mod_pos_bound (16807 * (Z.of_nat i + 1)) 2147483647 ltac:(lia))
    as Hsb.
  assert (((lcg <$> ((λ k : nat, wrap64 (Z.of_nat k)) <$> seq 1 nb_ants)) !! i
           = Some ((16807 * (Z.of_nat i + 1)) `mod` 2147483647))) as Hs.
  { rewrite !list_lookup_fmap, lookup_seq_lt by done. simpl. by rewrite <- Hseed. }
  split; [done|].
  rewrite lookup_zip_with, lookup_replicate_2 by done. simpl. rewrite Hs. simpl.
  f_equal. apply init_life; [done | unfold modulus; lia].
Qed.

(** C10.  [Colony_init]: every ant starts at the nest (recorded at index 0,
    its current position since its age is 0), unloaded, with direction
    NONE, with the seed [(16807 * (i+1)) mod 2147483647] and with a life of
    [max_life - floor(T / 4)], where [T] is the integer part of the float64
    product [max_life * (seed / 2147483647.)].  The life lies between 75% and
    100% of [max_life], and it is
    [max_life - floor(max_life * seed / 2147483647 / 4)] when [max_life] is
    at most 2^20, where the two roundings of the product cannot reach the
    next integer.  The colony is a function of the three arguments. *)
Theorem Colony_init_creates nb_ants pos_init max_life0 :
  16807 * Z.of_nat nb_ants < 9223372036854775808 →
  pos_int16 pos_init → 0 ≤ max_life0 < 2147483648 → in_int8 DIR_NONE →
  ∃ c, Colony_init nb_ants pos_init max_life0 = Ok c
    ∧ length (seeds c) = nb_ants ∧ length (is_loaded c) = nb_ants
    ∧ length (max_life c) = nb_ants ∧ length (age c) = nb_ants
    ∧ length (historic_path c) = nb_ants ∧ length (directions c) = nb_ants
    ∧ ∀ i, (i < nb_ants)%nat →
        let seed := (16807 * (Z.of_nat i + 1)) `mod` 2147483647 in
        let life := max_life0 - life_product max_life0 seed `div` 4 in
        seeds c !! i = Some seed
        ∧ max_life c !! i = Some life
        ∧ 3 * max_life0 ≤ 4 * life ≤ 4 * max_life0
        ∧ (max_life0 ≤ 1048576 →
           life = max_life0 - (max_life0 * seed) `div` (4 * 2147483647))
        ∧ is_loaded c !! i = Some UNLOADED
        ∧ age c !! i = Some 0
        ∧ directions c !! i = Some DIR_NONE
        ∧ ∃ row, historic_path c !! i = Some row
            ∧ length row = Z.to_nat (max_life0 + 1)
            ∧ row !! 0%nat = Some pos_init
            ∧ np_get row 0 = Ok pos_init.
Proof.
  intros HN [Hr Hk] HM Hnone.
  destruct (init_returns nb_ants pos_init max_life0 ltac:(lia)) as [c Hc].
  pose proof (init_seeds_lives _ _ _ _ HN HM Hc) as Hsl.
  exists c. split; [done|].
  unfold Colony_init in Hc.
  destruct (Z.ltb_spec (max_life0 + 1) 0); [lia|].
  destruct (Z.eqb_spec (max_life0 + 1) 0); [lia|].
  injection Hc as <-. simpl in *.
  rewrite !length_zip_with, !length_fmap, !length_replicate, length_seq.
  split_and!; try done; try lia.
  intros i Hi.
  pose proof (Z.mod_pos_bound (16807 * (Z.of_nat i + 1)) 2147483647 ltac:(lia))
    as Hsb.
  destruct (Hsl i Hi) as [Hs Hl].
  pose proof (life_product_bounds max_life0 _ HM Hsb) as Ht.
  split_and!.
  - done.
  - done.
  - by apply (life_bounds max_life0).
  - by apply (life_bounds max_life0).
  - intros Hsmall. rewrite life_product_exact by lia.
    rewrite Z.div_div by lia. done.
  - by apply lookup_replicate_2.
  - by apply lookup_replicate_2.
  - rewrite lookup_replicate_2 by done. by rewrite wrap8_id.
  - eexists. split; [by apply lookup_replicate_2|].
    rewrite !wrap16_id by done. destruct pos_init as [r k]. simpl.
    split_and!; [|done|done].
    rewrite length_replicate. lia.
Qed.

(** * Invariants of a run *)

(** ** The tick, pass by pass *)

Lemma advance_inv fuel c the_maze pos_food pos_nest pheromon food_counter c' fc' ms :
  advance fuel c the_maze pos_food pos_nest pheromon food_counter = Ok (c', fc', ms) →
  ∃ cr,
    ((0 < length (loaded_of c))%nat
       ∧ return_to_nest c (loaded_of c) pos_nest food_counter = Ok (cr, fc')
     ∨ loaded_of c = [] ∧ cr = c ∧ fc' = food_counter)
    ∧ ((0 < length (unloaded_of c))%nat
         ∧ explore fuel cr (unloaded_of c) the_maze pos_food pos_nest pheromon = Ok c'
       ∨ unloaded_of c = [] ∧ c' = cr).
Proof.
  unfold advance. intros Ha.
  apply bind_Ok in Ha as ([cr fr] & Hret & Ha).
  apply bind_Ok in Ha as (c2 & Hexp & Ha).
  apply bind_Ok in Ha as (ms' & _ & Ha). injection Ha as <- <- <-. simpl in *.
  exists cr. split.
  - destruct (decide (0 < length (loaded_of c))%nat) as [Hpos|Hzero];
      [left; done|]. right.
    injection Hret as <- <-. split; [|done].
    destruct (loaded_of c); [done | simpl in Hzero; lia].
  - destruct (decide (0 < length (unloaded_of c))%nat) as [Hpos|Hzero];
      [left; done|]. right.
    injection Hexp as <-. split; [|done].
    destruct (unloaded_of c); [done | simpl in Hzero; lia].
Qed.

Lemma explore_inv fuel c unloaded_ants the_maze pos_food pos_nest pheromon c' :
  explore fuel c unloaded_ants the_maze pos_food pos_nest pheromon = Ok c' →
  ∃ c3 c4 c5,
    move_ants fuel c unloaded_ants the_maze pheromon = Ok c3
    ∧ grow_older c3 unloaded_ants = Ok c4
    ∧ kill_old c4 pos_nest = Ok c5
    ∧ pick_food c5 unloaded_ants pos_food = Ok c'.
Proof.
  unfold explore. intros He.
  apply bind_Ok in He as (c3 & H3 & He).
  apply bind_Ok in He as (c4 & H4 & He).
  apply bind_Ok in He as (c5 & H5 & He). eauto 10.
Qed.

(** ** The seeds stay nonzero residues *)

Lemma explore_seeds_ok fuel c unloaded_ants the_maze pos_food pos_nest pheromon c' :
  NoDup unloaded_ants →
  explore fuel c unloaded_ants the_maze pos_food pos_nest pheromon = Ok c' →
  Forall seed_ok (seeds c) → Forall seed_ok (seeds c').
Proof.
  intros Hnd (c3 & c4 & c5 & H3 & H4 & H5 & H6)%explore_inv Hok.
  destruct (move_ants_effect _ _ _ _ _ _ Hnd H3)
    as (_ & _ & _ & _ & _ & _ & _ & _ & _ & _ & _ & _ & _ & _ & Hok3 & _).
  destruct (grow_older_effect _ _ _ Hnd H4) as (_ & _ & _ & Hs4 & _).
  destruct (kill_old_effect _ _ _ H5) as (Hs5 & _).
  destruct (pick_food_effect _ _ _ _ Hnd H6) as (Hs6 & _).
  rewrite Hs6, Hs5, Hs4. auto.
Qed.

Lemma advance_seeds_inv fuel c the_maze pos_food pos_nest pheromon fc c' fc' ms :
  advance fuel c the_maze pos_food pos_nest pheromon fc = Ok (c', fc', ms) →
  Forall seed_ok (seeds c) → Forall seed_ok (seeds c').
Proof.
  intros (cr & Hret & Hexp)%advance_inv Hok.
  assert (seeds cr = seeds c) as Hcr.
  { destruct Hret as [[_ Hret]|(_ & -> & _)]; [|done].
    destruct (return_to_nest_effect _ _ _ _ _ _ (NoDup_loaded_of c) Hret)
      as (arr & _ & _ & _ & _ & _ & _ & _ & _ & Hs & _). done. }
  destruct Hexp as [[_ Hexp]|(_ & ->)]; [|by rewrite Hcr].
  eapply explore_seeds_ok; [apply NoDup_unloaded_of | done |]. by rewrite Hcr.
Qed.

Lemma init_seeds_ok nb_ants pos_nest max_life0 c :
  Z.of_nat nb_ants < modulus →
  Colony_init nb_ants pos_nest max_life0 = Ok c → Forall seed_ok (seeds c).
Proof.
  unfold modulus. intros HN Hc. unfold Colony_init in Hc.
  destruct (max_life0 + 1 <? 0); [done|]. destruct (max_life0 + 1 =? 0); [done|].
  injection Hc as <-. simpl.
  apply Forall_fmap, Forall_fmap, list.Forall_forall.
  intros k [Hk1 Hk2]%elem_of_seq. simpl.
  rewrite wrap64_id by lia. apply lcg_seed_ok. unfold seed_ok, modulus. lia.
Qed.

Lemma reachable_seeds_ok food_ok nb_ants pos_nest max_life0 c :
  Z.of_nat nb_ants < modulus →
  reachable food_ok nb_ants pos_nest max_life0 c → Forall seed_ok (seeds c).
Proof.
  intros HN Hr. induction Hr as [c Hc|c ? ? ? ? ? c' ? ? _ IH _ Ha].
  - by eapply init_seeds_ok.
  - by eapply advance_seeds_inv.
Qed.

(** ** The ages stay within the lives *)

(** The moves of a tick write, for an ant, at most the cell of index age+1
    of its history. *)
Lemma move_ants_rows fuel c unloaded_ants the_maze pheromon c3 :
  NoDup unloaded_ants →
  move_ants fuel c unloaded_ants the_maze pheromon = Ok c3 →
  is_loaded c3 = is_loaded c ∧ max_life c3 = max_life c ∧ age c3 = age c
  ∧ ∀ i row, historic_path c !! i = Some row →
      ∃ row3, historic_path c3 !! i = Some row3
        ∧ (row3 = row
           ∨ ∃ a j v, age c !! i = Some a
               ∧ norm_index (length row) (wrap64 (a + 1)) = Ok j
               ∧ row3 = <[j := v]> row).
Proof.
  intros Hnd Hm.
  destruct (move_ants_effect _ _ _ _ _ _ Hnd Hm)
    as (c1 & senses & ex & fo & _ & _ & _ & _ & Hld & Hml & Hage & _ & _ & _
        & _ & _ & _ & Hframe & Hexplore & Hfollow).
  split_and!; try done. intros i row Hrow.
  destruct (decide (i ∈ ex)) as [Hex|Hex].
  - destruct (Hexplore i Hex) as (s1 & n & a & row' & old & sn & prev & j
      & _ & Ha & Hrow' & _ & _ & _ & _ & Hj & Hnew & _).
    assert (row' = row) as -> by congruence. eauto 10.
  - destruct (decide (i ∈ fo)) as [Hfo|Hfo].
    + destruct (Hfollow i Hfo) as (a & row' & cur & sn & j
        & Ha & Hrow' & _ & _ & Hj & Hnew).
      assert (row' = row) as -> by congruence. eauto 10.
    + exists row. rewrite (Hframe i Hex Hfo). auto.
Qed.

Lemma return_colony_inv nb_ants max_life0 pos_nest c food_counter cr fr :
  max_life0 < 2147483648 →
  colony_inv nb_ants max_life0 pos_nest c →
  return_to_nest c (loaded_of c) pos_nest food_counter = Ok (cr, fr) →
  colony_inv nb_ants max_life0 pos_nest cr
  ∧ ∀ i, i ∈ unloaded_of c → is_loaded cr !! i = Some UNLOADED.
Proof.
  intros HM [Hlen Hinv] Hret.
  destruct (return_to_nest_effect _ _ _ _ _ _ (NoDup_loaded_of c) Hret)
    as (arrived & _ & Harr & _ & Hin & Hout & Hkeep & Hlen' & _ & _ & Hml & Hh & _).
  split; [split; [congruence|]|].
  - intros i Hi. destruct (Hinv i Hi)
      as (a & ml & ld & row & Ha & Hl & Hld & Hrow & Hnest & Hrange & HmlM & Hwalk).
    unfold ant_inv. rewrite Hml, Hh.
    destruct (decide (i ∈ loaded_of c)) as [Hloaded|Hunl].
    + assert (1 ≤ a) as Ha1.
      { apply Hwalk. apply loaded_of_spec in Hloaded. congruence. }
      destruct (decide (i ∈ arrived)) as [Harrived|Hnot].
      * destruct (Hin i Harrived) as [Ha' Hld'].
        exists 0, ml, UNLOADED, row. split_and!; try done; lia.
      * destruct (Hout i Hloaded Hnot) as (a' & Ha' & Hage & Hld').
        assert (a' = a) as -> by congruence.
        rewrite wrap64_id in Hage by lia.
        exists (a - 1), ml, ld, row. rewrite Hld'.
        split_and!; try done; try lia.
        intros _. destruct (decide (a = 1)) as [->|]; [|lia].
        exfalso. apply Hnot, Harr. split; [done|].
        exists 1, row. split_and!; [done..|].
        by apply np_get_nonneg.
    + destruct (Hkeep i Hunl) as [Ha' Hld'].
      exists a, ml, ld, row. rewrite Ha', Hld'. done.
  - intros i Hi. destruct (Hkeep i) as [_ Hld].
    + intros Hl%loaded_of_spec. apply unloaded_of_spec in Hi.
      unfold LOADED, UNLOADED in *. congruence.
    + rewrite Hld. by apply unloaded_of_spec.
Qed.

Lemma explore_colony_inv fuel nb_ants max_life0 pos_nest c unloaded_ants
    the_maze pos_food pheromon c' :
  max_life0 < 2147483648 → pos_int16 pos_nest → pos_food ≠ pos_nest →
  NoDup unloaded_ants →
  (∀ i, i ∈ unloaded_ants → is_loaded c !! i = Some UNLOADED) →
  colony_inv nb_ants max_life0 pos_nest c →
  explore fuel c unloaded_ants the_maze pos_food pos_nest pheromon = Ok c' →
  colony_inv nb_ants max_life0 pos_nest c'.
Proof.
  intros HM [Hnr Hnk] Hfood Hnd Hunl [Hlen Hinv]
    (c3 & c4 & c5 & H3 & H4 & H5 & H6)%explore_inv.
  destruct (move_ants_rows _ _ _ _ _ _ Hnd H3) as (Hld3 & Hml3 & Hage3 & Hrows3).
  destruct (grow_older_effect _ _ _ Hnd H4)
    as (Hin4 & Hout4 & Hlen4 & _ & Hld4 & Hml4 & Hh4 & _).
  destruct (kill_old_effect _ _ _ H5)
    as (_ & Hld5 & Hml5 & Hlen5 & _ & _ & _ & Hkill).
  destruct (pick_food_effect _ _ _ _ Hnd H6)
    as (_ & Hml6 & Hage6 & Hh6 & _ & _ & Hout6 & Hin6).
  split; [congruence|].
  intros i Hi. destruct (Hinv i Hi)
    as (a & ml & ld & row & Ha & Hl & Hld & Hrow & Hnest & Hrange & HmlM & Hwalk).
  (* the moves *)
  destruct (Hrows3 i row Hrow) as (row3 & Hrow3 & Hcase).
  assert (row3 !! 0%nat = Some pos_nest) as Hnest3.
  { destruct Hcase as [->|(a' & j & v & Ha' & Hj & ->)]; [done|].
    assert (a' = a) as -> by congruence.
    rewrite wrap64_id in Hj by lia.
    apply norm_index_inv in Hj as [[_ ->]|[? _]]; [|lia].
    rewrite list_lookup_insert_ne by lia. done. }
  rewrite <- Hage3 in Ha. rewrite <- Hml3 in Hl. rewrite <- Hld3 in Hld.
  (* the age after the ants have grown older *)
  assert (∃ a4, age c4 !! i = Some a4
            ∧ ((a4 = a + 1 ∧ i ∈ unloaded_ants) ∨ (a4 = a ∧ i ∉ unloaded_ants)))
    as (a4 & Ha4 & Hcase4).
  { destruct (decide (i ∈ unloaded_ants)) as [Hiu|Hiu].
    - destruct (Hin4 i Hiu) as (a' & Ha' & Hage).
      assert (a' = a) as -> by congruence.
      rewrite wrap64_id in Hage by lia. eauto.
    - exists a. rewrite (Hout4 i Hiu). auto. }
  rewrite <- Hml4 in Hl. rewrite <- Hld4 in Hld. rewrite <- Hh4 in Hrow3.
  (* the ants that die *)
  specialize (Hkill i a4 ml Ha4 Hl).
  assert (∃ a5 row5, age c5 !! i = Some a5 ∧ historic_path c5 !! i = Some row5
            ∧ row5 !! 0%nat = Some pos_nest ∧ 0 ≤ a5 < ml
            ∧ (ld = LOADED → 1 ≤ a5)
            ∧ (i ∈ unloaded_ants → a5 = 0 ∨ 1 ≤ a5))
    as (a5 & row5 & Ha5 & Hrow5 & Hnest5 & Hrange5 & Hwalk5 & Hun5).
  { destruct (Z.eqb_spec a4 ml) as [Heq|Hne].
    - destruct Hkill as (Hage & _ & row' & Hrow' & Hpos & Hnew).
      assert (row' = row3) as -> by congruence.
      exists 0, (<[0%nat := (wrap16 pos_nest.1, wrap16 pos_nest.2)]> row3).
      split_and!; try done; try lia.
      + rewrite list_lookup_insert_eq by done.
        rewrite !wrap16_id by done. by destruct pos_nest.
      + intros ->. destruct Hcase4 as [[_ Hiu]|[-> _]]; [|lia].
        specialize (Hunl i Hiu). rewrite <- Hld3, <- Hld4 in Hunl.
        unfold LOADED, UNLOADED in *. congruence.
    - destruct Hkill as (Hage & _ & Hh).
      exists a4, row3. rewrite Hh.
      split_and!; try done;
        destruct Hcase4 as [[-> ?]|[-> ?]]; try lia; tauto. }
  rewrite <- Hml5 in Hl. rewrite <- Hld5 in Hld.
  (* the ants that reach the food *)
  unfold ant_inv. rewrite Hml6, Hage6, Hh6.
  destruct (decide (i ∈ unloaded_ants)) as [Hiu|Hiu].
  - destruct (Hin6 i Hiu) as (a' & row' & p & Ha' & Hrow' & Hp & Hpick).
    assert (a' = a5) as -> by congruence. assert (row' = row5) as -> by congruence.
    destruct Hpick as [[-> Hnew]|[_ Hsame]].
    + exists a5, ml, LOADED, row5. split_and!; try done; try lia.
      intros _. destruct (Hun5 Hiu) as [->|]; [|done].
      exfalso. apply Hfood.
      rewrite (np_get_nonneg row5 0 pos_nest) in Hp by done. by injection Hp.
    + exists a5, ml, ld, row5. rewrite Hsame. split_and!; (done || lia).
  - exists a5, ml, ld, row5. rewrite (Hout6 i Hiu). split_and!; (done || lia).
Qed.

Lemma advance_colony_inv fuel nb_ants max_life0 pos_nest c the_maze pos_food
    pheromon fc c' fc' ms :
  max_life0 < 2147483648 → pos_int16 pos_nest → pos_food ≠ pos_nest →
  colony_inv nb_ants max_life0 pos_nest c →
  advance fuel c the_maze pos_food pos_nest pheromon fc = Ok (c', fc', ms) →
  colony_inv nb_ants max_life0 pos_nest c'.
Proof.
  intros HM Hnest Hfood Hinv (cr & Hret & Hexp)%advance_inv.
  assert (colony_inv nb_ants max_life0 pos_nest cr
          ∧ ∀ i, i ∈ unloaded_of c → is_loaded cr !! i = Some UNLOADED)
    as [Hinvr Hunl].
  { destruct Hret as [[_ Hret]|(_ & -> & _)].
    - by eapply return_colony_inv.
    - split; [done|]. intros i. by rewrite unloaded_of_spec. }
  destruct Hexp as [[_ Hexp]|(_ & ->)]; [|done].
  eapply explore_colony_inv; eauto using NoDup_unloaded_of.
Qed.

Lemma init_colony_inv nb_ants pos_nest max_life0 c :
  1 ≤ max_life0 < 2147483648 → pos_int16 pos_nest →
  Colony_init nb_ants pos_nest max_life0 = Ok c →
  colony_inv nb_ants max_life0 pos_nest c.
Proof.
  intros HM [Hr Hk] Hc. unfold Colony_init in Hc.
  destruct (max_life0 + 1 <? 0); [done|]. destruct (max_life0 + 1 =? 0); [done|].
  injection Hc as <-. split; simpl; [by rewrite length_replicate|].
  intros i Hi. unfold ant_inv. simpl.
  rewrite !lookup_replicate_2 by done.
  rewrite lookup_zip_with, lookup_replicate_2, !list_lookup_fmap, lookup_seq_lt
    by done.
  simpl.
  pose proof (lcg_range (wrap64 (Z.of_nat (S i)))) as Hs.
  rewrite init_life by (done || lia).
  pose proof (life_product_bounds max_life0 _ ltac:(lia) Hs) as Ht.
  pose proof (life_bounds max_life0 _ Ht) as Hb. cbv zeta in Hb.
  eexists _, _, _, _. split_and!; try done; try lia.
  rewrite !wrap16_id by done. by destruct pos_nest.
Qed.

Lemma reachable_colony_inv nb_ants pos_nest max_life0 c :
  1 ≤ max_life0 < 2147483648 → pos_int16 pos_nest →
  reachable (λ pos_food, pos_food ≠ pos_nest) nb_ants pos_nest max_life0 c →
  colony_inv nb_ants max_life0 pos_nest c.
Proof.
  intros HM Hnest Hr.
  induction Hr as [c Hc|c ? ? ? ? ? c' ? ? _ IH Hfood Ha].
  - by eapply init_colony_inv.
  - eapply advance_colony_inv; eauto. lia.
Qed.

(** C9.  For a colony created with fewer than 2147483647 ants, the seed of
    every ant is strictly positive (and below the modulus) after the creation
    and after every tick: the initial seeds are nonzero residues, and the
    recurrence sends no nonzero residue to 0. *)
Theorem seeds_stay_positive food_ok nb_ants pos_nest max_life0 c :
  Z.of_nat nb_ants < 2147483647 →
  reachable food_ok nb_ants pos_nest max_life0 c →
  (∀ i s, seeds c !! i = Some s → 0 < s < 2147483647)
  ∧ ∀ s, 0 < s < 2147483647 → 0 < lcg s < 2147483647.
Proof.
  intros HN Hr. split.
  - pose proof (reachable_seeds_ok _ _ _ _ _ HN Hr) as Hok.
    rewrite list.Forall_forall in Hok. intros i s Hs. apply Hok.
    by eapply list_elem_of_lookup_2.
  - apply lcg_seed_ok.
Qed.

(** C8.  For a colony created with a life of at least 1, after the creation
    and after every tick whose food position differs from the nest, every
    ant has an age and a life with [0 <= age <= max_life]. *)
Theorem ages_within_lives nb_ants pos_nest max_life0 c :
  1 ≤ max_life0 < 2147483648 → pos_int16 pos_nest →
  reachable (λ pos_food, pos_food ≠ pos_nest) nb_ants pos_nest max_life0 c →
  length (age c) = nb_ants
  ∧ ∀ i, (i < nb_ants)%nat →
      ∃ a ml, age c !! i = Some a ∧ max_life c !! i = Some ml ∧ 0 ≤ a ≤ ml.
Proof.
  intros HM Hnest Hr.
  destruct (reachable_colony_inv _ _ _ _ HM Hnest Hr) as [Hlen Hinv].
  split; [done|]. intros i Hi.
  destruct (Hinv i Hi) as (a & ml & _ & _ & Ha & Hml & _ & _ & _ & Hrange & _).
  exists a, ml. split_and!; (done || lia).
Qed.


(** ** The histories hold 16-bit integers *)

Lemma alter2_Forall {A} (P : A → Prop) (ops : list (nat * Z * (A → A))) h h' :
  alter2 h ops = Ok h' → Forall (Forall P) h →
  Forall (λ op, ∀ x, P x → P (op.2 x)) ops → Forall (Forall P) h'.
Proof.
  revert h. induction ops as [|[[i k] f] ops IH]; intros h Ha Hh Hops; simpl in Ha.
  - by injection Ha as <-.
  - apply bind_Ok in Ha as (row & Hrow%getitem_Ok & Ha).
    apply bind_Ok in Ha as (j & Hj & Ha).
    apply list.Forall_cons in Hops as [Hf Hops].
    eapply IH; [done| |done].
    apply list.Forall_insert; [done|].
    apply Forall_alter; [by eapply list.Forall_lookup_1|]. intros x _. apply Hf.
Qed.

Lemma zip_ops_Forall {A} (P : A → Prop) (idx : list nat) (ks : list Z)
    (fs : list (A → A)) :
  Forall (λ f, ∀ x, P x → P (f x)) fs →
  Forall (λ op : nat * Z * (A → A), ∀ x, P x → P (op.2 x)) (zip (zip idx ks) fs).
Proof.
  intros Hfs. apply list.Forall_forall. intros [[i k] f] Hin%elem_of_zip_r. simpl.
  rewrite list.Forall_forall in Hfs. by apply Hfs.
Qed.

Lemma move_of_int16 s old sn prev : pos_int16 (mv_new (move_of s old sn prev)).
Proof. split; apply wrap16_range. Qed.

Lemma follow_shift_int16 (p : pos) d :
  pos_int16 p → pos_int16 (p.1, wrap16 (p.2 + d)) ∧ pos_int16 (wrap16 (p.1 + d), p.2).
Proof.
  intros [Hr Hk]. unfold pos_int16. simpl.
  split; (split; [first [exact Hr | apply wrap16_range]
                 | first [exact Hk | apply wrap16_range]]).
Qed.

Lemma retry_iter_path c senses vm ex c' vm' :
  retry_iter c senses vm ex = Ok (c', vm') → path_int16 c → path_int16 c'.
Proof.
  unfold retry_iter, path_int16. intros Hr Hh.
  apply bind_Ok in Hr as (vmx & _ & Hr).
  apply bind_Ok in Hr as (to_move & _ & Hr).
  apply bind_Ok in Hr as (moves & Hmoves & Hr).
  apply bind_Ok in Hr as (vm1 & _ & Hr).
  apply bind_Ok in Hr as (vmnow & _ & Hr).
  apply bind_Ok in Hr as (ind_valid & _ & Hr).
  apply bind_Ok in Hr as (ages & _ & Hr).
  apply bind_Ok in Hr as (new_pos & Hnew & Hr).
  apply bind_Ok in Hr as (path1 & Hpath & Hr).
  apply bind_Ok in Hr as (dir & _ & Hr).
  apply bind_Ok in Hr as (dirs1 & _ & Hr).
  injection Hr as <- <-. simpl.
  eapply alter2_Forall; [done..|].
  apply list.Forall_forall. intros [[i k] f] Hin%elem_of_zip_r x _. simpl.
  apply list_elem_of_fmap in Hin as (p & -> & Hp).
  apply compress_Ok in Hnew as [_ ->].
  apply elem_of_mask_select in Hp as (n & _ & Hn).
  rewrite list_lookup_fmap in Hn.
  destruct (moves !! n) as [mv|] eqn:Hmv; [|done]. injection Hn as <-.
  apply lanes_Forall2 in Hmoves.
  destruct (Forall2_lookup_r _ _ _ _ _ Hmoves Hmv) as (i' & _ & Htry).
  apply try_move_inv in Htry as (? & ? & ? & ? & ? & ? & _ & _ & _ & _ & _ & _ & ->).
  apply move_of_int16.
Qed.

Lemma retry_loop_path fuel c senses vm ex c' vm' :
  retry_loop fuel c senses vm ex = Ok (c', vm') → path_int16 c → path_int16 c'.
Proof.
  revert c vm. induction fuel as [|fuel IH]; intros c vm Hl Hh; simpl in Hl;
    apply bind_Ok in Hl as (vmx & _ & Hl);
    destruct (existsb negb vmx); try done; try by injection Hl as <- <-.
  apply bind_Ok in Hl as ([c1 vm1] & Hiter & Hl). simpl in Hl.
  eapply IH; [done|]. by eapply retry_iter_path.
Qed.

Lemma follow_moves_path c choices senses unloaded_ants c3 :
  follow_moves c choices senses unloaded_ants = Ok c3 →
  path_int16 c → path_int16 c3.
Proof.
  unfold follow_moves, path_int16. intros Hf Hh.
  apply bind_Ok in Hf as (fo & _ & Hf).
  destruct (decide _); [|by injection Hf as <-].
  apply bind_Ok in Hf as (ages & _ & Hf).
  apply bind_Ok in Hf as (cur & Hcur & Hf).
  apply bind_Ok in Hf as (path1 & Hp1 & Hf).
  apply bind_Ok in Hf as (sns & _ & Hf).
  apply bind_Ok in Hf as (path2 & Hp2 & Hf).
  apply bind_Ok in Hf as (path3 & Hp3 & Hf).
  apply bind_Ok in Hf as (path4 & Hp4 & Hf).
  apply bind_Ok in Hf as (path5 & Hp5 & Hf).
  injection Hf as <-. simpl.
  assert (∀ (g : ant_sense → pos → pos),
            (∀ sn p, pos_int16 p → pos_int16 (g sn p)) →
            Forall (λ f : pos → pos, ∀ x, pos_int16 x → pos_int16 (f x)) (g <$> sns))
    as Hshift.
  { intros g Hg. apply Forall_fmap, list.Forall_forall. intros sn _ p. apply Hg. }
  eapply alter2_Forall; [exact Hp5| |].
  2: { apply zip_ops_Forall. rewrite <- list_fmap_compose. apply Hshift.
       intros sn p Hp. apply (follow_shift_int16 p _ Hp). }
  eapply alter2_Forall; [exact Hp4| |].
  2: { apply zip_ops_Forall. rewrite <- list_fmap_compose. apply Hshift.
       intros sn p Hp. apply (follow_shift_int16 p _ Hp). }
  eapply alter2_Forall; [exact Hp3| |].
  2: { apply zip_ops_Forall. rewrite <- list_fmap_compose. apply Hshift.
       intros sn p Hp. apply (follow_shift_int16 p _ Hp). }
  eapply alter2_Forall; [exact Hp2| |].
  2: { apply zip_ops_Forall. rewrite <- list_fmap_compose. apply Hshift.
       intros sn p Hp. apply (follow_shift_int16 p _ Hp). }
  eapply alter2_Forall; [exact Hp1|done|].
  apply list.Forall_forall. intros [[i k] f] Hin%elem_of_zip_r x _. simpl.
  apply list_elem_of_fmap in Hin as (p & -> & [n Hn]%list_elem_of_lookup).
  apply lanes_Forall2 in Hcur.
  destruct (Forall2_lookup_r _ _ _ _ _ Hcur Hn) as (i' & _ & Hget).
  apply bind_Ok in Hget as (a & _ & Hget).
  apply bind_Ok in Hget as (row & Hrow%getitem_Ok & Hget).
  apply np_get_elem in Hget.
  eapply list.Forall_lookup_1 in Hh; [|done].
  rewrite list.Forall_forall in Hh. by apply Hh.
Qed.

Lemma kill_old_path c pos_nest c' :
  kill_old c pos_nest = Ok c' → path_int16 c → path_int16 c'.
Proof.
  unfold kill_old, path_int16. intros Hk Hh.
  destruct (decide _); [|done]. destruct (decide _); [|by injection Hk as <-].
  apply bind_Ok in Hk as (age1 & _ & Hk).
  apply bind_Ok in Hk as (path1 & Hp1 & Hk).
  apply bind_Ok in Hk as (path2 & Hp2 & Hk).
  apply bind_Ok in Hk as (dirs1 & _ & Hk).
  injection Hk as <-. simpl.
  eapply alter2_Forall; [exact Hp2| |].
  2: { apply Forall_fmap, list.Forall_forall. intros i _ [r k] [Hr Hk']. simpl.
       split; simpl; [done | apply wrap16_range]. }
  eapply alter2_Forall; [exact Hp1|done|].
  apply Forall_fmap, list.Forall_forall. intros i _ [r k] [Hr Hk']. simpl.
  split; simpl; [apply wrap16_range | done].
Qed.

Lemma advance_path fuel c the_maze pos_food pos_nest pheromon fc c' fc' ms :
  advance fuel c the_maze pos_food pos_nest pheromon fc = Ok (c', fc', ms) →
  path_int16 c → path_int16 c'.
Proof.
  intros (cr & Hret & Hexp)%advance_inv Hh.
  assert (path_int16 cr) as Hr.
  { destruct Hret as [[_ Hret]|(_ & -> & _)]; [|done].
    destruct (return_to_nest_effect _ _ _ _ _ _ (NoDup_loaded_of c) Hret)
      as (arr & _ & _ & _ & _ & _ & _ & _ & _ & _ & _ & Hp & _).
    unfold path_int16. by rewrite Hp. }
  destruct Hexp as [[_ Hexp]|(_ & ->)]; [|done].
  apply explore_inv in Hexp as (c3 & c4 & c5 & H3 & H4 & H5 & H6).
  pose proof (NoDup_unloaded_of c) as Hnd.
  destruct (grow_older_effect _ _ _ Hnd H4) as (_ & _ & _ & _ & _ & _ & Hh4 & _).
  destruct (pick_food_effect _ _ _ _ Hnd H6) as (_ & _ & _ & Hh6 & _).
  unfold path_int16. rewrite Hh6. eapply kill_old_path; [done|].
  unfold path_int16. rewrite Hh4.
  unfold move_ants in H3.
  apply bind_Ok in H3 as (c1 & Hc1 & H3).
  apply bind_Ok in H3 as (senses & _ & H3).
  apply bind_Ok in H3 as (c2 & Hc2 & H3).
  eapply follow_moves_path; [done|].
  destruct (advance_seeds_effect _ _ _ Hnd Hc1) as (_ & _ & _ & _ & _ & _ & Hh1 & _).
  unfold explore_moves in Hc2. apply bind_Ok in Hc2 as (ex & _ & Hc2).
  assert (path_int16 c1) as Hp1 by (unfold path_int16; by rewrite Hh1).
  destruct (decide _); [|by injection Hc2 as <-].
  apply bind_Ok in Hc2 as ([c2' vm'] & Hloop & Hc2). injection Hc2 as <-.
  by eapply retry_loop_path.
Qed.

(** In every reachable colony the positions are 16-bit values and the ages
    are far from the ends of the 64-bit range: what the statements on the
    moves assume of the colony they start from. *)
Lemma reachable_dtypes nb_ants pos_nest max_life0 c :
  1 ≤ max_life0 < 2147483648 → pos_int16 pos_nest →
  reachable (λ pos_food, pos_food ≠ pos_nest) nb_ants pos_nest max_life0 c →
  path_int16 c ∧ ∀ i a, age c !! i = Some a → age_in_range a.
Proof.
  intros HM Hnest Hr. split.
  - clear HM Hnest. induction Hr as [c Hc|c ? ? ? ? ? c' ? ? _ IH _ Ha].
    + unfold Colony_init in Hc.
      destruct (max_life0 + 1 <? 0); [done|]. destruct (max_life0 + 1 =? 0); [done|].
      injection Hc as <-. unfold path_int16. simpl.
      apply Forall_replicate, list.Forall_cons. split.
      * split; apply wrap16_range.
      * apply Forall_replicate. split; unfold in_int16; simpl; lia.
    + by eapply advance_path.
  - destruct (reachable_colony_inv _ _ _ _ HM Hnest Hr) as [Hlen Hinv].
    intros i a Ha. apply lookup_lt_Some in Ha as Hi. rewrite Hlen in Hi.
    destruct (Hinv i Hi) as (a' & ml & _ & _ & Ha' & _ & _ & _ & _ & Hrange & HmlM & _).
    assert (a' = a) as -> by congruence. unfold age_in_range. lia.
Qed.

(** More fuel never changes the result of the retry loop. *)
Lemma retry_loop_fuel fuel c senses vm ex st :
  retry_loop fuel c senses vm ex = Ok st →
  retry_loop (S fuel) c senses vm ex = Ok st.
Proof.
  revert c vm. induction fuel as [|fuel IH]; intros c vm Hl.
  - simpl in *. destruct (take vm ex) as [vmx|]; simpl in *; [|done].
    by destruct (existsb negb vmx).
  - simpl in Hl. change (retry_loop (S (S fuel)) c senses vm ex)
      with (vm0 ← take vm ex;
            if existsb negb vm0
            then st0 ← retry_iter c senses vm ex;
                 retry_loop (S fuel) st0.1 senses st0.2 ex
            else Ok (c, vm)).
    destruct (take vm ex) as [vmx|]; simpl in *; [|done].
    destruct (existsb negb vmx); [|done].
    destruct (retry_iter c senses vm ex) as [[c1 vm1]|]; simpl in *; [|done].
    by apply IH.
Qed.

(** * Further properties of the code *)

(** ** The passes of a tick, ant by ant *)

(** What [explore] does to the arrays after the moves: the ages, the deaths
    and the loads. *)
Lemma explore_effect fuel c unloaded_ants the_maze pos_food pos_nest pheromon c' :
  NoDup unloaded_ants →
  explore fuel c unloaded_ants the_maze pos_food pos_nest pheromon = Ok c' →
  ∃ c3,
    move_ants fuel c unloaded_ants the_maze pheromon = Ok c3
    ∧ max_life c' = max_life c
    ∧ length (seeds c') = length (seeds c)
    ∧ length (is_loaded c') = length (is_loaded c)
    ∧ length (age c') = length (age c)
    ∧ length (historic_path c') = length (historic_path c)
    ∧ length (directions c') = length (directions c)
    ∧ (∀ i a ml, age c !! i = Some a → max_life c !! i = Some ml →
         let a1 := if bool_decide (i ∈ unloaded_ants) then wrap64 (a + 1) else a in
         if a1 =? ml
         then age c' !! i = Some 0
              ∧ directions c' !! i = Some (wrap8 DIR_NONE)
              ∧ ∃ row3, historic_path c3 !! i = Some row3 ∧ (0 < length row3)%nat
                  ∧ historic_path c' !! i
                    = Some (<[0%nat := (wrap16 pos_nest.1, wrap16 pos_nest.2)]> row3)
         else age c' !! i = Some a1
              ∧ directions c' !! i = directions c3 !! i
              ∧ historic_path c' !! i = historic_path c3 !! i)
    ∧ (∀ i, i ∉ unloaded_ants → is_loaded c' !! i = is_loaded c !! i)
    ∧ (∀ i, i ∈ unloaded_ants →
         ∃ a row p, age c' !! i = Some a ∧ historic_path c' !! i = Some row
           ∧ np_get row a = Ok p
           ∧ ((p = pos_food ∧ is_loaded c' !! i = Some LOADED)
              ∨ (p ≠ pos_food ∧ is_loaded c' !! i = is_loaded c !! i))).
Proof.
  intros Hnd (c3 & c4 & c5 & H3 & H4 & H5 & H6)%explore_inv.
  destruct (move_ants_effect _ _ _ _ _ _ Hnd H3)
    as (_ & _ & _ & _ & _ & _ & _ & _ & Hld3 & Hml3 & Hage3 & Hls3 & Hlh3 & Hldir3 & _).
  destruct (grow_older_effect _ _ _ Hnd H4)
    as (Hin4 & Hout4 & Hlen4 & Hs4 & Hld4 & Hml4 & Hh4 & Hd4).
  destruct (kill_old_effect _ _ _ H5)
    as (Hs5 & Hld5 & Hml5 & Hlen5 & _ & Hlh5 & Hldir5 & Hkill).
  destruct (pick_food_effect _ _ _ _ Hnd H6)
    as (Hs6 & Hml6 & Hage6 & Hh6 & Hd6 & Hlen6 & Hout6 & Hin6).
  exists c3. split; [done|].
  split; [congruence|]. split; [congruence|]. split; [congruence|].
  split; [congruence|]. split; [congruence|]. split; [congruence|].
  split; [|split].
  - intros i a ml Ha Hl a1.
    assert (age c4 !! i = Some a1) as Ha4.
    { unfold a1. case_bool_decide as Hiu.
      - destruct (Hin4 i Hiu) as (a' & Ha' & Hage). congruence.
      - rewrite (Hout4 i Hiu). congruence. }
    assert (max_life c4 !! i = Some ml) as Hl4 by congruence.
    specialize (Hkill i a1 ml Ha4 Hl4).
    rewrite Hage6, Hd6, Hh6.
    destruct (a1 =? ml).
    + destruct Hkill as (Hage & Hdir & row & Hrow & Hpos & Hnew).
      split; [done|]. split; [done|]. exists row.
      rewrite <- Hh4. done.
    + destruct Hkill as (Hage & Hdir & Hh). rewrite <- Hh4, <- Hd4. done.
  - intros i Hiu. rewrite (Hout6 i Hiu). congruence.
  - intros i Hiu. destruct (Hin6 i Hiu) as (a & row & p & Ha & Hrow & Hp & Hcase).
    exists a, row, p. rewrite Hage6, Hh6.
    split; [done|]. split; [done|]. split; [done|].
    destruct Hcase as [[-> Hl]|[Hne Hl]]; [left; done|right].
    split; [done|]. congruence.
Qed.

(** The moves leave the ants outside [unloaded_ants] where they are. *)
Lemma move_ants_other fuel c unloaded_ants the_maze pheromon c3 i :
  NoDup unloaded_ants →
  move_ants fuel c unloaded_ants the_maze pheromon = Ok c3 →
  i ∉ unloaded_ants →
  directions c3 !! i = directions c !! i
  ∧ historic_path c3 !! i = historic_path c !! i.
Proof.
  intros Hnd H3 Hiu.
  destruct (move_ants_effect _ _ _ _ _ _ Hnd H3)
    as (c1 & senses & ex & fo & _ & _ & Hex & Hfo & _ & _ & _ & _ & _ & _ & _
        & _ & Hdir & Hpath & _).
  destruct (exploring_ants_spec _ _ _ _ Hex Hnd) as (_ & _ & Hexs).
  destruct (following_ants_spec _ _ _ _ Hfo Hnd) as (_ & Hfos).
  assert (i ∉ ex) as Hnex by (intros [? _]%Hexs; done).
  assert (i ∉ fo) as Hnfo by (intros [? _]%Hfos; done).
  split; [by apply Hdir | by apply Hpath].
Qed.

Lemma elem_of_delivered c c' i :
  i ∈ delivered c c' ↔
  is_loaded c !! i = Some LOADED ∧ is_loaded c' !! i = Some UNLOADED.
Proof.
  unfold delivered. rewrite elem_of_nonzero, lookup_zip_with.
  unfold LOADED, UNLOADED.
  destruct (is_loaded c !! i) as [[]|], (is_loaded c' !! i) as [[]|]; simpl;
    split; (intros [? ?] || intros ?); (done || congruence).
Qed.

(** X1.  The counter a tick returns is the counter it was given plus the number
    of ants that were loaded before the tick and are unloaded after it. *)
Theorem advance_counts_deliveries fuel c the_maze pos_food pos_nest pheromon
    food_counter c' fc' ms :
  advance fuel c the_maze pos_food pos_nest pheromon food_counter = Ok (c', fc', ms) →
  fc' = food_counter + Z.of_nat (length (delivered c c')).
Proof.
  intros (cr & Hret & Hexp)%advance_inv.
  assert (∃ arrived, NoDup arrived
            ∧ fc' = food_counter + Z.of_nat (length arrived)
            ∧ (∀ i, i ∈ arrived →
                 is_loaded c !! i = Some LOADED ∧ is_loaded cr !! i = Some UNLOADED)
            ∧ (∀ i, i ∉ arrived → is_loaded cr !! i = is_loaded c !! i))
    as (arrived & Hnd & -> & Hin & Hout).
  { destruct Hret as [[_ Hret]|(Hnil & -> & ->)].
    - destruct (return_to_nest_effect _ _ _ _ _ _ (NoDup_loaded_of c) Hret)
        as (arrived & Hnd & Harr & Hfc & Hin & Hrest & Hout & _).
      exists arrived. split; [done|]. split; [done|]. split.
      + intros i Hi. split; [|by apply Hin].
        apply loaded_of_spec. by apply Harr.
      + intros i Hi. destruct (decide (i ∈ loaded_of c)) as [Hl|Hl].
        * destruct (Hrest i Hl Hi) as (a & _ & _ & Hsame). done.
        * by apply Hout.
    - exists []. split; [constructor|]. split; [simpl; lia|].
      split; [intros i Hi; by apply not_elem_of_nil in Hi | done]. }
  assert (∀ i, i ∉ unloaded_of c → is_loaded c' !! i = is_loaded cr !! i) as Hexp'.
  { destruct Hexp as [[_ Hexp]|(_ & ->)]; [|done].
    destruct (explore_effect _ _ _ _ _ _ _ _ (NoDup_unloaded_of c) Hexp)
      as (c3 & _ & _ & _ & _ & _ & _ & _ & _ & Hother & _). done. }
  do 2 f_equal. apply Permutation_length, NoDup_Permutation; [done|apply NoDup_nonzero|].
  intros i. rewrite elem_of_delivered. split.
  - intros Hi. destruct (Hin i Hi) as [Hl Hu]. split; [done|].
    rewrite Hexp'; [done|]. rewrite unloaded_of_spec, Hl. unfold LOADED, UNLOADED. congruence.
  - intros [Hl Hu]. destruct (decide (i ∈ arrived)) as [|Hni]; [done|]. exfalso.
    rewrite Hexp', (Hout i Hni), Hl in Hu.
    + unfold LOADED, UNLOADED in Hu. congruence.
    + rewrite unloaded_of_spec, Hl. unfold LOADED, UNLOADED. congruence.
Qed.

(** X2.  Ageing and death.  After [explore] the age of an ant of
    [unloaded_ants] is one more than before and the age of any other ant is
    what it was, unless that age equals the ant's life: then the ant is back
    at age 0 with the nest as the first cell of its history and no direction,
    whether it is loaded or not, and it does not take food on that tick. *)
Theorem explore_ages_and_kills fuel c unloaded_ants the_maze pos_food pos_nest
    pheromon c' :
  NoDup unloaded_ants → pos_int16 pos_nest →
  explore fuel c unloaded_ants the_maze pos_food pos_nest pheromon = Ok c' →
  max_life c' = max_life c
  ∧ ∀ i a ml, age c !! i = Some a → max_life c !! i = Some ml →
      let a1 := if bool_decide (i ∈ unloaded_ants) then wrap64 (a + 1) else a in
      if a1 =? ml
      then age c' !! i = Some 0
           ∧ directions c' !! i = Some (wrap8 DIR_NONE)
           ∧ (∃ row', historic_path c' !! i = Some row'
                ∧ np_get row' 0 = Ok pos_nest)
           ∧ (pos_food ≠ pos_nest → is_loaded c' !! i = is_loaded c !! i)
      else age c' !! i = Some a1.
Proof.
  intros Hnd [Hn1 Hn2] Hexp.
  destruct (explore_effect _ _ _ _ _ _ _ _ Hnd Hexp)
    as (c3 & _ & Hml & _ & _ & _ & _ & _ & Hages & Hother & Hpick).
  split; [done|]. intros i a ml Ha Hl a1.
  specialize (Hages i a ml Ha Hl). cbv zeta in Hages. fold a1 in Hages.
  destruct (a1 =? ml); [|by destruct Hages].
  destruct Hages as (Hage & Hdir & row3 & Hrow3 & Hpos & Hrow').
  rewrite !wrap16_id in Hrow' by done.
  replace (pos_nest.1, pos_nest.2) with pos_nest in Hrow' by (by destruct pos_nest).
  assert (np_get (<[0%nat:=pos_nest]> row3) 0 = Ok pos_nest) as Hget.
  { apply np_get_nonneg; [lia|]. by apply list_lookup_insert_eq. }
  split; [done|]. split; [done|]. split; [eauto|].
  intros Hfood. destruct (decide (i ∈ unloaded_ants)) as [Hiu|Hiu]; [|by apply Hother].
  destruct (Hpick i Hiu) as (a' & row' & p & Ha' & Hr' & Hp & Hcase).
  assert (a' = 0) as -> by congruence.
  assert (row' = <[0%nat:=pos_nest]> row3) as -> by congruence.
  assert (p = pos_nest) as -> by congruence.
  destruct Hcase as [[Heq _]|[_ Hsame]]; [congruence | done].
Qed.

(** X3.  Taking food.  After [explore] an ant is loaded exactly when it was
    loaded before, or it is one of [unloaded_ants] and the cell it stands on
    after its move is the food: the pass loads and never unloads. *)
Theorem explore_picks_food fuel c unloaded_ants the_maze pos_food pos_nest
    pheromon c' :
  NoDup unloaded_ants →
  explore fuel c unloaded_ants the_maze pos_food pos_nest pheromon = Ok c' →
  length (is_loaded c') = length (is_loaded c)
  ∧ ∀ i, is_loaded c' !! i = Some LOADED ↔
      is_loaded c !! i = Some LOADED
      ∨ (i ∈ unloaded_ants
         ∧ ∃ a row, age c' !! i = Some a ∧ historic_path c' !! i = Some row
             ∧ np_get row a = Ok pos_food).
Proof.
  intros Hnd Hexp.
  destruct (explore_effect _ _ _ _ _ _ _ _ Hnd Hexp)
    as (c3 & _ & _ & _ & Hlen & _ & _ & _ & _ & Hother & Hpick).
  split; [done|]. intros i.
  destruct (decide (i ∈ unloaded_ants)) as [Hiu|Hiu].
  - destruct (Hpick i Hiu) as (a & row & p & Ha & Hrow & Hp & Hcase). split.
    + intros Hl. destruct Hcase as [[-> _]|[_ Hsame]]; [right; eauto 10|].
      left. congruence.
    + intros [Hl|(_ & a' & row' & Ha' & Hrow' & Hp')].
      * destruct Hcase as [[_ ?]|[_ Hsame]]; [done | congruence].
      * assert (p = pos_food) as -> by congruence.
        destruct Hcase as [[_ ?]|[? _]]; done.
  - rewrite (Hother i Hiu). split; [auto|]. intros [?|[? _]]; done.
Qed.

(** ** A cell without exit *)

Lemma sense_cell_exits the_maze pheromon p sn :
  sense_cell the_maze pheromon p = Ok sn →
  ∃ cell, np_get2 the_maze p.1 p.2 = Ok cell
    ∧ has_north_exit sn = (0 <? Z.land cell NORTH)
    ∧ has_east_exit sn = (0 <? Z.land cell EAST)
    ∧ has_south_exit sn = (0 <? Z.land cell SOUTH)
    ∧ has_west_exit sn = (0 <? Z.land cell WEST).
Proof.
  unfold sense_cell. intros Hs.
  apply bind_Ok in Hs as (cell & Hcell & Hs).
  apply bind_Ok in Hs as (pn & Hpn & Hs).
  apply bind_Ok in Hs as (pe & Hpe & Hs).
  apply bind_Ok in Hs as (ps & Hps & Hs).
  apply bind_Ok in Hs as (pw & Hpw & Hs).
  injection Hs as <-. simpl. exists cell. done.
Qed.

Lemma move_of_closed s old sn prev :
  pos_int16 old →
  has_north_exit sn = false → has_east_exit sn = false →
  has_south_exit sn = false → has_west_exit sn = false →
  mv_valid (move_of s old sn prev) = false.
Proof.
  intros [Hr Hc] Hn He Hs Hw. unfold move_of. simpl.
  rewrite Hn, He, Hs, Hw, !andb_false_r. simpl.
  rewrite !Z.sub_0_r, !Z.add_0_r, !wrap16_wrap16, !wrap16_id, !Z.eqb_refl by done.
  done.
Qed.

(** X4.  A tick does not complete while an unloaded ant stands on a cell all
    of whose exits are closed: the ant reads no pheromone, so it explores,
    and no draw of the retry loop moves it; whatever the fuel, [advance]
    returns no result. *)
Theorem closed_cell_hangs fuel c the_maze pos_food pos_nest pheromon food_counter
    i a row p cell :
  is_loaded c !! i = Some UNLOADED →
  age c !! i = Some a → historic_path c !! i = Some row → np_get row a = Ok p →
  pos_int16 p →
  np_get2 the_maze p.1 p.2 = Ok cell →
  Z.land cell NORTH ≤ 0 → Z.land cell EAST ≤ 0 →
  Z.land cell SOUTH ≤ 0 → Z.land cell WEST ≤ 0 →
  ∀ r, advance fuel c the_maze pos_food pos_nest pheromon food_counter ≠ Ok r.
Proof.
  intros Hu Ha Hrow Hp Hp16 Hcell HN HE HS HW [[c' fc'] ms]
    (cr & Hret & Hexp)%advance_inv.
  assert (i ∈ unloaded_of c) as Hiu by by apply unloaded_of_spec.
  destruct Hexp as [[_ Hexp]|[Hnil _]];
    [|rewrite Hnil in Hiu; by apply not_elem_of_nil in Hiu].
  assert (age cr !! i = Some a ∧ historic_path cr !! i = Some row) as [Har Hrowr].
  { destruct Hret as [[_ Hret]|(_ & -> & _)]; [|done].
    destruct (return_to_nest_effect _ _ _ _ _ _ (NoDup_loaded_of c) Hret)
      as (arrived & _ & _ & _ & _ & _ & Hout & _ & _ & _ & _ & Hh & _).
    rewrite Hh. split; [|done].
    destruct (Hout i) as [-> _]; [|done].
    rewrite loaded_of_spec, Hu. unfold LOADED, UNLOADED. congruence. }
  apply explore_inv in Hexp as (c3 & _ & _ & H3 & _).
  pose proof (NoDup_unloaded_of c) as Hnd.
  destruct (move_ants_effect _ _ _ _ _ _ Hnd H3)
    as (c1 & senses & ex & fo & Hc1 & Hsenses & Hex & _ & _ & _ & _ & _ & _ & _
        & _ & _ & _ & _ & Hmoves & _).
  destruct (advance_seeds_effect _ _ _ Hnd Hc1) as (_ & _ & _ & _ & _ & Hage1 & Hh1 & _).
  destruct (sense_all_effect _ _ _ _ Hsenses) as (_ & _ & Hsn).
  destruct (exploring_ants_spec _ _ _ _ Hex Hnd) as (_ & Hread & Hexs).
  destruct (Hread i Hiu) as (ch & sn & Hch & Hsni).
  destruct (Hsn i sn Hsni) as (a' & row' & p' & Ha' & Hrow' & Hp' & Hcell').
  rewrite Hage1 in Ha'. rewrite Hh1 in Hrow'.
  assert (a' = a) as -> by congruence. assert (row' = row) as -> by congruence.
  assert (p' = p) as -> by congruence.
  destruct (sense_cell_exits _ _ _ _ Hcell') as (cell' & Hc' & Hhn & Hhe & Hhs & Hhw).
  assert (cell' = cell) as -> by congruence.
  rewrite (proj2 (Z.ltb_ge _ _) HN) in Hhn. rewrite (proj2 (Z.ltb_ge _ _) HE) in Hhe.
  rewrite (proj2 (Z.ltb_ge _ _) HS) in Hhs. rewrite (proj2 (Z.ltb_ge _ _) HW) in Hhw.
  assert (i ∈ ex) as Hiex.
  { apply Hexs. split; [done|]. exists ch, sn. split; [done|]. split; [done|].
    destruct (sense_cell_inv _ _ _ _ Hcell')
      as (pn & pe & ps & pw & _ & _ & _ & _ & Hn & He & Hs & Hw).
    unfold max_pheromones. rewrite Hn, He, Hs, Hw, Hhn, Hhe, Hhs, Hhw. simpl.
    apply orb_true_r. }
  destruct (Hmoves i Hiex)
    as (s1 & n & a2 & row2 & old & sn2 & prev & j & _ & Ha2 & Hrow2 & Hold & Hsn2
        & _ & Hvalid & _).
  assert (a2 = a) as -> by congruence. assert (row2 = row) as -> by congruence.
  assert (old = p) as -> by congruence. assert (sn2 = sn) as -> by congruence.
  rewrite move_of_closed in Hvalid by done. discriminate Hvalid.
Qed.

(** ** The seeds of a new colony *)

Lemma lcg_inj s t : seed_ok s → seed_ok t → lcg s = lcg t → s = t.
Proof.
  unfold seed_ok, modulus. intros Hs Ht.
  rewrite !lcg_small by lia. unfold modulus. intros Heq.
  assert ((2147483647 | 16807 * (s - t))) as Hdiv.
  { apply Z.mod_divide; [lia|].
    rewrite Z.mul_sub_distr_l, Zminus_mod, Heq, Z.sub_diag. done. }
  apply Z.gauss in Hdiv; [|reflexivity].
  destruct Hdiv as [k Hk]. assert (k = 0) by lia. lia.
Qed.

(** X5.  The seeds of a new colony are pairwise distinct, for fewer than
    2147483647 ants: each ant starts with a seed of its own. *)
Theorem Colony_init_unique_seeds nb_ants pos_init max_life0 c :
  Z.of_nat nb_ants < 2147483647 →
  Colony_init nb_ants pos_init max_life0 = Ok c →
  NoDup (seeds c).
Proof.
  intros Hn Hc. unfold Colony_init in Hc.
  destruct (max_life0 + 1 <? 0); [discriminate Hc|].
  destruct (max_life0 + 1 =? 0); [discriminate Hc|].
  injection Hc as <-. simpl. rewrite <- list_fmap_compose.
  apply NoDup_fmap_2_strong; [|apply NoDup_seq].
  intros x y Hx%elem_of_seq Hy%elem_of_seq Heq. simpl in Heq.
  rewrite !wrap64_id in Heq by lia.
  apply lcg_inj in Heq; [lia | |]; unfold seed_ok, modulus; lia.
Qed.

(** X6.  The move of a following ant changes its history only: the retry loop
    is the one place of the pass where a direction is written, so an ant
    that does not explore leaves [move_ants] with the direction it had. *)
Theorem followers_keep_direction fuel c unloaded_ants the_maze pheromon c3 :
  NoDup unloaded_ants →
  move_ants fuel c unloaded_ants the_maze pheromon = Ok c3 →
  ∃ c1 senses ex fo,
    advance_seeds c unloaded_ants = Ok c1
    ∧ sense_all c1 the_maze pheromon = Ok senses
    ∧ exploring_ants (choices_of c1) senses unloaded_ants = Ok ex
    ∧ following_ants (choices_of c1) senses unloaded_ants = Ok fo
    ∧ (∀ i, i ∈ fo → directions c3 !! i = directions c !! i)
    ∧ (∀ i, i ∉ ex → directions c3 !! i = directions c !! i).
Proof.
  intros Hnd H3.
  destruct (move_ants_effect _ _ _ _ _ _ Hnd H3)
    as (c1 & senses & ex & fo & Hc1 & Hsenses & Hex & Hfo & _ & _ & _ & _ & _ & _
        & _ & Hexcl & Hdir & _).
  exists c1, senses, ex, fo. split_and!; try done.
  intros i Hi. apply Hdir. intros Hiex. by apply (Hexcl i).
Qed.

(** ** The deposits *)

Lemma marks_effect c the_maze ms :
  marks c the_maze = Ok ms →
  length ms = length (directions c)
  ∧ ∀ i m, ms !! i = Some m →
      ∃ a row cell, age c !! i = Some a ∧ historic_path c !! i = Some row
        ∧ np_get row a = Ok m.1
        ∧ np_get2 the_maze m.1.1 m.1.2 = Ok cell
        ∧ m.2 = (0 <? Z.land cell NORTH, 0 <? Z.land cell EAST,
                 0 <? Z.land cell WEST, 0 <? Z.land cell SOUTH).
Proof.
  unfold marks. intros Hm.
  apply bind_Ok in Hm as (ps & Hps & Hm).
  apply bind_Ok in Hm as (cells & Hcells & Hm).
  destruct (current_positions_effect _ _ Hps) as (Hlps & _ & Hpos).
  split; [by rewrite (lanes_length _ _ _ Hm), length_seq|].
  intros i m Hi.
  assert (i < length ms)%nat as Hlt by by eapply lookup_lt_Some.
  rewrite (lanes_length _ _ _ Hm), length_seq in Hlt.
  destruct (lanes_lookup _ _ _ i i Hm) as (m' & Hm' & Hf);
    [by apply lookup_seq|].
  assert (Some m' = Some m) as Heq by (rewrite <- Hm'; exact Hi).
  injection Heq as ->.
  apply bind_Ok in Hf as (a & Ha%getitem_Ok & Hf).
  apply bind_Ok in Hf as (row & Hrow%getitem_Ok & Hf).
  apply bind_Ok in Hf as (p & Hp & Hf).
  apply bind_Ok in Hf as (cell & Hcell%getitem_Ok & Hf).
  injection Hf as <-. simpl.
  exists a, row, cell. split; [done|]. split; [done|]. split; [done|].
  split; [|done].
  assert (i < length cells)%nat as Hlc by by eapply lookup_lt_Some.
  rewrite (lanes_length _ _ _ Hcells) in Hlc.
  destruct (lookup_lt_is_Some_2 ps i Hlc) as [p' Hp'].
  destruct (lanes_lookup _ _ _ i p' Hcells Hp') as (cell' & Hcell' & Hget).
  destruct (Hpos i p' Hp') as (a' & row' & Ha' & Hrow' & Hget').
  assert (p' = p) as -> by congruence. congruence.
Qed.

(** X7.  A tick asks for one deposit per ant, in the order of the ants and
    whether the ant is loaded or not: at the cell the ant stands on when the
    tick ends, with the exits of that cell in the order north, east, west,
    south. *)
Theorem advance_marks_every_ant fuel c the_maze pos_food pos_nest pheromon
    food_counter c' fc' ms :
  advance fuel c the_maze pos_food pos_nest pheromon food_counter = Ok (c', fc', ms) →
  length ms = length (directions c')
  ∧ ∀ i p exits, ms !! i = Some (p, exits) →
      ∃ a row cell, age c' !! i = Some a ∧ historic_path c' !! i = Some row
        ∧ np_get row a = Ok p
        ∧ np_get2 the_maze p.1 p.2 = Ok cell
        ∧ exits = (0 <? Z.land cell NORTH, 0 <? Z.land cell EAST,
                   0 <? Z.land cell WEST, 0 <? Z.land cell SOUTH).
Proof.
  unfold advance. intros Ha.
  apply bind_Ok in Ha as ([cr fr] & _ & Ha).
  apply bind_Ok in Ha as (c2 & _ & Ha).
  apply bind_Ok in Ha as (ms' & Hms & Ha). injection Ha as <- <- <-.
  destruct (marks_effect _ _ _ Hms) as [Hlen Hall].
  split; [done|]. intros i p exits Hi. apply (Hall i (p, exits) Hi).
Qed.

Lemma advance_marks_length fuel c the_maze pos_food pos_nest pheromon
    food_counter c' fc' ms :
  advance fuel c the_maze pos_food pos_nest pheromon food_counter = Ok (c', fc', ms) →
  length ms = length (directions c').
Proof.
  unfold advance. intros Ha.
  apply bind_Ok in Ha as ([cr fr] & _ & Ha).
  apply bind_Ok in Ha as (c2 & _ & Ha).
  apply bind_Ok in Ha as (ms' & Hms & Ha). injection Ha as <- <- <-.
  by destruct (marks_effect _ _ _ Hms).
Qed.

(** ** The shape of the arrays *)

Lemma return_to_nest_shape nb_ants max_life0 c loaded_ants pos_nest fc cr fr :
  NoDup loaded_ants →
  return_to_nest c loaded_ants pos_nest fc = Ok (cr, fr) →
  shape_inv nb_ants max_life0 c → shape_inv nb_ants max_life0 cr.
Proof.
  intros Hnd Hret (Hs & Hl & Hm & Ha & Hh & Hd & Hrows).
  destruct (return_to_nest_effect _ _ _ _ _ _ Hnd Hret)
    as (arrived & _ & _ & _ & _ & _ & _ & Hla & Hll & Hs' & Hm' & Hh' & Hd').
  unfold shape_inv. rewrite Hs', Hm', Hh', Hd', Hla, Hll. done.
Qed.

Lemma explore_shape nb_ants max_life0 fuel c unloaded_ants the_maze pos_food
    pos_nest pheromon c' :
  NoDup unloaded_ants →
  explore fuel c unloaded_ants the_maze pos_food pos_nest pheromon = Ok c' →
  shape_inv nb_ants max_life0 c → shape_inv nb_ants max_life0 c'.
Proof.
  intros Hnd Hexp (Hs & Hl & Hm & Ha & Hh & Hd & Hrows).
  destruct (explore_effect _ _ _ _ _ _ _ _ Hnd Hexp)
    as (c3 & H3 & Hml & Hls & Hll & Hla & Hlh & Hld & Hages & _).
  destruct (move_ants_rows _ _ _ _ _ _ Hnd H3) as (_ & _ & _ & Hrows3).
  unfold shape_inv. rewrite Hml, Hls, Hll, Hla, Hlh, Hld.
  split_and!; try done.
  apply list.Forall_forall. intros row' Hin.
  apply list_elem_of_lookup in Hin as [i Hi].
  assert (i < nb_ants)%nat as Hlt by (apply lookup_lt_Some in Hi; lia).
  destruct (lookup_lt_is_Some_2 (age c) i) as [a Hai]; [lia|].
  destruct (lookup_lt_is_Some_2 (max_life c) i) as [ml Hmi]; [lia|].
  destruct (lookup_lt_is_Some_2 (historic_path c) i) as [row Hri]; [lia|].
  destruct (Hrows3 i row Hri) as (row3 & Hrow3 & Hcase).
  assert (length row3 = Z.to_nat (max_life0 + 1)) as Hl3.
  { rewrite <- (list.Forall_lookup_1 _ _ _ _ Hrows Hri).
    destruct Hcase as [->|(a' & j & v & _ & _ & ->)]; [done|].
    by rewrite length_insert. }
  specialize (Hages i a ml Hai Hmi). cbv zeta in Hages.
  destruct (_ =? ml).
  - destruct Hages as (_ & _ & row3' & Hrow3' & _ & Hnew).
    assert (row3' = row3) as -> by congruence.
    rewrite Hnew in Hi. injection Hi as <-. by rewrite length_insert.
  - destruct Hages as (_ & _ & Hsame). congruence.
Qed.

Lemma init_shape nb_ants max_life0 pos_nest c :
  Colony_init nb_ants pos_nest max_life0 = Ok c → shape_inv nb_ants max_life0 c.
Proof.
  intros Hc. unfold Colony_init in Hc.
  destruct (Z.ltb_spec (max_life0 + 1) 0); [discriminate Hc|].
  destruct (Z.eqb_spec (max_life0 + 1) 0); [discriminate Hc|].
  injection Hc as <-. unfold shape_inv. simpl.
  rewrite !length_fmap, length_seq, !length_replicate, length_zip_with,
    !length_fmap, length_seq, length_replicate.
  split_and!; try done; try lia.
  apply Forall_replicate. simpl. rewrite length_replicate. lia.
Qed.

Lemma advance_shape nb_ants max_life0 fuel c the_maze pos_food pos_nest pheromon
    food_counter c' fc' ms :
  shape_inv nb_ants max_life0 c →
  advance fuel c the_maze pos_food pos_nest pheromon food_counter = Ok (c', fc', ms) →
  shape_inv nb_ants max_life0 c' ∧ max_life c' = max_life c ∧ length ms = nb_ants.
Proof.
  intros Hshape Hadv.
  pose proof (advance_marks_length _ _ _ _ _ _ _ _ _ _ Hadv) as Hms.
  apply advance_inv in Hadv as (cr & Hret & Hexp).
  assert (shape_inv nb_ants max_life0 cr ∧ max_life cr = max_life c) as [Hr Hmr].
  { destruct Hret as [[_ Hret]|(_ & -> & _)]; [|done].
    split; [by eapply return_to_nest_shape; eauto using NoDup_loaded_of|].
    destruct (return_to_nest_effect _ _ _ _ _ _ (NoDup_loaded_of c) Hret)
      as (arrived & _ & _ & _ & _ & _ & _ & _ & _ & _ & Hm' & _). done. }
  assert (shape_inv nb_ants max_life0 c' ∧ max_life c' = max_life c) as [Hc' Hmc].
  { destruct Hexp as [[_ Hexp]|(_ & ->)]; [|done].
    split; [by eapply explore_shape; eauto using NoDup_unloaded_of|].
    destruct (explore_effect _ _ _ _ _ _ _ _ (NoDup_unloaded_of c) Hexp)
      as (c3 & _ & Hml & _). congruence. }
  split; [done|]. split; [done|].
  destruct Hc' as (_ & _ & _ & _ & _ & Hd & _). congruence.
Qed.

(** X8.  The shape of the arrays.  The constructor makes six arrays of
    [nb_ants] entries, each history holding [max_life + 1] cells; a tick
    keeps these lengths, does not touch the lives, and asks for [nb_ants]
    deposits. *)
Theorem shape_is_kept nb_ants max_life0 pos_nest :
  (∀ c, Colony_init nb_ants pos_nest max_life0 = Ok c →
        shape_inv nb_ants max_life0 c)
  ∧ ∀ fuel c the_maze pos_food pheromon food_counter c' fc' ms,
      shape_inv nb_ants max_life0 c →
      advance fuel c the_maze pos_food pos_nest pheromon food_counter
        = Ok (c', fc', ms) →
      shape_inv nb_ants max_life0 c' ∧ max_life c' = max_life c
      ∧ length ms = nb_ants.
Proof.
  split; [intros c; apply init_shape|].
  intros fuel c the_maze pos_food pheromon fc c' fc' ms. apply advance_shape.
Qed.

(** ** The loaded ants in a tick *)

(** X9.  A loaded ant in a tick.  It steps back one cell along its own
    history; if that cell is the nest it is unloaded and its age is 0,
    otherwise it stays loaded one cell nearer.  The explore pass of the same
    tick leaves it alone: its history and its direction are what they were. *)
Theorem advance_loaded_ant fuel c the_maze pos_food pos_nest pheromon
    food_counter c' fc' ms i a ml row p :
  advance fuel c the_maze pos_food pos_nest pheromon food_counter = Ok (c', fc', ms) →
  is_loaded c !! i = Some LOADED →
  age c !! i = Some a → max_life c !! i = Some ml →
  1 ≤ a ≤ ml → ml < 2147483648 →
  historic_path c !! i = Some row → np_get row (a - 1) = Ok p →
  age c' !! i = Some (if bool_decide (p = pos_nest) then 0 else a - 1)
  ∧ is_loaded c' !! i = Some (if bool_decide (p = pos_nest) then UNLOADED else LOADED)
  ∧ historic_path c' !! i = Some row
  ∧ directions c' !! i = directions c !! i.
Proof.
  intros (cr & Hret & Hexp)%advance_inv Hl Ha Hml Hrange HM Hrow Hp.
  assert (i ∈ loaded_of c) as Hil by by apply loaded_of_spec.
  destruct Hret as [[_ Hret]|(Hnil & _)];
    [|rewrite Hnil in Hil; by apply not_elem_of_nil in Hil].
  destruct (return_to_nest_effect _ _ _ _ _ _ (NoDup_loaded_of c) Hret)
    as (arrived & _ & Harr & _ & Hin & Hrest & _ & _ & _ & _ & Hmr & Hhr & Hdr).
  assert (wrap64 (a - 1) = a - 1) as Hw by (apply wrap64_id; lia).
  set (a' := if bool_decide (p = pos_nest) then 0 else a - 1).
  set (l' := if bool_decide (p = pos_nest) then UNLOADED else LOADED).
  assert (age cr !! i = Some a' ∧ is_loaded cr !! i = Some l') as [Har Hlr].
  { unfold a', l'. case_bool_decide as Hnest.
    - apply Hin, Harr. split; [done|]. exists a, row. rewrite Hw. by subst.
    - destruct (Hrest i Hil) as (a2 & Ha2 & Hage & Hsame).
      + intros (_ & a2 & row2 & Ha2 & Hrow2 & Hp2)%Harr.
        assert (a2 = a) as -> by congruence.
        rewrite Hw in Hp2. congruence.
      + assert (a2 = a) as -> by congruence.
        rewrite Hw in Hage. split; congruence. }
  assert (a' ≠ ml) as Hne by (unfold a'; case_bool_decide; lia).
  destruct Hexp as [[_ Hexp]|(_ & ->)]; [|rewrite Hhr, Hdr; done].
  assert (i ∉ unloaded_of c) as Hiu.
  { rewrite unloaded_of_spec, Hl. unfold LOADED, UNLOADED. congruence. }
  pose proof (NoDup_unloaded_of c) as Hnd.
  destruct (explore_effect _ _ _ _ _ _ _ _ Hnd Hexp)
    as (c3 & H3 & _ & _ & _ & _ & _ & _ & Hages & Hother & _).
  destruct (move_ants_other _ _ _ _ _ _ i Hnd H3 Hiu) as [Hd3 Hh3].
  specialize (Hages i a' ml Har ltac:(congruence)). cbv zeta in Hages.
  rewrite bool_decide_eq_false_2 in Hages by done.
  rewrite (proj2 (Z.eqb_neq _ _) Hne) in Hages.
  destruct Hages as (Hage & Hdir & Hh).
  rewrite (Hother i Hiu). split; [done|]. split; [done|]. split; congruence.
Qed.

(** ** The ants stay in the maze *)

Lemma shift_in_range x n d1 d2 :
  0 ≤ x < n → n ≤ 32767 → -1 ≤ d1 ≤ 1 → -1 ≤ d2 ≤ 1 →
  0 ≤ x + d1 + d2 < n → 0 ≤ wrap16 (wrap16 (x + d1) + d2) < n.
Proof.
  intros Hx Hn H1 H2 Hsum.
  rewrite (wrap16_id (x + d1)) by (unfold in_int16; lia).
  rewrite wrap16_id by (unfold in_int16; lia). done.
Qed.

Lemma move_of_in_grid the_maze pheromon h w s old sn prev :
  maze_wf the_maze h w → in_grid h w old →
  sense_cell the_maze pheromon old = Ok sn →
  in_grid h w (mv_new (move_of s old sn prev)).
Proof.
  intros (_ & _ & Hh & Hw & Hwall) Hold
    (cell & Hcell & Hn & He & Hs & Hw')%sense_cell_exits.
  destruct (Hwall old cell Hold Hcell) as (HN & HS & HW & HE).
  destruct Hold as [Hr Hk]. unfold move_of. simpl. rewrite Hn, He, Hs, Hw'.
  split; simpl.
  - rewrite <- Z.add_opp_r. apply shift_in_range; [done|lia| | |].
    + destruct (_ && _); simpl; lia.
    + destruct (_ && _); simpl; lia.
    + destruct (Z.ltb_spec 0 (Z.land cell NORTH)), (Z.ltb_spec 0 (Z.land cell SOUTH));
        destruct (s `mod` 4 =? DIR_NORTH), (s `mod` 4 =? DIR_SOUTH); simpl; lia.
  - rewrite <- Z.add_opp_r. apply shift_in_range; [done|lia| | |].
    + destruct (_ && _); simpl; lia.
    + destruct (_ && _); simpl; lia.
    + destruct (Z.ltb_spec 0 (Z.land cell WEST)), (Z.ltb_spec 0 (Z.land cell EAST));
        destruct (s `mod` 4 =? DIR_WEST), (s `mod` 4 =? DIR_EAST); simpl; lia.
Qed.

Lemma follow_target_in_grid the_maze pheromon h w cur sn :
  maze_wf the_maze h w → in_grid h w cur →
  sense_cell the_maze pheromon cur = Ok sn →
  Qltb 0%Q (max_pheromones sn) = true →
  in_grid h w (follow_target cur sn).
Proof.
  intros (_ & _ & Hh & Hw & Hwall) Hcur Hsense Hpos.
  destruct (sense_cell_exits _ _ _ _ Hsense) as (cell & Hcell & Hn & He & Hs & Hw').
  destruct (sense_cell_inv _ _ _ _ Hsense)
    as (pn & pe & ps & pw & _ & _ & _ & _ & Hpn & Hpe & Hps & Hpw).
  destruct (Hwall cur cell Hcur Hcell) as (HN & HS & HW & HE).
  assert (ties (north_pheromone sn) sn = true → 0 < cur.1) as HtN.
  { unfold ties. rewrite Hpn. intros Ht%tie_open; [|done].
    apply HN. rewrite Hn in Ht. by apply Z.ltb_lt. }
  assert (ties (south_pheromone sn) sn = true → cur.1 + 1 < h) as HtS.
  { unfold ties. rewrite Hps. intros Ht%tie_open; [|done].
    apply HS. rewrite Hs in Ht. by apply Z.ltb_lt. }
  assert (ties (west_pheromone sn) sn = true → 0 < cur.2) as HtW.
  { unfold ties. rewrite Hpw. intros Ht%tie_open; [|done].
    apply HW. rewrite Hw' in Ht. by apply Z.ltb_lt. }
  assert (ties (east_pheromone sn) sn = true → cur.2 + 1 < w) as HtE.
  { unfold ties. rewrite Hpe. intros Ht%tie_open; [|done].
    apply HE. rewrite He in Ht. by apply Z.ltb_lt. }
  destruct Hcur as [Hr Hk]. unfold follow_target. split; simpl.
  - apply shift_in_range; [done|lia| | |];
      destruct (ties (north_pheromone sn) sn), (ties (south_pheromone sn) sn);
      simpl; try lia; specialize (HtN eq_refl) || specialize (HtS eq_refl); lia.
  - apply shift_in_range; [done|lia| | |];
      destruct (ties (east_pheromone sn) sn), (ties (west_pheromone sn) sn);
      simpl; try lia; specialize (HtE eq_refl) || specialize (HtW eq_refl); lia.
Qed.

Lemma move_ants_in_grid fuel c unloaded_ants the_maze pheromon c3 h w :
  NoDup unloaded_ants → maze_wf the_maze h w →
  move_ants fuel c unloaded_ants the_maze pheromon = Ok c3 →
  path_in_grid h w c → path_in_grid h w c3.
Proof.
  intros Hnd Hwf H3 Hin.
  destruct (move_ants_effect _ _ _ _ _ _ Hnd H3)
    as (c1 & senses & ex & fo & Hc1 & Hsenses & Hex & Hfo & _ & _ & _ & _ & Hlh & _
        & _ & _ & _ & Hsame & Hmoves & Hfollows).
  destruct (advance_seeds_effect _ _ _ Hnd Hc1) as (_ & _ & _ & _ & _ & Hage1 & Hh1 & _).
  destruct (sense_all_effect _ _ _ _ Hsenses) as (_ & _ & Hsn).
  destruct (following_ants_spec _ _ _ _ Hfo Hnd) as (_ & Hfos).
  assert (∀ i a row p sn, age c !! i = Some a → historic_path c !! i = Some row →
            np_get row a = Ok p → senses !! i = Some sn →
            in_grid h w p ∧ sense_cell the_maze pheromon p = Ok sn) as Hcell.
  { intros i a row p sn Ha Hrow Hp Hsni.
    destruct (Hsn i sn Hsni) as (a' & row' & p' & Ha' & Hrow' & Hp' & Hcell).
    rewrite Hage1 in Ha'. rewrite Hh1 in Hrow'.
    assert (p' = p) as -> by congruence. split; [|done].
    apply np_get_elem in Hp.
    eapply list.Forall_forall; [|exact Hp]. by eapply list.Forall_lookup_1. }
  apply list.Forall_lookup. intros i row3 Hrow3.
  destruct (decide (i ∈ ex)) as [Hiex|Hiex].
  { destruct (Hmoves i Hiex)
      as (s1 & n & a & row & old & sn & prev & j & _ & Ha & Hrow & Hold & Hsni
          & _ & _ & _ & Hnew & _).
    destruct (Hcell i a row old sn Ha Hrow Hold Hsni) as [Hg Hsc].
    rewrite Hnew in Hrow3. injection Hrow3 as <-.
    apply list.Forall_insert; [by eapply list.Forall_lookup_1|].
    by apply (move_of_in_grid the_maze pheromon h w _ old sn prev). }
  destruct (decide (i ∈ fo)) as [Hifo|Hifo].
  { destruct (Hfollows i Hifo)
      as (a & row & cur & sn & j & Ha & Hrow & Hcur & Hsni & _ & Hnew).
    destruct (Hcell i a row cur sn Ha Hrow Hcur Hsni) as [Hg Hsc].
    rewrite Hnew in Hrow3. injection Hrow3 as <-.
    apply list.Forall_insert; [by eapply list.Forall_lookup_1|].
    eapply follow_target_in_grid; [done|done|done|].
    apply Hfos in Hifo as (_ & ch & sn' & _ & Hsn' & Hcond).
    assert (sn' = sn) as -> by congruence.
    by apply andb_true_iff in Hcond as [_ ?]. }
  rewrite (Hsame i Hiex Hifo) in Hrow3. by eapply list.Forall_lookup_1.
Qed.

Lemma kill_old_Forall (P : pos → Prop) c pos_nest c' :
  kill_old c pos_nest = Ok c' →
  (∀ p, P p → P (wrap16 pos_nest.1, p.2)) →
  (∀ p, P p → P (p.1, wrap16 pos_nest.2)) →
  Forall (Forall P) (historic_path c) → Forall (Forall P) (historic_path c').
Proof.
  unfold kill_old. intros Hk H1 H2 Hh.
  destruct (decide _); [|done]. destruct (decide _); [|by injection Hk as <-].
  apply bind_Ok in Hk as (age1 & _ & Hk).
  apply bind_Ok in Hk as (path1 & Hp1 & Hk).
  apply bind_Ok in Hk as (path2 & Hp2 & Hk).
  apply bind_Ok in Hk as (dirs1 & _ & Hk).
  injection Hk as <-. simpl.
  eapply alter2_Forall; [exact Hp2| |].
  2: { apply Forall_fmap, list.Forall_forall. intros i _ p Hp. simpl. by apply H2. }
  eapply alter2_Forall; [exact Hp1|done|].
  apply Forall_fmap, list.Forall_forall. intros i _ p Hp. simpl. by apply H1.
Qed.

Lemma nest_fits the_maze h w pos_nest :
  maze_wf the_maze h w → in_grid h w pos_nest →
  wrap16 pos_nest.1 = pos_nest.1 ∧ wrap16 pos_nest.2 = pos_nest.2.
Proof.
  intros (_ & _ & Hh & Hw & _) [Hr Hk].
  split; apply wrap16_id; unfold in_int16; lia.
Qed.

Lemma init_in_grid the_maze h w nb_ants pos_nest max_life0 c :
  maze_wf the_maze h w → in_grid h w pos_nest →
  Colony_init nb_ants pos_nest max_life0 = Ok c → path_in_grid h w c.
Proof.
  intros Hwf Hnest Hc. destruct (nest_fits _ _ _ _ Hwf Hnest) as [Hn1 Hn2].
  unfold Colony_init in Hc.
  destruct (max_life0 + 1 <? 0); [discriminate Hc|].
  destruct (max_life0 + 1 =? 0); [discriminate Hc|].
  injection Hc as <-. unfold path_in_grid. simpl. rewrite Hn1, Hn2.
  apply Forall_replicate, list.Forall_cons. split; [done|].
  apply Forall_replicate. destruct Hnest as [Hr Hk]. split; simpl; lia.
Qed.

Lemma explore_in_grid the_maze h w fuel c unloaded_ants pos_food pos_nest
    pheromon c' :
  NoDup unloaded_ants →
  maze_wf the_maze h w → in_grid h w pos_nest → path_in_grid h w c →
  explore fuel c unloaded_ants the_maze pos_food pos_nest pheromon = Ok c' →
  path_in_grid h w c'.
Proof.
  intros Hnd Hwf Hnest Hin (c3 & c4 & c5 & H3 & H4 & H5 & H6)%explore_inv.
  destruct (nest_fits _ _ _ _ Hwf Hnest) as [Hn1 Hn2].
  destruct (grow_older_effect _ _ _ Hnd H4) as (_ & _ & _ & _ & _ & _ & Hh4 & _).
  destruct (pick_food_effect _ _ _ _ Hnd H6) as (_ & _ & _ & Hh6 & _).
  unfold path_in_grid. rewrite Hh6.
  eapply kill_old_Forall; [exact H5| | |].
  - intros p [_ Hk]. rewrite Hn1. split; [apply Hnest | done].
  - intros p [Hr' _]. rewrite Hn2. split; [done | apply Hnest].
  - rewrite Hh4. by eapply move_ants_in_grid.
Qed.

Lemma advance_in_grid the_maze h w fuel c pos_food pos_nest pheromon
    food_counter c' fc' ms :
  maze_wf the_maze h w → in_grid h w pos_nest → path_in_grid h w c →
  advance fuel c the_maze pos_food pos_nest pheromon food_counter = Ok (c', fc', ms) →
  path_in_grid h w c'.
Proof.
  intros Hwf Hnest Hin (cr & Hret & Hexp)%advance_inv.
  assert (path_in_grid h w cr) as Hr.
  { destruct Hret as [[_ Hret]|(_ & -> & _)]; [|done].
    destruct (return_to_nest_effect _ _ _ _ _ _ (NoDup_loaded_of c) Hret)
      as (arr & _ & _ & _ & _ & _ & _ & _ & _ & _ & _ & Hp & _).
    unfold path_in_grid. by rewrite Hp. }
  destruct Hexp as [[_ Hexp]|(_ & ->)]; [|done].
  eapply explore_in_grid; eauto using NoDup_unloaded_of.
Qed.

Lemma current_in_grid h w c i a row p :
  path_in_grid h w c → historic_path c !! i = Some row → np_get row a = Ok p →
  in_grid h w p.
Proof.
  intros Hin Hrow Hp%np_get_elem.
  eapply list.Forall_forall; [|exact Hp]. by eapply list.Forall_lookup_1.
Qed.

(** X10.  The ants stay in the maze.  In a maze whose border is walled, with
    the nest on one of its cells, every cell of every history is a cell of
    the maze: when the colony is created, and after every tick, whatever the
    pheromone field; so every ant stands on a cell of the maze. *)
Theorem ants_stay_in_maze the_maze h w pos_nest :
  maze_wf the_maze h w → in_grid h w pos_nest →
  (∀ nb_ants max_life0 c,
     Colony_init nb_ants pos_nest max_life0 = Ok c → path_in_grid h w c)
  ∧ (∀ fuel c pos_food pheromon food_counter c' fc' ms,
       path_in_grid h w c →
       advance fuel c the_maze pos_food pos_nest pheromon food_counter
         = Ok (c', fc', ms) →
       path_in_grid h w c'
       ∧ ∀ i a row p, age c' !! i = Some a → historic_path c' !! i = Some row →
           np_get row a = Ok p → in_grid h w p).
Proof.
  intros Hwf Hnest. split.
  - intros nb_ants max_life0 c. by apply (init_in_grid the_maze).
  - intros fuel c pos_food pheromon fc c' fc' ms Hin Hadv.
    assert (path_in_grid h w c') as Hin' by by eapply advance_in_grid.
    split; [done|]. intros i a row p _ Hrow Hp. by eapply current_in_grid.
Qed.

(** ** The directions *)

Lemma kill_old_dirs (P : Z → Prop) c pos_nest c' :
  kill_old c pos_nest = Ok c' → P (wrap8 DIR_NONE) →
  Forall P (directions c) → Forall P (directions c').
Proof.
  unfold kill_old. intros Hk HP Hd.
  destruct (decide _); [|done]. destruct (decide _); [|by injection Hk as <-].
  apply bind_Ok in Hk as (age1 & _ & Hk).
  apply bind_Ok in Hk as (path1 & Hp1 & Hk).
  apply bind_Ok in Hk as (path2 & Hp2 & Hk).
  apply bind_Ok in Hk as (dirs1 & Hd1 & Hk).
  injection Hk as <-. simpl.
  eapply put_Forall; [exact Hd1|done|]. by apply Forall_replicate.
Qed.

Lemma init_dirs nb_ants pos_nest max_life0 c :
  Colony_init nb_ants pos_nest max_life0 = Ok c → Forall dir_ok (directions c).
Proof.
  intros Hc. unfold Colony_init in Hc.
  destruct (max_life0 + 1 <? 0); [discriminate Hc|].
  destruct (max_life0 + 1 =? 0); [discriminate Hc|].
  injection Hc as <-. simpl. apply Forall_replicate. by left.
Qed.

Lemma advance_dirs fuel c the_maze pos_food pos_nest pheromon food_counter c' fc' ms :
  Forall dir_ok (directions c) →
  advance fuel c the_maze pos_food pos_nest pheromon food_counter = Ok (c', fc', ms) →
  Forall dir_ok (directions c').
Proof.
  intros Hd (cr & Hret & Hexp)%advance_inv.
  assert (Forall dir_ok (directions cr)) as Hr.
  { destruct Hret as [[_ Hret]|(_ & -> & _)]; [|done].
    destruct (return_to_nest_effect _ _ _ _ _ _ (NoDup_loaded_of c) Hret)
      as (arr & _ & _ & _ & _ & _ & _ & _ & _ & _ & _ & _ & Hp).
    by rewrite Hp. }
  destruct Hexp as [[_ Hexp]|(_ & ->)]; [|done].
  apply explore_inv in Hexp as (c3 & c4 & c5 & H3 & H4 & H5 & H6).
  pose proof (NoDup_unloaded_of c) as Hnd.
  destruct (grow_older_effect _ _ _ Hnd H4) as (_ & _ & _ & _ & _ & _ & _ & Hd4).
  destruct (pick_food_effect _ _ _ _ Hnd H6) as (_ & _ & _ & _ & Hd6 & _).
  rewrite Hd6. eapply kill_old_dirs; [exact H5 | by left |]. rewrite Hd4.
  destruct (move_ants_effect _ _ _ _ _ _ Hnd H3)
    as (c1 & senses & ex & fo & _ & _ & _ & _ & _ & _ & _ & _ & _ & _
        & _ & _ & Hsame & _ & Hmoves & _).
  apply list.Forall_lookup. intros i d Hi.
  destruct (decide (i ∈ ex)) as [Hiex|Hiex].
  - destruct (Hmoves i Hiex)
      as (s1 & n & a & row & old & sn & prev & j & _ & _ & _ & _ & _
          & _ & _ & _ & _ & Hnew).
    rewrite Hnew in Hi. injection Hi as <-. right.
    change (0 ≤ wrap8 (Nat.iter (S n) lcg s1 `mod` 4) ≤ 3).
    pose proof (Z.mod_pos_bound (Nat.iter (S n) lcg s1) 4 ltac:(lia)) as Hb.
    rewrite wrap8_id; [lia | unfold in_int8; lia].
  - rewrite (Hsame i Hiex) in Hi. by eapply list.Forall_lookup_1.
Qed.

(** X11.  The directions of a colony.  Every direction the colony holds is the
    mark of no direction, given at creation and at death, or one of the four
    numbers 0 to 3 that the retry loop draws: when the colony is created and
    after every tick. *)
Theorem directions_stay_valid pos_nest :
  (∀ nb_ants max_life0 c,
     Colony_init nb_ants pos_nest max_life0 = Ok c → Forall dir_ok (directions c))
  ∧ (∀ fuel c the_maze pos_food pheromon food_counter c' fc' ms,
       Forall dir_ok (directions c) →
       advance fuel c the_maze pos_food pos_nest pheromon food_counter
         = Ok (c', fc', ms) →
       Forall dir_ok (directions c')).
Proof.
  split.
  - intros nb_ants max_life0 c. apply init_dirs.
  - intros fuel c the_maze pos_food pheromon fc c' fc' ms. apply advance_dirs.
Qed.

(** ** When the array operations succeed *)

Lemma lanes_total {A B} (f : A → result B) l :
  (∀ x, x ∈ l → ∃ y, f x = Ok y) → ∃ ys, lanes f l = Ok ys.
Proof.
  induction l as [|x l IH]; intros Hf; simpl; [eauto|].
  destruct (Hf x) as [y Hy]; [left|]. rewrite Hy. simpl.
  destruct IH as [ys Hys]; [intros z Hz; apply Hf; by right|].
  rewrite Hys. simpl. eauto.
Qed.

Lemma take_total {A} (a : list A) idx :
  (∀ i, i ∈ idx → (i < length a)%nat) → ∃ vs, take a idx = Ok vs.
Proof.
  intros Hi. apply lanes_total. intros i Hin.
  destruct (lookup_lt_is_Some_2 a i (Hi i Hin)) as [x Hx].
  exists x. by apply getitem_lookup.
Qed.

Lemma assign_total {A} (ivs : list (nat * A)) a :
  (∀ iv, iv ∈ ivs → (iv.1 < length a)%nat) → ∃ a', assign a ivs = Ok a'.
Proof.
  revert a. induction ivs as [|[i v] ivs IH]; intros a Hi; simpl; [eauto|].
  destruct (decide (i < length a)%nat) as [Hlt|Hge].
  - apply IH. intros iv Hin. rewrite length_insert. apply Hi. by right.
  - exfalso. apply Hge. apply (Hi (i, v)). left.
Qed.

Lemma put_total {A} (a : list A) idx vals :
  length idx = length vals → (∀ i, i ∈ idx → (i < length a)%nat) →
  ∃ a', put a idx vals = Ok a'.
Proof.
  intros Hlen Hi. unfold put. destruct (decide _); [|done].
  apply assign_total. intros [i v] Hin%elem_of_zip_l. by apply Hi.
Qed.

Lemma put_const_total {A} (a : list A) idx v :
  (∀ i, i ∈ idx → (i < length a)%nat) → ∃ a', put_const a idx v = Ok a'.
Proof. intros Hi. apply put_total; [by rewrite length_replicate | done]. Qed.

Lemma compress_total {A} mask (a : list A) :
  length mask = length a → compress mask a = Ok (mask_select mask a).
Proof.
  intros Hlen. unfold compress. destruct (decide _); [|done].
  apply take_nonzero. lia.
Qed.

Lemma np_get_total {A} (a : list A) k :
  0 ≤ k < Z.of_nat (length a) → ∃ x, np_get a k = Ok x.
Proof.
  intros Hk. destruct (lookup_lt_is_Some_2 a (Z.to_nat k)) as [x Hx]; [lia|].
  exists x. apply np_get_nonneg; [lia | done].
Qed.

Lemma np_get2_total {A} (m : list (list A)) r k h w :
  Z.of_nat (length m) = h → Forall (λ row, Z.of_nat (length row) = w) m →
  0 ≤ r < h → 0 ≤ k < w → ∃ x, np_get2 m r k = Ok x.
Proof.
  intros Hh Hw Hr Hk. unfold np_get2.
  destruct (lookup_lt_is_Some_2 m (Z.to_nat r)) as [row Hrow]; [lia|].
  rewrite (np_get_nonneg m r row) by (lia || done). simpl.
  apply np_get_total. rewrite (list.Forall_lookup_1 _ _ _ _ Hw Hrow). done.
Qed.

Lemma alter2_total {A} (ops : list (nat * Z * (A → A))) h :
  (∀ op, op ∈ ops →
     ∃ row, h !! op.1.1 = Some row ∧ 0 ≤ op.1.2 < Z.of_nat (length row)) →
  ∃ h', alter2 h ops = Ok h'.
Proof.
  revert h. induction ops as [|[[i k] f] ops IH]; intros h Hops; simpl; [eauto|].
  destruct (Hops (i, k, f)) as (row & Hrow & Hk); [left|]. simpl in *.
  rewrite (getitem_lookup _ _ _ Hrow). simpl.
  rewrite norm_index_nonneg by done. simpl.
  apply IH. intros [[i' k'] f'] Hin. simpl.
  destruct (Hops (i', k', f')) as (row' & Hrow' & Hk'); [by right|]. simpl in *.
  destruct (decide (i' = i)) as [->|Hne].
  - exists (alter f (Z.to_nat k) row). rewrite list_lookup_insert_eq.
    + split; [done|]. rewrite length_alter. congruence.
    + by eapply lookup_lt_Some.
  - exists row'. by rewrite list_lookup_insert_ne.
Qed.

Lemma alter2_rows {A} (ops : list (nat * Z * (A → A))) h h' n :
  alter2 h ops = Ok h' →
  Forall (λ row, length row = n) h → Forall (λ row, length row = n) h'.
Proof.
  revert h. induction ops as [|[[i k] f] ops IH]; intros h Ha Hh; simpl in Ha.
  - by injection Ha as <-.
  - apply bind_Ok in Ha as (row & Hrow%getitem_Ok & Ha).
    apply bind_Ok in Ha as (j & Hj & Ha).
    eapply IH; [done|]. apply list.Forall_insert; [done|].
    rewrite length_alter. by eapply (list.Forall_lookup_1 _ _ _ _ Hh).
Qed.

Lemma alter2_total_rows {A} (ops : list (nat * Z * (A → A))) h n :
  Forall (λ row, length row = n) h →
  (∀ op, op ∈ ops → (op.1.1 < length h)%nat ∧ 0 ≤ op.1.2 < Z.of_nat n) →
  ∃ h', alter2 h ops = Ok h' ∧ length h' = length h
        ∧ Forall (λ row, length row = n) h'.
Proof.
  intros Hrows Hops. destruct (alter2_total ops h) as [h' Hh'].
  - intros op Hop. destruct (Hops op Hop) as [Hi Hk].
    destruct (lookup_lt_is_Some_2 h op.1.1 Hi) as [row Hrow].
    exists row. split; [done|].
    by rewrite (list.Forall_lookup_1 _ _ _ _ Hrows Hrow).
  - exists h'. split; [done|]. split; [by eapply alter2_length|].
    by eapply alter2_rows.
Qed.

(** ** When the passes succeed *)

Lemma shape_lookup nb_ants max_life0 c i :
  shape_inv nb_ants max_life0 c → (i < nb_ants)%nat →
  ∃ s l ml a row d,
    seeds c !! i = Some s ∧ is_loaded c !! i = Some l ∧ max_life c !! i = Some ml
    ∧ age c !! i = Some a ∧ historic_path c !! i = Some row
    ∧ directions c !! i = Some d ∧ length row = Z.to_nat (max_life0 + 1).
Proof.
  intros (Hs & Hl & Hm & Ha & Hh & Hd & Hrows) Hi.
  destruct (lookup_lt_is_Some_2 (seeds c) i) as [s ?]; [lia|].
  destruct (lookup_lt_is_Some_2 (is_loaded c) i) as [l ?]; [lia|].
  destruct (lookup_lt_is_Some_2 (max_life c) i) as [ml ?]; [lia|].
  destruct (lookup_lt_is_Some_2 (age c) i) as [a ?]; [lia|].
  destruct (lookup_lt_is_Some_2 (historic_path c) i) as [row Hrow]; [lia|].
  destruct (lookup_lt_is_Some_2 (directions c) i) as [d ?]; [lia|].
  exists s, l, ml, a, row, d. split_and!; try done.
  by eapply (list.Forall_lookup_1 _ _ _ _ Hrows).
Qed.

(** The cell an ant stands on can be read when its age is an index of its
    history. *)
Lemma current_total nb_ants max_life0 c i :
  shape_inv nb_ants max_life0 c → (i < nb_ants)%nat →
  (∀ a, age c !! i = Some a → 0 ≤ a ≤ max_life0) →
  ∃ a row p, age c !! i = Some a ∧ historic_path c !! i = Some row
    ∧ np_get row a = Ok p.
Proof.
  intros Hshape Hi Hage.
  destruct (shape_lookup _ _ _ _ Hshape Hi)
    as (s & l & ml & a & row & d & _ & _ & _ & Ha & Hrow & _ & Hlen).
  destruct (np_get_total row a) as [p Hp]; [specialize (Hage a Ha); lia|].
  eauto 10.
Qed.

Lemma return_to_nest_total nb_ants max_life0 c loaded_ants pos_nest food_counter :
  max_life0 < 2147483648 →
  shape_inv nb_ants max_life0 c → NoDup loaded_ants →
  (∀ i, i ∈ loaded_ants → ∃ a, age c !! i = Some a ∧ 1 ≤ a ≤ max_life0) →
  ∃ r, return_to_nest c loaded_ants pos_nest food_counter = Ok r.
Proof.
  intros HM Hshape Hnd Hages.
  pose proof Hshape as (Hs & Hl & Hm & Ha & Hh & Hd & Hrows).
  assert (∀ i, i ∈ loaded_ants → (i < nb_ants)%nat) as Hidx.
  { intros i (a & Hai & _)%Hages. apply lookup_lt_Some in Hai. lia. }
  unfold return_to_nest.
  destruct (take_total (age c) loaded_ants) as [ages Hages1];
    [intros i Hi; specialize (Hidx i Hi); lia|].
  rewrite Hages1. simpl.
  destruct (put_total (age c) loaded_ants ((λ a, wrap64 (a - 1)) <$> ages))
    as [age1 Hage1].
  { rewrite length_fmap. symmetry. by eapply take_length. }
  { intros i Hi. specialize (Hidx i Hi). lia. }
  rewrite Hage1. simpl.
  match goal with |- ∃ r, lanes ?f _ ≫= _ = _ =>
    destruct (lanes_total f loaded_ants) as [tmp Htmp] end.
  { intros i Hi. destruct (Hages i Hi) as (a & Hai & Hrange).
    apply list_elem_of_lookup in Hi as Hn. destruct Hn as [n Hn].
    destruct (take_lookup _ _ _ _ _ Hages1 Hn) as (a' & Hvn & Ha').
    assert (a' = a) as -> by congruence.
    assert (age1 !! i = Some (wrap64 (a - 1))) as Hnew.
    { eapply put_in; [exact Hage1|done|exact Hn|]. by rewrite list_lookup_fmap, Hvn. }
    rewrite (getitem_lookup _ _ _ Hnew). simpl.
    destruct (shape_lookup _ _ _ _ Hshape (Hidx i Hi))
      as (_ & _ & _ & _ & row & _ & _ & _ & _ & _ & Hrow & _ & Hlen).
    rewrite (getitem_lookup _ _ _ Hrow). simpl.
    rewrite wrap64_id by lia.
    destruct (np_get_total row (a - 1)) as [p Hp]; [lia|].
    rewrite Hp. simpl. eauto. }
  rewrite Htmp. simpl.
  destruct (existsb _ tmp); [|eauto].
  destruct (decide _); [|eauto].
  rewrite take_nonzero
    by (rewrite length_fmap, (lanes_length _ _ _ Htmp); lia).
  simpl.
  assert (∀ i, i ∈ mask_select ((λ b : bool * bool, b.1 && b.2) <$> tmp) loaded_ants →
            (i < nb_ants)%nat) as Hsel.
  { intros i (n & _ & Hn)%elem_of_mask_select. apply Hidx.
    by eapply list_elem_of_lookup_2. }
  destruct (put_const_total (is_loaded c)
              (mask_select ((λ b : bool * bool, b.1 && b.2) <$> tmp) loaded_ants)
              UNLOADED) as [l1 Hl1];
    [intros i Hi; specialize (Hsel i Hi); lia|].
  rewrite Hl1. simpl.
  destruct (put_const_total age1
              (mask_select ((λ b : bool * bool, b.1 && b.2) <$> tmp) loaded_ants)
              0) as [a2 Ha2].
  { intros i Hi. specialize (Hsel i Hi). rewrite (put_length _ _ _ _ Hage1). lia. }
  rewrite Ha2. simpl. eauto.
Qed.

Lemma advance_seeds_total c unloaded_ants :
  (∀ i, i ∈ unloaded_ants → (i < length (seeds c))%nat) →
  ∃ c1, advance_seeds c unloaded_ants = Ok c1.
Proof.
  intros Hidx. unfold advance_seeds.
  destruct (take_total (seeds c) unloaded_ants Hidx) as [ss Hss].
  rewrite Hss. simpl.
  destruct (put_total (seeds c) unloaded_ants (lcg <$> ss)) as [s1 Hs1]; [|done|].
  { rewrite length_fmap. symmetry. by eapply take_length. }
  rewrite Hs1. simpl. eauto.
Qed.

Lemma sense_cell_total the_maze pheromon h w p :
  maze_wf the_maze h w → pheromon_wf pheromon h w → in_grid h w p →
  ∃ sn, sense_cell the_maze pheromon p = Ok sn.
Proof.
  intros (Hh & Hw & Hbh & Hbw & _) [Hph Hpw] [Hr Hk]. unfold sense_cell.
  destruct (np_get2_total the_maze p.1 p.2 h w) as [cell ->]; try done. simpl.
  rewrite !wrap16_id by (unfold in_int16; lia).
  destruct (np_get2_total pheromon p.1 (p.2 + 1) (h + 2) (w + 2)) as [pn ->];
    try done; try lia. simpl.
  destruct (np_get2_total pheromon (p.1 + 1) (p.2 + 2) (h + 2) (w + 2)) as [pe ->];
    try done; try lia. simpl.
  destruct (np_get2_total pheromon (p.1 + 2) (p.2 + 1) (h + 2) (w + 2)) as [ps ->];
    try done; try lia. simpl.
  destruct (np_get2_total pheromon (p.1 + 1) p.2 (h + 2) (w + 2)) as [pw ->];
    try done; try lia. simpl. eauto.
Qed.

Lemma current_positions_total nb_ants max_life0 c :
  shape_inv nb_ants max_life0 c →
  (∀ i a, age c !! i = Some a → 0 ≤ a ≤ max_life0) →
  ∃ ps, current_positions c = Ok ps.
Proof.
  intros Hshape Hage. pose proof Hshape as (Hs & _ & _ & Ha & _).
  unfold current_positions. destruct (decide _) as [_|Hne]; [|congruence].
  apply lanes_total. intros i [_ Hi]%elem_of_seq. simpl in Hi.
  destruct (current_total nb_ants max_life0 c i Hshape ltac:(lia) (Hage i))
    as (a & row & p & Hai & Hrow & Hp).
  rewrite (getitem_lookup _ _ _ Hai). simpl.
  rewrite (getitem_lookup _ _ _ Hrow). simpl. eauto.
Qed.

Lemma sense_all_total nb_ants max_life0 c the_maze pheromon h w :
  maze_wf the_maze h w → pheromon_wf pheromon h w →
  shape_inv nb_ants max_life0 c → path_in_grid h w c →
  (∀ i a, age c !! i = Some a → 0 ≤ a ≤ max_life0) →
  ∃ senses, sense_all c the_maze pheromon = Ok senses.
Proof.
  intros Hwf Hpwf Hshape Hin Hage. unfold sense_all.
  destruct (current_positions_total _ _ _ Hshape Hage) as [ps Hps].
  rewrite Hps. simpl.
  destruct (current_positions_effect _ _ Hps) as (_ & _ & Hpos).
  apply lanes_total. intros p [i Hi]%list_elem_of_lookup.
  destruct (Hpos i p Hi) as (a & row & _ & Hrow & Hp).
  eapply sense_cell_total; [done|done|]. by eapply current_in_grid.
Qed.

Lemma mask_total (f : nat → result bool) unloaded_ants :
  (∀ i, i ∈ unloaded_ants → ∃ b, f i = Ok b) →
  ∃ sel, (mask ← lanes f unloaded_ants; take unloaded_ants (nonzero mask)) = Ok sel.
Proof.
  intros Hf. destruct (lanes_total f unloaded_ants Hf) as [mask Hmask].
  rewrite Hmask. simpl.
  rewrite take_nonzero by (rewrite (lanes_length _ _ _ Hmask); lia). eauto.
Qed.

Lemma exploring_ants_total choices senses unloaded_ants :
  (∀ i, i ∈ unloaded_ants →
     (i < length choices)%nat ∧ (i < length senses)%nat) →
  ∃ ex, exploring_ants choices senses unloaded_ants = Ok ex.
Proof.
  intros Hidx. unfold exploring_ants, explore_mask. apply mask_total.
  intros i [Hc Hs]%Hidx.
  destruct (lookup_lt_is_Some_2 choices i Hc) as [ch Hch].
  destruct (lookup_lt_is_Some_2 senses i Hs) as [sn Hsn].
  rewrite (getitem_lookup _ _ _ Hch). simpl.
  rewrite (getitem_lookup _ _ _ Hsn). simpl. eauto.
Qed.

Lemma following_ants_total choices senses unloaded_ants :
  (∀ i, i ∈ unloaded_ants →
     (i < length choices)%nat ∧ (i < length senses)%nat) →
  ∃ fo, following_ants choices senses unloaded_ants = Ok fo.
Proof.
  intros Hidx. unfold following_ants, follow_mask. apply mask_total.
  intros i [Hc Hs]%Hidx.
  destruct (lookup_lt_is_Some_2 choices i Hc) as [ch Hch].
  destruct (lookup_lt_is_Some_2 senses i Hs) as [sn Hsn].
  rewrite (getitem_lookup _ _ _ Hch). simpl.
  rewrite (getitem_lookup _ _ _ Hsn). simpl. eauto.
Qed.

(** What an iteration of the retry loop needs of the colony, and keeps. *)
Lemma retry_iter_total nb_ants max_life0 c senses valid_moves ex :
  max_life0 < 2147483648 →
  shape_inv nb_ants max_life0 c → length valid_moves = nb_ants →
  length senses = nb_ants →
  (∀ i, i ∈ ex → ∃ a, age c !! i = Some a ∧ 0 ≤ a < max_life0) →
  ∃ st, retry_iter c senses valid_moves ex = Ok st.
Proof.
  intros HM Hshape Hlvm Hlsn Hages.
  pose proof Hshape as (Hs & Hl & Hm & Ha & Hh & Hd & Hrows).
  assert (∀ i, i ∈ ex → (i < nb_ants)%nat) as Hidx.
  { intros i (a & Hai & _)%Hages. apply lookup_lt_Some in Hai. lia. }
  unfold retry_iter.
  destruct (take_total valid_moves ex) as [vmx Hvmx];
    [intros i Hi; specialize (Hidx i Hi); lia|].
  rewrite Hvmx. simpl.
  rewrite compress_total by (rewrite length_fmap; by eapply take_length).
  simpl. set (to_move := mask_select (negb <$> vmx) ex).
  assert (∀ i, i ∈ to_move → i ∈ ex) as Hsub.
  { intros i (n & _ & Hn)%elem_of_mask_select. by eapply list_elem_of_lookup_2. }
  set (c1 := set_seeds c (lcg <$> seeds c)).
  destruct (lanes_total (try_move c1 senses) to_move) as [moves Hmoves].
  { intros i Hi%Hsub. destruct (Hages i Hi) as (a & Hai & Hrange).
    destruct (shape_lookup _ _ _ _ Hshape (Hidx i Hi))
      as (s & _ & _ & a' & row & d & Hsi & _ & _ & Hai' & Hrow & Hdi & Hlen).
    assert (a' = a) as -> by congruence.
    destruct (np_get_total row a) as [p Hp]; [lia|].
    destruct (lookup_lt_is_Some_2 senses i) as [sn Hsn];
      [specialize (Hidx i Hi); lia|].
    eexists. apply try_move_inv. exists (lcg s), a, row, p, sn, d.
    split_and!; try done. simpl. by rewrite list_lookup_fmap, Hsi. }
  rewrite Hmoves. simpl.
  pose proof (lanes_length _ _ _ Hmoves) as Hlm.
  destruct (put_total valid_moves to_move (mv_valid <$> moves)) as [vm1 Hvm1].
  { by rewrite length_fmap. }
  { intros i Hi%Hsub%Hidx. lia. }
  rewrite Hvm1. simpl.
  destruct (take_total vm1 to_move) as [vmt Hvmt].
  { intros i Hi%Hsub%Hidx. rewrite (put_length _ _ _ _ Hvm1). lia. }
  rewrite Hvmt. simpl.
  pose proof (take_length _ _ _ Hvmt) as Hlt.
  rewrite take_nonzero by lia. simpl.
  set (valid := mask_select vmt to_move).
  assert (∀ i, i ∈ valid → i ∈ ex) as Hsubv.
  { intros i (n & _ & Hn)%elem_of_mask_select. apply Hsub.
    by eapply list_elem_of_lookup_2. }
  destruct (take_total (age c) valid) as [ages Hagesv].
  { intros i Hi%Hsubv%Hidx. lia. }
  change (age c1) with (age c).
  rewrite Hagesv. simpl.
  rewrite !compress_total by (rewrite length_fmap; lia). simpl.
  match goal with |- ∃ st, alter2 ?h ?ops ≫= _ = _ =>
    destruct (alter2_total ops h) as [path1 Hpath1] end.
  { intros [[i k] f] Hin%elem_of_zip_l. simpl.
    apply elem_of_lookup_zip_with in Hin as (n & i' & k' & Heq & Hn & Hk).
    injection Heq as -> ->.
    apply list_lookup_fmap_Some in Hk as (a & -> & Ha').
    destruct (take_lookup _ _ _ _ _ Hagesv Hn) as (a' & Ha'' & Hai).
    assert (a' = a) as -> by congruence. simpl in Hai.
    assert (i' ∈ ex) as Hi by (apply Hsubv; by eapply list_elem_of_lookup_2).
    destruct (Hages i' Hi) as (a2 & Ha2 & Hrange).
    assert (a2 = a) as -> by congruence.
    destruct (shape_lookup _ _ _ _ Hshape (Hidx i' Hi))
      as (_ & _ & _ & _ & row & _ & _ & _ & _ & _ & Hrow & _ & Hlen).
    exists row. split; [done|]. rewrite wrap64_id by lia. lia. }
  rewrite Hpath1. simpl.
  destruct (put_total (directions c) valid
              (wrap8 <$> mask_select vmt (mv_dir <$> moves))) as [d1 Hd1].
  { rewrite length_fmap. apply mask_select_length. rewrite length_fmap. lia. }
  { intros i Hi%Hsubv%Hidx. lia. }
  rewrite Hd1. simpl. eauto.
Qed.

(** The writes at age + 1 of the ants of an index array. *)
Lemma next_index_ok {A} nb_ants max_life0 (ages_of : list Z) idx ages
    (fs : list (A → A)) :
  max_life0 < 2147483648 →
  take ages_of idx = Ok ages →
  (∀ i, i ∈ idx → (i < nb_ants)%nat
                  ∧ ∃ a, ages_of !! i = Some a ∧ 0 ≤ a < max_life0) →
  ∀ op, op ∈ zip (zip idx ((λ a, wrap64 (a + 1)) <$> ages)) fs →
    (op.1.1 < nb_ants)%nat ∧ 0 ≤ op.1.2 < Z.of_nat (Z.to_nat (max_life0 + 1)).
Proof.
  intros HM Htake Hidx [[i k] f] Hin%elem_of_zip_l. simpl.
  apply elem_of_lookup_zip_with in Hin as (n & i' & k' & Heq & Hn & Hk).
  injection Heq as -> ->.
  apply list_lookup_fmap_Some in Hk as (a & -> & Ha').
  destruct (take_lookup _ _ _ _ _ Htake Hn) as (a' & Ha'' & Hai).
  assert (a' = a) as -> by congruence.
  destruct (Hidx i') as (Hi & a2 & Ha2 & Hrange); [by eapply list_elem_of_lookup_2|].
  assert (a2 = a) as -> by congruence.
  split; [done|]. rewrite wrap64_id by lia. lia.
Qed.

Lemma shape_of_rows nb_ants max_life0 c c' :
  shape_inv nb_ants max_life0 c →
  length (seeds c') = length (seeds c) → length (is_loaded c') = length (is_loaded c) →
  length (max_life c') = length (max_life c) → length (age c') = length (age c) →
  length (historic_path c') = length (historic_path c) →
  length (directions c') = length (directions c) →
  (∀ i row, historic_path c !! i = Some row →
     ∃ row', historic_path c' !! i = Some row' ∧ length row' = length row) →
  shape_inv nb_ants max_life0 c'.
Proof.
  intros (Hs & Hl & Hm & Ha & Hh & Hd & Hrows) Hs' Hl' Hm' Ha' Hh' Hd' Hr.
  unfold shape_inv. split_and!; try congruence.
  apply list.Forall_lookup. intros i row' Hrow'.
  destruct (lookup_lt_is_Some_2 (historic_path c) i) as [row Hrow];
    [apply lookup_lt_Some in Hrow'; lia|].
  destruct (Hr i row Hrow) as (row'' & Hrow'' & Hlen).
  assert (row'' = row') as -> by congruence.
  rewrite Hlen. by eapply (list.Forall_lookup_1 _ _ _ _ Hrows).
Qed.

Lemma retry_iter_shape nb_ants max_life0 c senses vm ex c' vm' :
  NoDup ex → retry_iter c senses vm ex = Ok (c', vm') →
  shape_inv nb_ants max_life0 c →
  shape_inv nb_ants max_life0 c' ∧ age c' = age c ∧ length vm' = length vm.
Proof.
  intros Hnd Hiter Hshape.
  destruct (retry_iter_effect _ _ _ _ _ _ Hnd Hiter)
    as (Hs & Hl & Hm & Ha & Hlh & Hld & Hlv & Hout & Hin).
  split; [|done].
  eapply shape_of_rows; [done|..]; try congruence.
  { by rewrite Hs, length_fmap. }
  intros i row Hrow.
  destruct (decide (i ∈ ex ∧ vm !! i = Some false)) as [[Hi Hv]|Hno].
  - destruct (Hin i Hi Hv) as (mv & _ & _ & Hcase).
    destruct (mv_valid mv).
    + destruct Hcase as (a & row2 & j & _ & Hrow2 & _ & Hnew & _).
      assert (row2 = row) as -> by congruence.
      eexists. split; [done|]. by rewrite length_insert.
    + destruct Hcase as [Hsame _]. exists row. by rewrite Hsame.
  - destruct (Hout i Hno) as (Hsame & _). exists row. by rewrite Hsame.
Qed.

(** The retry loop stops with a result or runs out of fuel: it raises
    nothing else. *)
Lemma retry_loop_total nb_ants max_life0 senses ex fuel c valid_moves :
  max_life0 < 2147483648 → NoDup ex →
  shape_inv nb_ants max_life0 c → length valid_moves = nb_ants →
  length senses = nb_ants →
  (∀ i, i ∈ ex → ∃ a, age c !! i = Some a ∧ 0 ≤ a < max_life0) →
  (∃ st, retry_loop fuel c senses valid_moves ex = Ok st)
  ∨ retry_loop fuel c senses valid_moves ex = Raise Diverged.
Proof.
  intros HM Hnd. revert c valid_moves.
  induction fuel as [|fuel IH]; intros c vm Hshape Hlvm Hlsn Hages;
    assert (∀ i, i ∈ ex → (i < length vm)%nat) as Hidx
      by (intros i (a & Hai & _)%Hages; apply lookup_lt_Some in Hai;
          destruct Hshape as (_ & _ & _ & Ha & _); lia);
    destruct (take_total vm ex Hidx) as [vmx Hvmx]; simpl; rewrite Hvmx; simpl;
    destruct (existsb negb vmx); eauto.
  destruct (retry_iter_total _ _ _ _ _ _ HM Hshape Hlvm Hlsn Hages) as [[c1 vm1] Hiter].
  rewrite Hiter. simpl.
  destruct (retry_iter_shape _ _ _ _ _ _ _ _ Hnd Hiter Hshape) as (Hshape1 & Hage1 & Hlv1).
  apply IH; [done | congruence | done | by rewrite Hage1].
Qed.

Lemma explore_moves_total nb_ants max_life0 fuel c choices senses unloaded_ants :
  max_life0 < 2147483648 → NoDup unloaded_ants →
  shape_inv nb_ants max_life0 c → length choices = nb_ants →
  length senses = nb_ants →
  (∀ i, i ∈ unloaded_ants → ∃ a, age c !! i = Some a ∧ 0 ≤ a < max_life0) →
  (∃ c2, explore_moves fuel c choices senses unloaded_ants = Ok c2)
  ∨ explore_moves fuel c choices senses unloaded_ants = Raise Diverged.
Proof.
  intros HM Hnd Hshape Hlc Hls Hages. unfold explore_moves.
  assert (∀ i, i ∈ unloaded_ants → (i < nb_ants)%nat) as Hidx.
  { intros i (a & Hai & _)%Hages. apply lookup_lt_Some in Hai.
    destruct Hshape as (_ & _ & _ & Ha & _). lia. }
  destruct (exploring_ants_total choices senses unloaded_ants) as [ex Hex].
  { intros i Hi%Hidx. lia. }
  rewrite Hex. simpl. destruct (decide _); [|eauto].
  destruct (exploring_ants_spec _ _ _ _ Hex Hnd) as (Hndx & _ & Hexs).
  destruct (retry_loop_total nb_ants max_life0 senses ex fuel c
              (replicate (length choices) false)) as [[st Hst]|Hdiv];
    try done.
  - by rewrite length_replicate.
  - intros i [Hi _]%Hexs. by apply Hages.
  - rewrite Hst. simpl. eauto.
  - rewrite Hdiv. simpl. by right.
Qed.

Lemma explore_moves_shape nb_ants max_life0 fuel c choices senses unloaded_ants c2 :
  NoDup unloaded_ants →
  explore_moves fuel c choices senses unloaded_ants = Ok c2 →
  shape_inv nb_ants max_life0 c →
  shape_inv nb_ants max_life0 c2 ∧ age c2 = age c.
Proof.
  intros Hnd Hc2 Hshape.
  destruct (explore_moves_effect _ _ _ _ _ _ Hnd Hc2)
    as (ex & _ & Hl & Hm & Ha & Hls & Hlh & Hld & _ & Hout & Hin).
  split; [|done].
  eapply shape_of_rows; [done|..]; try congruence.
  intros i row Hrow. destruct (decide (i ∈ ex)) as [Hi|Hi].
  - destruct (Hin i Hi)
      as (s0 & n & a & row2 & old & sn & prev & j & _ & _ & Hrow2 & _ & _ & _
          & _ & _ & Hnew & _).
    assert (row2 = row) as -> by congruence.
    eexists. split; [done|]. by rewrite length_insert.
  - destruct (Hout i Hi) as [Hsame _]. exists row. by rewrite Hsame.
Qed.

Lemma follow_moves_total nb_ants max_life0 c choices senses unloaded_ants :
  max_life0 < 2147483648 → NoDup unloaded_ants →
  shape_inv nb_ants max_life0 c → length choices = nb_ants →
  length senses = nb_ants →
  (∀ i, i ∈ unloaded_ants → ∃ a, age c !! i = Some a ∧ 0 ≤ a < max_life0) →
  ∃ c3, follow_moves c choices senses unloaded_ants = Ok c3.
Proof.
  intros HM Hnd Hshape Hlc Hls Hages. unfold follow_moves.
  pose proof Hshape as (_ & _ & _ & Ha & Hh & _ & Hrows).
  assert (∀ i, i ∈ unloaded_ants → (i < nb_ants)%nat) as Hidx.
  { intros i (a & Hai & _)%Hages. apply lookup_lt_Some in Hai. lia. }
  destruct (following_ants_total choices senses unloaded_ants) as [fo Hfo].
  { intros i Hi%Hidx. lia. }
  rewrite Hfo. simpl. destruct (decide _); [|eauto].
  destruct (following_ants_spec _ _ _ _ Hfo Hnd) as (Hndf & Hfos).
  assert (∀ i, i ∈ fo → (i < nb_ants)%nat
                        ∧ ∃ a, age c !! i = Some a ∧ 0 ≤ a < max_life0) as Hfoidx.
  { intros i [Hi _]%Hfos. split; [by apply Hidx | by apply Hages]. }
  destruct (take_total (age c) fo) as [ages Htake].
  { intros i [Hi _]%Hfoidx. lia. }
  rewrite Htake. simpl.
  match goal with |- ∃ c3, lanes ?f fo ≫= _ = _ =>
    destruct (lanes_total f fo) as [cur Hcur] end.
  { intros i [Hi (a & Hai & Hrange)]%Hfoidx.
    destruct (current_total nb_ants max_life0 c i Hshape Hi) as (a' & row & p & Ha' & Hrow & Hp).
    { intros a2 Ha2. assert (a2 = a) as -> by congruence. lia. }
    rewrite (getitem_lookup _ _ _ Ha'). simpl.
    rewrite (getitem_lookup _ _ _ Hrow). simpl. eauto. }
  rewrite Hcur. simpl.
  pose proof (λ fs, next_index_ok (A := pos) nb_ants max_life0 (age c) fo ages fs
                     HM Htake Hfoidx) as Hops.
  match goal with |- ∃ c3, alter2 ?h ?ops ≫= _ = _ =>
    destruct (alter2_total_rows ops h (Z.to_nat (max_life0 + 1)) Hrows)
      as (path1 & Hp1 & Hl1 & Hr1) end.
  { intros op Hop. rewrite Hh. by apply Hops in Hop. }
  rewrite Hp1. simpl.
  destruct (take_total senses fo) as [sns Hsns].
  { intros i [Hi _]%Hfoidx. lia. }
  rewrite Hsns. simpl.
  match goal with |- ∃ c3, alter2 ?h ?ops ≫= _ = _ =>
    destruct (alter2_total_rows ops h (Z.to_nat (max_life0 + 1)) Hr1)
      as (path2 & Hp2 & Hl2 & Hr2) end.
  { intros op Hop. rewrite Hl1, Hh. by apply Hops in Hop. }
  rewrite Hp2. simpl.
  match goal with |- ∃ c3, alter2 ?h ?ops ≫= _ = _ =>
    destruct (alter2_total_rows ops h (Z.to_nat (max_life0 + 1)) Hr2)
      as (path3 & Hp3 & Hl3 & Hr3) end.
  { intros op Hop. rewrite Hl2, Hl1, Hh. by apply Hops in Hop. }
  rewrite Hp3. simpl.
  match goal with |- ∃ c3, alter2 ?h ?ops ≫= _ = _ =>
    destruct (alter2_total_rows ops h (Z.to_nat (max_life0 + 1)) Hr3)
      as (path4 & Hp4 & Hl4 & Hr4) end.
  { intros op Hop. rewrite Hl3, Hl2, Hl1, Hh. by apply Hops in Hop. }
  rewrite Hp4. simpl.
  match goal with |- ∃ c3, alter2 ?h ?ops ≫= _ = _ =>
    destruct (alter2_total_rows ops h (Z.to_nat (max_life0 + 1)) Hr4)
      as (path5 & Hp5 & Hl5 & Hr5) end.
  { intros op Hop. rewrite Hl4, Hl3, Hl2, Hl1, Hh. by apply Hops in Hop. }
  rewrite Hp5. simpl. eauto.
Qed.

Lemma grow_older_total c unloaded_ants :
  (∀ i, i ∈ unloaded_ants → (i < length (age c))%nat) →
  ∃ c4, grow_older c unloaded_ants = Ok c4.
Proof.
  intros Hidx. unfold grow_older. destruct (decide _); [|eauto].
  destruct (take_total (age c) unloaded_ants Hidx) as [ages Hages].
  rewrite Hages. simpl.
  destruct (put_total (age c) unloaded_ants ((λ a, wrap64 (a + 1)) <$> ages))
    as [a1 Ha1]; [|done|].
  { rewrite length_fmap. symmetry. by eapply take_length. }
  rewrite Ha1. simpl. eauto.
Qed.

Lemma kill_old_total nb_ants max_life0 c pos_nest :
  0 ≤ max_life0 → shape_inv nb_ants max_life0 c →
  ∃ c5, kill_old c pos_nest = Ok c5.
Proof.
  intros HM (Hs & Hl & Hm & Ha & Hh & Hd & Hrows). unfold kill_old.
  destruct (decide _) as [_|Hne]; [|congruence].
  destruct (decide _); [|eauto].
  set (dying := nonzero (zip_with Z.eqb (age c) (max_life c))).
  assert (∀ i, i ∈ dying → (i < nb_ants)%nat) as Hidx.
  { intros i Hi%elem_of_nonzero. apply lookup_lt_Some in Hi.
    rewrite length_zip_with in Hi. lia. }
  destruct (put_const_total (age c) dying 0) as [a1 Ha1];
    [intros i Hi%Hidx; lia|].
  rewrite Ha1. simpl.
  match goal with |- ∃ c5, alter2 ?h ?ops ≫= _ = _ =>
    destruct (alter2_total_rows ops h (Z.to_nat (max_life0 + 1)) Hrows)
      as (path1 & Hp1 & Hl1 & Hr1) end.
  { intros op (i & -> & Hi%Hidx)%list_elem_of_fmap. simpl. lia. }
  rewrite Hp1. simpl.
  match goal with |- ∃ c5, alter2 ?h ?ops ≫= _ = _ =>
    destruct (alter2_total_rows ops h (Z.to_nat (max_life0 + 1)) Hr1)
      as (path2 & Hp2 & Hl2 & Hr2) end.
  { intros op (i & -> & Hi%Hidx)%list_elem_of_fmap. simpl. lia. }
  rewrite Hp2. simpl.
  destruct (put_const_total (directions c) dying (wrap8 DIR_NONE)) as [d1 Hd1];
    [intros i Hi%Hidx; lia|].
  rewrite Hd1. simpl. eauto.
Qed.

Lemma pick_food_total nb_ants max_life0 c unloaded_ants pos_food :
  shape_inv nb_ants max_life0 c →
  (∀ i, i ∈ unloaded_ants → (i < nb_ants)%nat) →
  (∀ i a, age c !! i = Some a → 0 ≤ a ≤ max_life0) →
  ∃ c', pick_food c unloaded_ants pos_food = Ok c'.
Proof.
  intros Hshape Hidx Hages. unfold pick_food.
  match goal with |- ∃ c', lanes ?f _ ≫= _ = _ =>
    destruct (lanes_total f unloaded_ants) as [at_food Hat] end.
  { intros i Hi%Hidx.
    destruct (current_total nb_ants max_life0 c i Hshape Hi (Hages i))
      as (a & row & p & Ha & Hrow & Hp).
    rewrite (getitem_lookup _ _ _ Ha). simpl.
    rewrite (getitem_lookup _ _ _ Hrow). simpl. rewrite Hp. simpl. eauto. }
  rewrite Hat. simpl. destruct (decide _); [|eauto].
  rewrite take_nonzero by (rewrite (lanes_length _ _ _ Hat); lia). simpl.
  destruct (put_const_total (is_loaded c) (mask_select at_food unloaded_ants) LOADED)
    as [l1 Hl1].
  { intros i (n & _ & Hn)%elem_of_mask_select.
    destruct Hshape as (_ & Hl & _).
    rewrite Hl. apply Hidx. by eapply list_elem_of_lookup_2. }
  rewrite Hl1. simpl. eauto.
Qed.

Lemma marks_total nb_ants max_life0 c the_maze h w :
  maze_wf the_maze h w → shape_inv nb_ants max_life0 c → path_in_grid h w c →
  (∀ i a, age c !! i = Some a → 0 ≤ a ≤ max_life0) →
  ∃ ms, marks c the_maze = Ok ms.
Proof.
  intros Hwf Hshape Hin Hages. unfold marks.
  destruct (current_positions_total _ _ _ Hshape Hages) as [ps Hps].
  rewrite Hps. simpl.
  destruct (current_positions_effect _ _ Hps) as (Hlps & _ & Hpos).
  destruct (lanes_total (λ p : pos, np_get2 the_maze p.1 p.2) ps) as [cells Hcells].
  { intros p [i Hi]%list_elem_of_lookup.
    destruct (Hpos i p Hi) as (a & row & _ & Hrow & Hp).
    destruct (current_in_grid _ _ _ _ _ _ _ Hin Hrow Hp) as [Hr Hk].
    destruct Hwf as (Hh & Hw & _).
    by eapply np_get2_total. }
  rewrite Hcells. simpl.
  apply lanes_total. intros i [_ Hi]%elem_of_seq. simpl in Hi.
  pose proof Hshape as (Hs & _ & _ & _ & _ & Hd & _).
  destruct (current_total nb_ants max_life0 c i Hshape ltac:(lia) (Hages i))
    as (a & row & p & Ha & Hrow & Hp).
  rewrite (getitem_lookup _ _ _ Ha). simpl.
  rewrite (getitem_lookup _ _ _ Hrow). simpl. rewrite Hp. simpl.
  destruct (lookup_lt_is_Some_2 cells i) as [cell Hcell].
  { rewrite (lanes_length _ _ _ Hcells). lia. }
  rewrite (getitem_lookup _ _ _ Hcell). simpl. eauto.
Qed.

Lemma move_ants_shape nb_ants max_life0 fuel c unloaded_ants the_maze pheromon c3 :
  NoDup unloaded_ants →
  move_ants fuel c unloaded_ants the_maze pheromon = Ok c3 →
  shape_inv nb_ants max_life0 c → shape_inv nb_ants max_life0 c3.
Proof.
  intros Hnd H3 Hshape.
  destruct (move_ants_effect _ _ _ _ _ _ Hnd H3)
    as (_ & _ & _ & _ & _ & _ & _ & _ & Hl & Hm & Ha & Hls & Hlh & Hld & _).
  destruct (move_ants_rows _ _ _ _ _ _ Hnd H3) as (_ & _ & _ & Hrows).
  eapply shape_of_rows; [done|..]; try congruence.
  intros i row Hrow. destruct (Hrows i row Hrow) as (row3 & Hrow3 & Hcase).
  exists row3. split; [done|].
  destruct Hcase as [->|(a & j & v & _ & _ & ->)]; [done|]. by rewrite length_insert.
Qed.

Lemma move_ants_total nb_ants max_life0 fuel c unloaded_ants the_maze pheromon h w :
  max_life0 < 2147483648 → NoDup unloaded_ants →
  maze_wf the_maze h w → pheromon_wf pheromon h w →
  shape_inv nb_ants max_life0 c → path_in_grid h w c →
  (∀ i a, age c !! i = Some a → 0 ≤ a ≤ max_life0) →
  (∀ i, i ∈ unloaded_ants → ∃ a, age c !! i = Some a ∧ 0 ≤ a < max_life0) →
  (∃ c3, move_ants fuel c unloaded_ants the_maze pheromon = Ok c3)
  ∨ move_ants fuel c unloaded_ants the_maze pheromon = Raise Diverged.
Proof.
  intros HM Hnd Hwf Hpwf Hshape Hin Hall Hages. unfold move_ants.
  pose proof Hshape as (Hs & Hl & Hm & Ha & Hh & Hd & Hrows).
  assert (∀ i, i ∈ unloaded_ants → (i < nb_ants)%nat) as Hidx.
  { intros i (a & Hai & _)%Hages. apply lookup_lt_Some in Hai. lia. }
  destruct (advance_seeds_total c unloaded_ants) as [c1 Hc1];
    [intros i Hi%Hidx; lia|].
  rewrite Hc1. simpl.
  destruct (advance_seeds_effect _ _ _ Hnd Hc1)
    as (_ & _ & Hls1 & Hl1 & Hm1 & Ha1 & Hh1 & Hd1).
  assert (shape_inv nb_ants max_life0 c1) as Hshape1.
  { unfold shape_inv. rewrite Hls1, Hl1, Hm1, Ha1, Hh1, Hd1. done. }
  destruct (sense_all_total nb_ants max_life0 c1 the_maze pheromon h w)
    as [senses Hsenses]; try done.
  { unfold path_in_grid. by rewrite Hh1. }
  { by rewrite Ha1. }
  rewrite Hsenses. simpl.
  destruct (sense_all_effect _ _ _ _ Hsenses) as (Hlsn & _).
  assert (length (choices_of c1) = nb_ants) as Hlch.
  { unfold choices_of. rewrite length_fmap. lia. }
  destruct (explore_moves_total nb_ants max_life0 fuel c1 (choices_of c1) senses
              unloaded_ants) as [[c2 Hc2]|Hdiv]; try done; try lia.
  { by rewrite Ha1. }
  2: { rewrite Hdiv. simpl. by right. }
  rewrite Hc2. simpl. left.
  destruct (explore_moves_shape nb_ants max_life0 _ _ _ _ _ _ Hnd Hc2 Hshape1)
    as [Hshape2 Ha2].
  apply (follow_moves_total nb_ants max_life0); try done; try lia.
  by rewrite Ha2, Ha1.
Qed.

Lemma kill_old_shape nb_ants max_life0 c pos_nest c5 :
  kill_old c pos_nest = Ok c5 → shape_inv nb_ants max_life0 c →
  (∀ i a, age c !! i = Some a → 0 ≤ a ≤ max_life0) →
  shape_inv nb_ants max_life0 c5
  ∧ ∀ i a, age c5 !! i = Some a → 0 ≤ a ≤ max_life0.
Proof.
  intros H5 Hshape Hages.
  destruct (kill_old_effect _ _ _ H5)
    as (Hs5 & Hl5 & Hm5 & Hla5 & _ & Hlh5 & Hld5 & Hkill).
  pose proof Hshape as (_ & _ & _ & Ha & Hh & _).
  assert (∀ i, (i < nb_ants)%nat →
            ∃ a ml, age c !! i = Some a ∧ max_life c !! i = Some ml) as Hboth.
  { intros i Hi.
    destruct (shape_lookup _ _ _ _ Hshape Hi)
      as (_ & _ & ml & a & _ & _ & _ & _ & ? & ? & _). eauto. }
  split.
  - eapply shape_of_rows; [done|..]; try congruence.
    intros i row Hrow. apply lookup_lt_Some in Hrow as Hi. rewrite Hh in Hi.
    destruct (Hboth i Hi) as (a & ml & Hai & Hmi).
    specialize (Hkill i a ml Hai Hmi). destruct (a =? ml).
    + destruct Hkill as (_ & _ & row' & Hrow' & _ & Hnew).
      assert (row' = row) as -> by congruence.
      eexists. split; [done|]. by rewrite length_insert.
    + destruct Hkill as (_ & _ & Hsame). exists row. by rewrite Hsame.
  - intros i a5 Ha5. apply lookup_lt_Some in Ha5 as Hi. rewrite Hla5, Ha in Hi.
    destruct (Hboth i Hi) as (a & ml & Hai & Hmi).
    specialize (Hkill i a ml Hai Hmi). specialize (Hages i a Hai).
    destruct (a =? ml).
    + destruct Hkill as (Hz & _). assert (a5 = 0) by congruence. lia.
    + destruct Hkill as (Hsame & _). assert (a5 = a) by congruence. lia.
Qed.

Lemma explore_total nb_ants max_life0 pos_nest fuel c unloaded_ants the_maze
    pos_food pheromon h w :
  0 ≤ max_life0 < 2147483648 → NoDup unloaded_ants →
  maze_wf the_maze h w → pheromon_wf pheromon h w →
  shape_inv nb_ants max_life0 c → colony_inv nb_ants max_life0 pos_nest c →
  path_in_grid h w c →
  (∀ i, i ∈ unloaded_ants → (i < nb_ants)%nat) →
  (∃ c', explore fuel c unloaded_ants the_maze pos_food pos_nest pheromon = Ok c'
         ∧ ∀ i a, age c' !! i = Some a → 0 ≤ a ≤ max_life0)
  ∨ explore fuel c unloaded_ants the_maze pos_food pos_nest pheromon = Raise Diverged.
Proof.
  intros HM Hnd Hwf Hpwf Hshape [Hlen Hinv] Hin Hidx.
  assert (∀ i a, age c !! i = Some a →
            ∃ ml, max_life c !! i = Some ml ∧ 0 ≤ a < ml ∧ ml ≤ max_life0) as Hages.
  { intros i a Ha. apply lookup_lt_Some in Ha as Hi. rewrite Hlen in Hi.
    destruct (Hinv i Hi) as (a' & ml & _ & _ & Ha' & Hml & _ & _ & _ & Hr & Hm & _).
    assert (a' = a) as -> by congruence. eauto. }
  unfold explore.
  destruct (move_ants_total nb_ants max_life0 fuel c unloaded_ants the_maze
              pheromon h w) as [[c3 H3]|Hdiv]; try done; try lia.
  { intros i a (ml & _ & ? & ?)%Hages. lia. }
  { intros i Hi%Hidx. destruct (lookup_lt_is_Some_2 (age c) i) as [a Ha]; [lia|].
    exists a. split; [done|]. destruct (Hages i a Ha) as (ml & _ & ? & ?). lia. }
  2: { rewrite Hdiv. simpl. by right. }
  rewrite H3. simpl. left.
  pose proof (move_ants_shape nb_ants max_life0 _ _ _ _ _ _ Hnd H3 Hshape) as Hshape3.
  destruct (move_ants_rows _ _ _ _ _ _ Hnd H3) as (_ & Hml3 & Hage3 & _).
  destruct (grow_older_total c3 unloaded_ants) as [c4 H4].
  { intros i Hi%Hidx. rewrite Hage3. lia. }
  rewrite H4. simpl.
  destruct (grow_older_effect _ _ _ Hnd H4)
    as (Hin4 & Hout4 & Hla4 & Hs4 & Hl4 & Hm4 & Hh4 & Hd4).
  assert (shape_inv nb_ants max_life0 c4) as Hshape4.
  { destruct Hshape3 as (? & ? & ? & ? & ? & ? & ?).
    unfold shape_inv. rewrite Hs4, Hl4, Hm4, Hla4, Hh4, Hd4. done. }
  assert (∀ i a, age c4 !! i = Some a → 0 ≤ a ≤ max_life0) as Hages4.
  { intros i a4 Ha4. apply lookup_lt_Some in Ha4 as Hi.
    rewrite Hla4, Hage3 in Hi.
    destruct (lookup_lt_is_Some_2 (age c) i Hi) as [a Ha].
    destruct (Hages i a Ha) as (ml & _ & ? & ?).
    destruct (decide (i ∈ unloaded_ants)) as [Hiu|Hiu].
    - destruct (Hin4 i Hiu) as (a' & Ha' & Hnew). rewrite Hage3 in Ha'.
      assert (a' = a) as -> by congruence.
      rewrite wrap64_id in Hnew by lia. assert (a4 = a + 1) by congruence. lia.
    - rewrite (Hout4 i Hiu), Hage3 in Ha4. assert (a4 = a) by congruence. lia. }
  destruct (kill_old_total nb_ants max_life0 c4 pos_nest) as [c5 H5];
    [lia|done|].
  rewrite H5. simpl.
  destruct (kill_old_shape _ _ _ _ _ H5 Hshape4 Hages4) as [Hshape5 Hages5].
  destruct (pick_food_total nb_ants max_life0 c5 unloaded_ants pos_food)
    as [c' H6]; try done.
  exists c'. split; [done|].
  destruct (pick_food_effect _ _ _ _ Hnd H6) as (_ & _ & -> & _). done.
Qed.

(** X12.  A run in a walled maze.  With the nest in the maze, a life of at
    least one tick and a pheromone array of the size of the maze plus its
    ghost cells, the colony that the constructor makes satisfies
    [tick_inv]; a tick whose food is not on the nest keeps it; and a tick
    on such a colony raises no index or shape error: it returns, or its
    retry loop does not stop within the fuel. *)
Theorem tick_raises_no_index_error nb_ants max_life0 pos_nest the_maze h w :
  1 ≤ max_life0 < 2147483648 → maze_wf the_maze h w → in_grid h w pos_nest →
  (∀ c, Colony_init nb_ants pos_nest max_life0 = Ok c →
        tick_inv nb_ants max_life0 pos_nest h w c)
  ∧ (∀ fuel c pos_food pheromon food_counter c' fc' ms,
       tick_inv nb_ants max_life0 pos_nest h w c → pos_food ≠ pos_nest →
       advance fuel c the_maze pos_food pos_nest pheromon food_counter
         = Ok (c', fc', ms) →
       tick_inv nb_ants max_life0 pos_nest h w c')
  ∧ (∀ fuel c pos_food pheromon food_counter,
       tick_inv nb_ants max_life0 pos_nest h w c → pheromon_wf pheromon h w →
       (∃ r, advance fuel c the_maze pos_food pos_nest pheromon food_counter = Ok r)
       ∨ advance fuel c the_maze pos_food pos_nest pheromon food_counter
         = Raise Diverged).
Proof.
  intros HM Hwf Hnest.
  assert (pos_int16 pos_nest) as Hn16.
  { destruct Hwf as (_ & _ & Hh & Hw & _), Hnest as [Hr Hk].
    split; unfold in_int16; lia. }
  split; [|split].
  - intros c Hc. split; [by apply (init_shape _ _ pos_nest)|].
    split; [by apply init_colony_inv | by eapply (init_in_grid the_maze)].
  - intros fuel c pos_food pheromon fc c' fc' ms (Hshape & Hinv & Hin) Hfood Hadv.
    split; [by destruct (advance_shape _ _ _ _ _ _ _ _ _ _ _ _ Hshape Hadv)|].
    split; [eapply advance_colony_inv; eauto; lia | by eapply advance_in_grid].
  - intros fuel c pos_food pheromon fc (Hshape & Hinv & Hin) Hpwf.
    unfold advance.
    assert (∃ cr fr,
              (if decide (0 < length (loaded_of c))%nat
               then return_to_nest c (loaded_of c) pos_nest fc
               else Ok (c, fc)) = Ok (cr, fr)
              ∧ shape_inv nb_ants max_life0 cr
              ∧ colony_inv nb_ants max_life0 pos_nest cr
              ∧ path_in_grid h w cr) as (cr & fr & -> & Hshaper & Hinvr & Hinr).
    { destruct (decide _); [|by exists c, fc].
      destruct (return_to_nest_total nb_ants max_life0 c (loaded_of c) pos_nest fc)
        as [[cr fr] Hret]; [lia | done | apply NoDup_loaded_of | |].
      - intros i Hi%loaded_of_spec. apply lookup_lt_Some in Hi as Hlt.
        destruct Hshape as (_ & Hl & _). rewrite Hl in Hlt.
        destruct Hinv as [_ Hinv].
        destruct (Hinv i Hlt) as (a & ml & ld & _ & Ha & _ & Hld & _ & _ & ? & ? & Hw).
        exists a. split; [done|].
        assert (ld = LOADED) as -> by congruence. specialize (Hw eq_refl). lia.
      - exists cr, fr. split; [done|].
        split; [by eapply return_to_nest_shape; eauto using NoDup_loaded_of|].
        split; [by eapply return_colony_inv; eauto; lia|].
        destruct (return_to_nest_effect _ _ _ _ _ _ (NoDup_loaded_of c) Hret)
          as (arr & _ & _ & _ & _ & _ & _ & _ & _ & _ & _ & Hp & _).
        unfold path_in_grid. by rewrite Hp. }
    simpl.
    assert ((∃ c2, (if decide (0 < length (unloaded_of c))%nat
                    then explore fuel cr (unloaded_of c) the_maze pos_food
                           pos_nest pheromon
                    else Ok cr) = Ok c2
                   ∧ shape_inv nb_ants max_life0 c2 ∧ path_in_grid h w c2
                   ∧ ∀ i a, age c2 !! i = Some a → 0 ≤ a ≤ max_life0)
            ∨ (if decide (0 < length (unloaded_of c))%nat
               then explore fuel cr (unloaded_of c) the_maze pos_food
                      pos_nest pheromon
               else Ok cr) = Raise Diverged) as [(c2 & -> & Hshape2 & Hin2 & Hages2)| ->];
      [|simpl|by right].
    { destruct (decide _).
      - destruct (explore_total nb_ants max_life0 pos_nest fuel cr (unloaded_of c)
                    the_maze pos_food pheromon h w)
          as [(c2 & Hexp & Hages2)|Hdiv]; try done; try lia.
        + apply NoDup_unloaded_of.
        + intros i Hi%unloaded_of_spec. apply lookup_lt_Some in Hi.
          destruct Hshape as (_ & Hl & _). lia.
        + left. exists c2. split; [done|].
          split; [by eapply explore_shape; eauto using NoDup_unloaded_of|].
          split; [|done].
          eapply explore_in_grid; eauto using NoDup_unloaded_of.
        + by right.
      - left. exists cr. split; [done|]. split; [done|]. split; [done|].
        intros i a Ha. apply lookup_lt_Some in Ha as Hlt.
        destruct Hinvr as [Hlen Hinvr]. rewrite Hlen in Hlt.
        destruct (Hinvr i Hlt) as (a' & ml & _ & _ & Ha' & _ & _ & _ & _ & ? & ? & _).
        assert (a' = a) as -> by congruence. lia. }
    destruct (marks_total nb_ants max_life0 c2 the_maze h w) as [ms Hms]; try done.
    rewrite Hms. simpl. eauto.
Qed.


(** ** The seeds in a tick *)

Lemma iter_fmap_succ {A} (f : A → A) k (l : list A) :
  Nat.iter k f <$> (f <$> l) = Nat.iter (S k) f <$> l.
Proof.
  rewrite <- list_fmap_compose. apply list_fmap_ext. intros _ x _.
  unfold compose. symmetry. apply Nat.iter_succ_r.
Qed.

Lemma retry_loop_seeds fuel c senses vm ex c' vm' :
  NoDup ex → retry_loop fuel c senses vm ex = Ok (c', vm') →
  ∃ k, retry_count fuel c senses vm ex = Ok k
    ∧ seeds c' = Nat.iter k lcg <$> seeds c.
Proof.
  intros Hnd. revert c vm. induction fuel as [|fuel IH]; intros c vm Hl;
    simpl in Hl; apply bind_Ok in Hl as (vmx & Hvmx & Hl); simpl; rewrite Hvmx;
    simpl; destruct (existsb negb vmx); try done;
    try (injection Hl as <- <-; exists 0%nat; simpl; by rewrite list_fmap_id).
  apply bind_Ok in Hl as ([c1 vm1] & Hiter & Hl). simpl in Hl.
  destruct (retry_iter_effect _ _ _ _ _ _ Hnd Hiter) as (Hs & _).
  destruct (IH _ _ Hl) as (k & Hcount & Hk). exists (S k).
  rewrite Hiter. simpl. rewrite Hcount. simpl. split; [done|].
  by rewrite Hk, Hs, iter_fmap_succ.
Qed.

Lemma move_ants_seeds fuel c unloaded_ants the_maze pheromon c3 :
  NoDup unloaded_ants →
  move_ants fuel c unloaded_ants the_maze pheromon = Ok c3 →
  ∃ c1 senses ex k,
    advance_seeds c unloaded_ants = Ok c1
    ∧ sense_all c1 the_maze pheromon = Ok senses
    ∧ exploring_ants (choices_of c1) senses unloaded_ants = Ok ex
    ∧ (if decide (0 < length ex)%nat
       then retry_count fuel c1 senses (replicate (length (choices_of c1)) false) ex
            = Ok k
       else k = 0%nat)
    ∧ seeds c3 = Nat.iter k lcg <$> seeds c1.
Proof.
  intros Hnd H3. unfold move_ants in H3.
  apply bind_Ok in H3 as (c1 & Hc1 & H3).
  apply bind_Ok in H3 as (senses & Hsenses & H3).
  apply bind_Ok in H3 as (c2 & Hc2 & H3).
  destruct (follow_moves_effect _ _ _ _ _ Hnd H3) as (fo & _ & Hs3 & _).
  exists c1, senses. rewrite Hs3.
  unfold explore_moves in Hc2. apply bind_Ok in Hc2 as (ex & Hex & Hc2).
  exists ex.
  destruct (decide _) as [Hpos|Hzero].
  - apply bind_Ok in Hc2 as ([c2' vm'] & Hloop & Hc2). injection Hc2 as <-.
    destruct (exploring_ants_spec _ _ _ _ Hex Hnd) as (Hndx & _).
    destruct (retry_loop_seeds _ _ _ _ _ _ _ Hndx Hloop) as (k & Hcount & Hk).
    exists k. by split_and!.
  - injection Hc2 as <-. exists 0%nat. split_and!; try done.
    simpl. by rewrite list_fmap_id.
Qed.

(** X13.  The seeds in the pass of the unloaded ants.  Every seed advances by
    [k] steps of the recurrence, where [k] is the number of iterations that
    the retry loop runs in this pass (none when no ant explores), and the
    seeds of the ants of [unloaded_ants] by one step more. *)
Theorem tick_seed_steps fuel c unloaded_ants the_maze pos_food pos_nest pheromon c' :
  NoDup unloaded_ants →
  explore fuel c unloaded_ants the_maze pos_food pos_nest pheromon = Ok c' →
  ∃ c1 senses ex k,
    advance_seeds c unloaded_ants = Ok c1
    ∧ sense_all c1 the_maze pheromon = Ok senses
    ∧ exploring_ants (choices_of c1) senses unloaded_ants = Ok ex
    ∧ (if decide (0 < length ex)%nat
       then retry_count fuel c1 senses (replicate (length (choices_of c1)) false) ex
            = Ok k
       else k = 0%nat)
    ∧ ∀ i s, seeds c !! i = Some s →
        seeds c' !! i
        = Some (Nat.iter (if bool_decide (i ∈ unloaded_ants) then S k else k) lcg s).
Proof.
  intros Hnd (c3 & c4 & c5 & H3 & H4 & H5 & H6)%explore_inv.
  destruct (move_ants_seeds _ _ _ _ _ _ Hnd H3)
    as (c1 & senses & ex & k & Hc1 & Hsenses & Hex & Hcount & Hs3).
  destruct (advance_seeds_effect _ _ _ Hnd Hc1) as (Hin1 & Hout1 & _).
  destruct (grow_older_effect _ _ _ Hnd H4) as (_ & _ & _ & Hs4 & _).
  destruct (kill_old_effect _ _ _ H5) as (Hs5 & _).
  destruct (pick_food_effect _ _ _ _ Hnd H6) as (Hs6 & _).
  exists c1, senses, ex, k. split_and!; try done.
  intros i s Hs. rewrite Hs6, Hs5, Hs4, Hs3, list_lookup_fmap.
  case_bool_decide as Hi.
  - destruct (Hin1 i Hi) as (s' & Hs' & ->).
    assert (s' = s) as -> by congruence.
    simpl. by rewrite <- Nat.iter_succ_r.
  - by rewrite Hout1, Hs.
Qed.

(** ** The path an ant has walked *)

(** X14.  The walked path is kept.  In a colony between two ticks, the cells
    of an ant's history up to its age are the path it has walked from the
    nest.  A tick rewrites none of the cells that are still on that path
    after it: up to the smaller of the age before and the age after, the
    history of every ant is what it was. *)
Theorem walked_path_is_kept nb_ants max_life0 fuel c the_maze pos_food pos_nest
    pheromon food_counter c' fc' ms :
  max_life0 < 2147483648 → pos_int16 pos_nest →
  colony_inv nb_ants max_life0 pos_nest c →
  advance fuel c the_maze pos_food pos_nest pheromon food_counter = Ok (c', fc', ms) →
  ∀ i a a' row row',
    age c !! i = Some a → age c' !! i = Some a' →
    historic_path c !! i = Some row → historic_path c' !! i = Some row' →
    ∀ k, (Z.of_nat k ≤ Z.min a a') → row' !! k = row !! k.
Proof.
  intros HM Hn16 [Hlen Hinv] (cr & Hret & Hexp)%advance_inv
    i a a' row row' Ha Ha' Hrow Hrow' k Hk.
  assert (i < nb_ants)%nat as Hi by (apply lookup_lt_Some in Ha; lia).
  destruct (Hinv i Hi)
    as (a0 & ml & ld & row0 & Ha0 & Hml & Hld & Hrow0 & Hnest & Hrange & HmlM & Hwalk).
  assert (a0 = a) as -> by congruence. assert (row0 = row) as -> by congruence.
  (* the return pass *)
  assert (historic_path cr = historic_path c ∧ max_life cr = max_life c
          ∧ ∃ ar, age cr !! i = Some ar ∧ 0 ≤ ar ≤ a
              ∧ (i ∈ unloaded_of c → ar = a)) as (Hhr & Hmr & ar & Har & Harr & Haru).
  { destruct Hret as [[_ Hret]|(_ & -> & _)]; [|by eauto 10 with lia].
    destruct (return_to_nest_effect _ _ _ _ _ _ (NoDup_loaded_of c) Hret)
      as (arr & _ & _ & _ & Hin & Hrest & Hout & _ & _ & _ & Hm & Hh & _).
    split; [done|]. split; [done|].
    destruct (decide (i ∈ loaded_of c)) as [Hil|Hil].
    - assert (ld = LOADED) as -> by (apply loaded_of_spec in Hil; congruence).
      specialize (Hwalk eq_refl).
      assert (i ∉ unloaded_of c) as Hnu.
      { rewrite unloaded_of_spec, Hld. unfold LOADED, UNLOADED. congruence. }
      destruct (decide (i ∈ arr)) as [Hia|Hia].
      + destruct (Hin i Hia) as [Hz _]. exists 0. split; [done|]. split; [lia|done].
      + destruct (Hrest i Hil Hia) as (a2 & Ha2 & Hnew & _).
        assert (a2 = a) as -> by congruence. rewrite wrap64_id in Hnew by lia.
        exists (a - 1). split; [done|]. split; [lia|done].
    - destruct (Hout i Hil) as [Hsame _]. exists a. rewrite Hsame.
      split; [done|]. split; [lia|done]. }
  destruct Hexp as [[_ Hexp]|(_ & ->)].
  2: { rewrite Hhr in Hrow'. congruence. }
  pose proof (NoDup_unloaded_of c) as Hnd.
  destruct (explore_effect _ _ _ _ _ _ _ _ Hnd Hexp)
    as (c3 & H3 & _ & _ & _ & _ & _ & _ & Hages & _).
  destruct (move_ants_rows _ _ _ _ _ _ Hnd H3) as (_ & _ & _ & Hrows3).
  rewrite Hhr in Hrows3. destruct (Hrows3 i row Hrow) as (row3 & Hrow3 & Hcase).
  specialize (Hages i ar ml Har ltac:(congruence)). cbv zeta in Hages.
  (* the cells up to the age are not written by the moves *)
  assert (∀ k', Z.of_nat k' ≤ ar → row3 !! k' = row !! k') as Hkeep.
  { intros k' Hk'. destruct Hcase as [->|(a2 & j & v & Ha2 & Hj & ->)]; [done|].
    assert (a2 = ar) as -> by congruence.
    rewrite wrap64_id in Hj by lia.
    apply norm_index_inv in Hj as [[_ ->]|[? _]]; [|lia].
    apply list_lookup_insert_ne. lia. }
  destruct (_ =? ml) eqn:Hdie.
  - destruct Hages as (Hz & _ & row3' & Hrow3' & _ & Hnew).
    assert (row3' = row3) as -> by congruence.
    assert (a' = 0) as -> by congruence.
    assert (k = 0%nat) as -> by lia.
    rewrite Hnew in Hrow'. injection Hrow' as <-.
    rewrite list_lookup_insert_eq by (apply lookup_lt_Some with pos_nest;
      rewrite Hkeep by lia; done).
    destruct Hn16 as [? ?]. rewrite !wrap16_id by done.
    rewrite Hnest. by destruct pos_nest.
  - destruct Hages as (Hnew & _ & Hsame).
    rewrite Hsame, Hrow3 in Hrow'. injection Hrow' as <-.
    apply Hkeep.
    case_bool_decide as Hiu.
    + specialize (Haru Hiu). subst ar. lia.
    + assert (a' = ar) by congruence. lia.
Qed.

(** ** The display *)

Lemma sprite_of_direction d :
  -4 ≤ d ≤ 3 → np_get Colony_show_init d = Ok (8 * (d `mod` 4), 0, 8, 8).
Proof.
  intros Hd.
  assert (d = -4 ∨ d = -3 ∨ d = -2 ∨ d = -1 ∨ d = 0 ∨ d = 1 ∨ d = 2 ∨ d = 3)
    as Hcases by lia.
  destruct Hcases as [->|[->|[->|[->|[->|[->|[->| ->]]]]]]]; reflexivity.
Qed.

(** X15.  The display draws every ant.  For a colony of a run in a maze of at
    most 4096 rows and columns, with the mark of no direction between -4
    and 3, [display] applied to what [returns] gives makes one call of
    [blit] per ant, in the order of the ants: the sprite cut at the abscissa
    8 times the direction modulo 4 (so the mark -1 shows the sprite of the
    direction 3), drawn at 8 times the column and 8 times the row of the
    cell the ant stands on. *)
Theorem display_draws_every_ant nb_ants max_life0 pos_nest h w c :
  -4 ≤ DIR_NONE ≤ 3 → h ≤ 4096 → w ≤ 4096 →
  tick_inv nb_ants max_life0 pos_nest h w c → Forall dir_ok (directions c) →
  ∃ blits,
    display Colony_show_init (returns c).1.1 (returns c).1.2 (returns c).2
      = Ok blits
    ∧ length blits = nb_ants
    ∧ ∀ i d a row p,
        directions c !! i = Some d → age c !! i = Some a →
        historic_path c !! i = Some row → np_get row a = Ok p →
        blits !! i = Some ((8 * (d `mod` 4), 0, 8, 8), (8 * p.2, 8 * p.1)).
Proof.
  intros Hnone Hh Hw (Hshape & [Hlen Hinv] & Hin) Hdirs. simpl.
  pose proof Hshape as (_ & _ & _ & _ & _ & Hld & _).
  assert (∀ i, (i < nb_ants)%nat →
            ∃ d a row p, directions c !! i = Some d ∧ age c !! i = Some a
              ∧ historic_path c !! i = Some row ∧ np_get row a = Ok p
              ∧ -4 ≤ d ≤ 3 ∧ in_grid h w p) as Hant.
  { intros i Hi.
    destruct (current_total nb_ants max_life0 c i Hshape Hi)
      as (a & row & p & Ha & Hrow & Hp).
    { intros a Ha.
      destruct (Hinv i Hi) as (a' & ml & _ & _ & Ha' & _ & _ & _ & _ & ? & ? & _).
      assert (a' = a) as -> by congruence. lia. }
    destruct (lookup_lt_is_Some_2 (directions c) i) as [d Hd]; [lia|].
    exists d, a, row, p.
    split; [done|]. split; [done|]. split; [done|]. split; [done|]. split.
    - destruct (list.Forall_lookup_1 _ _ _ _ Hdirs Hd) as [->|?]; [|lia].
      rewrite wrap8_id; [done | unfold in_int8; lia].
    - by eapply current_in_grid. }
  assert (∀ i, (i < nb_ants)%nat →
            ∃ d a row p, directions c !! i = Some d ∧ age c !! i = Some a
              ∧ historic_path c !! i = Some row ∧ np_get row a = Ok p
              ∧ (d' ← getitem (directions c) i;
                 sp ← np_get Colony_show_init d';
                 a' ← getitem (age c) i;
                 row' ← getitem (historic_path c) i;
                 p' ← np_get row' a';
                 Ok (sp, (wrap16 (8 * p'.2), wrap16 (8 * p'.1))))
                = Ok ((8 * (d `mod` 4), 0, 8, 8), (8 * p.2, 8 * p.1))) as Hblit.
  { intros i Hi. destruct (Hant i Hi) as (d & a & row & p & Hd & Ha & Hrow & Hp & Hdr & [Hr Hk]).
    exists d, a, row, p. split_and!; try done.
    rewrite (getitem_lookup _ _ _ Hd). simpl.
    rewrite (sprite_of_direction d Hdr). simpl.
    rewrite (getitem_lookup _ _ _ Ha). simpl.
    rewrite (getitem_lookup _ _ _ Hrow). simpl. rewrite Hp. simpl.
    rewrite !wrap16_id by (unfold in_int16; lia). done. }
  unfold display.
  match goal with |- ∃ blits, lanes ?f ?l = _ ∧ _ =>
    destruct (lanes_total f l) as [blits Hblits] end.
  { intros i [_ Hi]%elem_of_seq. simpl in Hi.
    destruct (Hblit i ltac:(lia)) as (d & a & row & p & _ & _ & _ & _ & Hb). eauto. }
  exists blits. split; [done|].
  split; [by rewrite (lanes_length _ _ _ Hblits), length_seq|].
  intros i d a row p Hd Ha Hrow Hp.
  assert (i < nb_ants)%nat as Hi by (apply lookup_lt_Some in Hd; lia).
  destruct (lanes_lookup _ _ _ i i Hblits) as (b & Hb & Hf);
    [apply lookup_seq; split; [done | lia]|].
  destruct (Hblit i Hi) as (d' & a' & row' & p' & Hd' & Ha' & Hrow' & Hp' & Hb').
  assert (d' = d) as -> by congruence. assert (a' = a) as -> by congruence.
  assert (row' = row) as -> by congruence. assert (p' = p) as -> by congruence.
  assert (Ok b = Ok ((8 * (d `mod` 4), 0, 8, 8), (8 * p.2, 8 * p.1))) as Heq
    by (rewrite <- Hf; exact Hb').
  injection Heq as <-. exact Hb.
Qed.

(** ** The generator *)

(** X16.  The recurrence in closed form.  From a seed below the modulus, [n]
    steps give 16807 to the power [n], times the seed, modulo 2147483647:
    the 64-bit product of a step never overflows. *)
Theorem lcg_iter_power n s :
  0 ≤ s < 2147483647 →
  Nat.iter n lcg s = (16807 ^ Z.of_nat n * s) `mod` 2147483647.
Proof.
  intros Hs. induction n as [|n IH].
  - simpl. rewrite Z.mod_small; lia.
  - rewrite Nat2Z.inj_succ, Z.pow_succ_r by lia.
    change (Nat.iter (S n) lcg s) with (lcg (Nat.iter n lcg s)). rewrite IH.
    pose proof (Z.mod_pos_bound (16807 ^ Z.of_nat n * s) 2147483647 ltac:(lia)).
    rewrite lcg_small by lia. unfold modulus.
    rewrite Zmult_mod_idemp_r. f_equal. lia.
Qed.

(** ** The colony without ants *)

(** X17.  A colony of no ant.  The constructor accepts [nb_ants = 0]; a tick on
    the colony it makes reads neither the maze nor the pheromone, leaves the
    colony and the counter as they are and asks for no deposit. *)
Theorem advance_empty_colony fuel pos_init max_life0 c the_maze pos_food pos_nest
    pheromon food_counter :
  Colony_init 0 pos_init max_life0 = Ok c →
  advance fuel c the_maze pos_food pos_nest pheromon food_counter
  = Ok (c, food_counter, []).
Proof.
  intros Hc. unfold Colony_init in Hc.
  destruct (max_life0 + 1 <? 0); [discriminate Hc|].
  destruct (max_life0 + 1 =? 0); [discriminate Hc|].
  injection Hc as <-. reflexivity.
Qed.

(** ** A loaded ant at age 0 *)

Lemma np_get_last {A} (a : list A) x : list.last a = Some x → np_get a (-1) = Ok x.
Proof.
  intros Hlast. rewrite last_lookup in Hlast.
  assert (0 < length a)%nat as Hpos.
  { apply lookup_lt_Some in Hlast. lia. }
  unfold np_get, norm_index.
  replace ((0 <=? -1) && (-1 <? Z.of_nat (length a))) with false by done.
  replace ((- Z.of_nat (length a) <=? -1) && (-1 <? 0)) with true
    by (symmetry; apply andb_true_iff; split; [apply Z.leb_le; lia | done]).
  simpl. apply getitem_lookup.
  replace (Z.to_nat (Z.of_nat (length a) + -1)) with (pred (length a)) by lia.
  done.
Qed.

(** X18.  A loaded ant at age 0.  The return pass does not guard the decrement
    of the age: for a loaded ant at age 0 the age becomes -1, which as an
    index counts from the end, so the pass reads the last cell of the
    history and raises nothing.  The ant is unloaded if that cell is the
    nest, and is left loaded at age -1 otherwise. *)
Theorem return_to_nest_at_age_zero c pos_nest food_counter c' fc' i row p :
  return_to_nest c (loaded_of c) pos_nest food_counter = Ok (c', fc') →
  is_loaded c !! i = Some LOADED → age c !! i = Some 0 →
  historic_path c !! i = Some row → list.last row = Some p →
  if bool_decide (p = pos_nest)
  then age c' !! i = Some 0 ∧ is_loaded c' !! i = Some UNLOADED
  else age c' !! i = Some (-1) ∧ is_loaded c' !! i = Some LOADED.
Proof.
  intros Hret Hl Ha Hrow Hlast.
  assert (i ∈ loaded_of c) as Hil by by apply loaded_of_spec.
  destruct (return_to_nest_effect _ _ _ _ _ _ (NoDup_loaded_of c) Hret)
    as (arrived & _ & Harr & _ & Hin & Hrest & _).
  pose proof (np_get_last row p Hlast) as Hp.
  case_bool_decide as Hnest.
  - apply Hin, Harr. split; [done|]. exists 0, row. by subst.
  - destruct (Hrest i Hil) as (a & Ha' & Hage & Hsame).
    + intros (_ & a & row' & Ha' & Hrow' & Hp')%Harr.
      assert (a = 0) as -> by congruence. assert (row' = row) as -> by congruence.
      change (wrap64 (0 - 1)) with (-1) in Hp'. congruence.
    + assert (a = 0) as -> by congruence. split; [done | congruence].
Qed.

End Proofs.

(** * The example colony *)

Lemma example_tick1_run :
  (c ← @Colony_init example_direction 2 example_nest 5;
   example_run 1 (1, 1) example_no_trail c 0) = Ok (example_tick1, 0).
Proof. reflexivity. Qed.

Lemma example_tick1_food_run :
  (c ← @Colony_init example_direction 2 example_nest 5;
   example_run 1 example_food example_no_trail c 0) = Ok (example_tick1_food, 0).
Proof. reflexivity. Qed.

Lemma example_tick3_run :
  (c ← @Colony_init example_direction 2 example_nest 5;
   example_run 3 example_food example_no_trail c 0) = Ok (example_tick3, 1).
Proof. reflexivity. Qed.

Lemma example_returned_run :
  return_to_nest example_tick3 (loaded_of example_tick3) example_nest 1
  = Ok (example_returned, 1).
Proof. reflexivity. Qed.

Lemma example_senses_run :
  @sense_all example_flags example_step_a example_maze example_no_trail
  = Ok example_senses.
Proof. reflexivity. Qed.

Lemma example_run_reachable food_ok n pos_food pheromon c fc c' fc' :
  food_ok pos_food →
  example_run n pos_food pheromon c fc = Ok (c', fc') →
  @reachable example_direction example_flags food_ok 2 example_nest 5 c →
  @reachable example_direction example_flags food_ok 2 example_nest 5 c'.
Proof.
  intros Hfood. revert c fc. induction n as [|n IH]; intros c fc Hrun Hr;
    simpl in Hrun.
  - by injection Hrun as <- <-.
  - apply bind_Ok in Hrun as ([[c1 fc1] ms] & Hadv & Hrun). simpl in Hrun.
    eapply IH; [done|]. by eapply reach_tick.
Qed.

Lemma example_tick3_reachable :
  @reachable example_direction example_flags (λ pos_food, pos_food ≠ example_nest)
    2 example_nest 5 example_tick3.
Proof.
  destruct (@Colony_init example_direction 2 example_nest 5) as [c|] eqn:Hc;
    [|discriminate Hc].
  eapply (example_run_reachable _ 3 example_food example_no_trail c 0 _ 1).
  - discriminate.
  - injection Hc as <-. reflexivity.
  - by apply reach_init.
Qed.

(** * Instances of the claims on the example *)

Lemma example_ages_in_range (ages : list Z) :
  Forall age_in_range ages → ∀ i a, ages !! i = Some a → age_in_range a.
Proof. intros Hall i a Ha. by eapply Forall_lookup_1. Qed.

Lemma Colony_init_creates_witness :
  ∃ c, @Colony_init example_direction 2 example_nest 5 = Ok c
    ∧ seeds c !! 1%nat = Some 33614 ∧ max_life c !! 1%nat = Some 5
    ∧ age c !! 1%nat = Some 0.
Proof.
  destruct (@Colony_init_creates example_direction 2 example_nest 5)
    as (c & Hc & _ & _ & _ & _ & _ & _ & Hant).
  - simpl. lia.
  - split; unfold in_int16; simpl; lia.
  - lia.
  - unfold in_int8. simpl. lia.
  - exists c. split; [exact Hc|].
    destruct (Hant 1%nat ltac:(lia)) as (Hs & Hl & _ & _ & _ & Ha & _).
    split; [exact Hs|]. split; [exact Hl | exact Ha].
Defined.

(** The claim C10 as stated fails for a configured life of 189103595: for
    ant 2206, whose seed is 37093049, the float64 product is 3266348.0, one
    more than the integer part 3266347 of the exact quotient, and the life of
    the ant is 188287008, not the 188287009 of the exact formula. *)
Lemma Colony_init_life_rounds_up :
  ∃ c, @Colony_init example_direction 2207 example_nest 189103595 = Ok c
    ∧ seeds c !! 2206%nat = Some 37093049
    ∧ life_product 189103595 37093049 = 3266348
    ∧ max_life c !! 2206%nat = Some 188287008
    ∧ 188287008 ≠ 189103595 - (189103595 * 37093049) `div` (4 * 2147483647).
Proof.
  destruct (@init_returns example_direction 2207 example_nest 189103595
              ltac:(lia)) as [c Hc].
  assert (16807 * Z.of_nat 2207 < 9223372036854775808) as HN
    by (vm_compute; reflexivity).
  destruct (@init_seeds_lives example_direction 2207 example_nest 189103595 c
              HN ltac:(lia) Hc 2206%nat ltac:(apply Nat.lt_succ_diag_r))
    as [Hs Hl].
  assert ((16807 * (Z.of_nat 2206 + 1)) `mod` 2147483647 = 37093049) as Hseed
    by (vm_compute; reflexivity).
  rewrite Hseed in Hs, Hl.
  assert (life_product 189103595 37093049 = 3266348) as Hprod
    by (vm_compute; reflexivity).
  rewrite Hprod in Hl.
  exists c. split; [exact Hc|]. split; [exact Hs|]. split; [exact Hprod|].
  split; [exact Hl|]. vm_compute. discriminate.
Qed.

(** C7.  The direction that the retry loop compares a draw with is the one
    stored in [directions], and a step along a trail does not store one.
    Ant 0 of the example, whose stored direction is east, follows the trail
    south from (0,1) to (1,1).  On the next tick it explores from (1,1), a
    cell with two exits, north and west: the only move that the loop accepts
    there is north, the exact reverse of the move that the ant has just
    made, and the ant is back on (0,1). *)
Theorem follower_turns_back :
  (∃ ms, @advance example_direction example_flags 50 example_tick1 example_maze
           example_food example_nest example_south_trail 0
         = Ok (example_south, 0, ms))
  ∧ (∃ ms, @advance example_direction example_flags 50 example_south example_maze
             example_food example_nest example_no_trail 0
           = Ok (example_back, 0, ms))
  ∧ ∃ sn, @sense_cell example_flags example_maze example_no_trail (1, 1) = Ok sn
      ∧ has_north_exit sn = true ∧ has_west_exit sn = true ∧ nb_exits sn = 2
      ∧ ∀ s, mv_valid (@move_of example_direction s (1, 1) sn
                         (@DIR_EAST example_direction)) = true →
             mv_dir (@move_of example_direction s (1, 1) sn
                       (@DIR_EAST example_direction))
             = @DIR_NORTH example_direction.
Proof.
  split; [eexists; vm_compute; reflexivity|].
  split; [eexists; vm_compute; reflexivity|].
  eexists. split; [vm_compute; reflexivity|].
  split; [reflexivity|]. split; [reflexivity|]. split; [reflexivity|].
  intros s. unfold move_of. cbn [mv_valid mv_dir].
  pose proof (Z.mod_pos_bound s 4 ltac:(lia)) as Hs.
  assert (s `mod` 4 = 0 ∨ s `mod` 4 = 1 ∨ s `mod` 4 = 2 ∨ s `mod` 4 = 3)
    as [-> | [-> | [-> | ->]]] by lia; vm_compute; congruence.
Qed.

Lemma seeds_stay_positive_witness :
  Z.of_nat 2 < 2147483647 ∧ 0 < 1866991771 < 2147483647.
Proof.
  assert (Z.of_nat 2 < 2147483647) as HN by (simpl; lia).
  split; [exact HN|].
  exact (proj1 (@seeds_stay_positive example_direction example_flags
                  (λ pos_food, pos_food ≠ example_nest) 2 example_nest 5
                  example_tick3 HN example_tick3_reachable)
               1%nat 1866991771 eq_refl).
Defined.

Lemma ages_within_lives_witness :
  ∃ a ml, age example_tick3 !! 1%nat = Some a
    ∧ max_life example_tick3 !! 1%nat = Some ml ∧ 0 ≤ a ≤ ml.
Proof.
  refine (proj2 (@ages_within_lives example_direction example_flags
                   2 example_nest 5 example_tick3 _ _ example_tick3_reachable)
                1%nat _).
  - lia.
  - split; unfold in_int16; simpl; lia.
  - lia.
Defined.

Lemma return_to_nest_pass_witness :
  ∃ arrived : list nat,
    NoDup arrived ∧ 0%nat ∈ arrived ∧ 1 = 0 + Z.of_nat (length arrived).
Proof.
  destruct (return_to_nest_pass example_tick1_food example_nest 0
              (set_age example_tick1 [0; 1]) 1)
    as (arrived & Hnd & Harr & Hfc & _).
  - apply example_ages_in_range.
    repeat (apply Forall_cons_2; [unfold age_in_range; lia|]). apply Forall_nil_2.
  - reflexivity.
  - exists arrived. split; [exact Hnd|]. split; [|exact Hfc].
    apply Harr. split; [reflexivity|].
    exists 1, [(0, 0); (0, 1); (0, 0); (0, 0); (0, 0); (0, 0)].
    split; [reflexivity|]. split; reflexivity.
Defined.

Lemma advance_seeds_unloaded_only_witness :
  seeds example_step_a !! 0%nat = Some (lcg 1458777923)
  ∧ seeds example_step_a !! 1%nat = Some 1866991771.
Proof.
  pose proof (advance_seeds_unloaded_only example_tick3 example_returned
                example_step_a eq_refl) as Hw.
  split.
  - exact (proj1 (Hw 0%nat 1458777923 eq_refl) eq_refl).
  - apply (proj2 (Hw 1%nat 1866991771 eq_refl)). discriminate.
Defined.

Lemma retry_iteration_frame_witness :
  ∃ c' vm',
    @retry_iter example_direction example_step_a example_senses [false; false]
      [0%nat] = Ok (c', vm')
    ∧ seeds c' !! 1%nat = Some (lcg 1866991771)
    ∧ historic_path c' !! 1%nat = historic_path example_step_a !! 1%nat
    ∧ directions c' !! 1%nat = directions example_step_a !! 1%nat.
Proof.
  assert (@retry_iter example_direction example_step_a example_senses
            [false; false] [0%nat] = Ok (example_iter1, [false; false])) as Hrun
    by reflexivity.
  destruct (@retry_iteration_frame example_direction _ _ _ _ _ _
              (NoDup_singleton 0%nat) Hrun) as [Hseeds Hframe].
  exists example_iter1, [false; false]. split; [exact Hrun|].
  split; [exact (Hseeds 1%nat 1866991771 eq_refl)|].
  apply Hframe. intros [Hin _]. apply list_elem_of_singleton in Hin. discriminate Hin.
Defined.

(** The claim C1 as stated fails in the fourth tick of the example: ant 1 is
    loaded, and step (a) leaves its seed as it is. *)
Lemma step_a_skips_loaded_ants :
  ¬ (∀ i s, seeds example_returned !! i = Some s →
       ∃ c1, advance_seeds example_returned (unloaded_of example_tick3) = Ok c1
             ∧ seeds c1 !! i = Some (lcg s)).
Proof.
  intros Hclaim. destruct (Hclaim 1%nat 1866991771 eq_refl) as (c1 & Hc1 & Hs).
  vm_compute in Hc1. injection Hc1 as <-. vm_compute in Hs. discriminate Hs.
Qed.

(** The claim C2 as stated fails there too: ant 1 is outside the subset the
    first iteration of the retry loop works on, and the iteration advances
    its seed. *)
Lemma retry_iteration_advances_every_seed :
  ¬ (∀ i, ¬ (i ∈ [0%nat] ∧ [false; false] !! i = Some false) →
       ∃ c' vm',
         @retry_iter example_direction example_step_a example_senses
           [false; false] [0%nat] = Ok (c', vm')
         ∧ seeds c' !! i = seeds example_step_a !! i
         ∧ historic_path c' !! i = historic_path example_step_a !! i
         ∧ directions c' !! i = directions example_step_a !! i).
Proof.
  intros Hclaim. destruct (Hclaim 1%nat) as (c' & vm' & Hrun & Hs & _).
  - intros [Hin _]. apply list_elem_of_singleton in Hin. discriminate Hin.
  - vm_compute in Hrun. injection Hrun as <- <-. vm_compute in Hs. discriminate Hs.
Qed.





Lemma example_dirs_wf : @dirs_wf example_direction.
Proof. unfold dirs_wf. simpl. lia. Defined.

(** Ant 0 of the fourth tick explores from (1,0), where it arrived moving
    south: the move committed for it goes east, through an open exit; and
    the dead-end scenario: with only a south exit and having just moved
    north, drawing south is valid. *)
Lemma exploring_moves_valid_witness :
  (∃ sn d, @sense_cell example_flags example_maze example_no_trail (1, 0) = Ok sn
     ∧ directions example_moved !! 0%nat = Some d
     ∧ @exit_open example_direction sn d = true
     ∧ (@opposite example_direction 3 = Some d → nb_exits sn = 1))
  ∧ mv_valid (@move_of example_direction 3 (0, 0) example_dead_end 0) = true.
Proof.
  destruct (@exploring_moves_valid example_direction example_flags 50
              example_returned [0%nat] example_maze example_no_trail
              example_moved example_dirs_wf (NoDup_singleton 0%nat) eq_refl)
    as [(c1 & senses & ex & Hc1 & Hs & Hex & Hmoves) Hdead].
  split.
  - vm_compute in Hc1. injection Hc1 as <-.
    vm_compute in Hs. injection Hs as <-.
    vm_compute in Hex. injection Hex as <-.
    destruct (Hmoves 0%nat) as (a & row & old & sn & prev & d & row3
      & Ha & Hrow & Hold & Hsn & Hprev & Hrow3 & Hvalid).
    { apply list_elem_of_singleton. reflexivity. }
    injection Ha as <-. injection Hrow as <-.
    vm_compute in Hold. injection Hold as <-. injection Hprev as <-.
    destruct Hvalid as (_ & Hd & Hopen & _ & _ & Hopp).
    + unfold age_in_range. lia.
    + split; unfold in_int16; simpl; lia.
    + exists sn, d. split; [exact Hsn|]. split; [exact Hd|].
      split; [exact Hopen | exact Hopp].
  - refine (proj1 (Hdead 3 (0, 0) example_dead_end _ eq_refl eq_refl eq_refl
                     eq_refl eq_refl)).
    split; unfold in_int16; simpl; lia.
Defined.

(** * Instances of the further properties on the example *)

Lemma example_fresh_run :
  @Colony_init example_direction 2 example_nest 5 = Ok example_fresh.
Proof. reflexivity. Qed.

Lemma example_first_tick :
  @advance example_direction example_flags 50 example_fresh example_maze (1, 1)
    example_nest example_no_trail 0
  = Ok (example_tick1, 0, example_marks1).
Proof. reflexivity. Qed.

Lemma example_maze_wf : @maze_wf example_flags example_maze 2 2.
Proof.
  unfold maze_wf. split; [reflexivity|].
  split; [repeat constructor|]. split; [lia|]. split; [lia|].
  intros [r k] cell [Hr Hk] Hcell. simpl in *.
  assert ((r = 0 ∨ r = 1) ∧ (k = 0 ∨ k = 1)) as [[-> | ->] [-> | ->]] by lia;
    vm_compute in Hcell; injection Hcell as <-; vm_compute;
    repeat split; intros; congruence.
Qed.

Lemma example_no_trail_wf : pheromon_wf example_no_trail 2 2.
Proof. split; [reflexivity | repeat constructor]. Qed.

Lemma example_nest_in_grid : in_grid 2 2 example_nest.
Proof. split; simpl; lia. Qed.

Lemma example_tick1_inv :
  tick_inv 2 5 example_nest 2 2 example_tick1.
Proof.
  assert (pos_int16 example_nest) as Hn by (split; unfold in_int16; simpl; lia).
  split; [|split].
  - eapply advance_shape; [|exact example_first_tick].
    apply (@init_shape example_direction _ _ example_nest), example_fresh_run.
  - eapply advance_colony_inv; [| | | |exact example_first_tick].
    + lia.
    + exact Hn.
    + discriminate.
    + apply (@init_colony_inv example_direction);
        [lia | exact Hn | exact example_fresh_run].
  - eapply advance_in_grid;
      [exact example_maze_wf | exact example_nest_in_grid | | exact example_first_tick].
    eapply (@init_in_grid example_direction example_flags);
      [exact example_maze_wf | exact example_nest_in_grid | exact example_fresh_run].
Qed.

Lemma example_tick1_dirs : Forall (@dir_ok example_direction) (directions example_tick1).
Proof.
  eapply advance_dirs; [|exact example_first_tick].
  eapply (@init_dirs example_direction), example_fresh_run.
Qed.

(** The second tick of a run with the food at (0,1): ant 0, loaded on the
    first tick, is back on the nest; the counter goes from 0 to 1, and ant 0
    is the one ant that delivered. *)
Lemma advance_counts_deliveries_witness :
  ∃ c' ms,
    @advance example_direction example_flags 50 example_tick1_food example_maze
      example_food example_nest example_no_trail 0 = Ok (c', 1, ms)
    ∧ 1 = 0 + Z.of_nat (length (delivered example_tick1_food c')).
Proof.
  eassert (@advance example_direction example_flags 50 example_tick1_food
             example_maze example_food example_nest example_no_trail 0
           = Ok (_, _, _)) as Hrun by (vm_compute; reflexivity).
  pose proof (advance_counts_deliveries _ _ _ _ _ _ _ _ _ _ Hrun) as Hw.
  eexists _, _. split; [exact Hrun | exact Hw].
Defined.

(** Ant 0 at age 4 of a life of 5: the tick on which it dies.  After
    [explore] its age is 0 and it has no direction; ant 1, at age 1, is at
    age 2. *)
Lemma explore_ages_and_kills_witness :
  ∃ c',
    @explore example_direction example_flags 50 (set_age example_tick1 [4; 1])
      [0; 1]%nat example_maze (5, 5) example_nest example_no_trail = Ok c'
    ∧ age c' !! 0%nat = Some 0 ∧ directions c' !! 0%nat = Some (-1)
    ∧ is_loaded c' !! 0%nat = Some false
    ∧ age c' !! 1%nat = Some 2.
Proof.
  eassert (@explore example_direction example_flags 50
             (set_age example_tick1 [4; 1]) [0; 1]%nat example_maze (5, 5)
             example_nest example_no_trail = Ok _) as Hrun
    by (vm_compute; reflexivity).
  destruct (@explore_ages_and_kills example_direction example_flags 50
              (set_age example_tick1 [4; 1]) [0; 1]%nat example_maze (5, 5)
              example_nest example_no_trail _ (NoDup_seq 0 2)
              ltac:(split; unfold in_int16; simpl; lia) Hrun)
    as [_ Hages].
  eexists. split; [exact Hrun|].
  destruct (Hages 0%nat 4 5 eq_refl eq_refl) as (Ha0 & Hd0 & _ & Hl0).
  pose proof (Hages 1%nat 1 5 eq_refl eq_refl) as Ha1.
  split; [exact Ha0|]. split; [exact Hd0|].
  split; [apply Hl0; discriminate | exact Ha1].
Defined.

(** The first tick of a run with the food at (0,1): ant 0 steps east onto
    the food and is loaded. *)
Lemma explore_picks_food_witness :
  ∃ c',
    @explore example_direction example_flags 50 example_fresh [0; 1]%nat
      example_maze example_food example_nest example_no_trail = Ok c'
    ∧ is_loaded c' !! 0%nat = Some LOADED.
Proof.
  eassert (@explore example_direction example_flags 50 example_fresh [0; 1]%nat
             example_maze example_food example_nest example_no_trail = Ok _)
    as Hrun by (vm_compute; reflexivity).
  destruct (@explore_picks_food example_direction example_flags 50 example_fresh
              [0; 1]%nat example_maze example_food example_nest example_no_trail
              _ (NoDup_seq 0 2) Hrun) as [_ Hload].
  eexists. split; [exact Hrun|].
  apply Hload. right. split; [apply list_elem_of_here|].
  exists 1, [(0, 0); (0, 1); (0, 0); (0, 0); (0, 0); (0, 0)].
  split; [reflexivity|]. split; reflexivity.
Defined.

(** In the maze of one cell without exit the first tick of the example
    gives no result. *)
Lemma closed_cell_hangs_witness :
  ¬ ∃ r, @advance example_direction example_flags 50 example_fresh
           example_closed_maze (1, 1) example_nest example_no_trail 0 = Ok r.
Proof.
  intros [r Hr]. revert r Hr.
  apply (@closed_cell_hangs example_direction example_flags 50 example_fresh
           example_closed_maze (1, 1) example_nest example_no_trail 0
           0%nat 0 [(0, 0); (0, 0); (0, 0); (0, 0); (0, 0); (0, 0)] (0, 0) 0);
    try reflexivity; try (simpl; lia).
  split; unfold in_int16; simpl; lia.
Defined.

Lemma Colony_init_unique_seeds_witness : NoDup (seeds example_fresh).
Proof.
  apply (@Colony_init_unique_seeds example_direction 2 example_nest 5 example_fresh).
  - simpl. lia.
  - exact example_fresh_run.
Defined.

(** On the trail of the example both ants of [example_tick1] follow; ant 1
    moves from (1,0) to (0,1) and keeps the direction 3 of its last
    exploring move. *)
Lemma followers_keep_direction_witness :
  directions example_followed !! 1%nat = Some 3.
Proof.
  destruct (@followers_keep_direction example_direction example_flags 50
              example_tick1 [0; 1]%nat example_maze example_trail
              example_followed (NoDup_seq 0 2) eq_refl)
    as (c1 & senses & ex & fo & Hc1 & Hs & Hex & Hfo & Hkeep & _).
  vm_compute in Hc1. injection Hc1 as <-.
  vm_compute in Hs. injection Hs as <-.
  vm_compute in Hfo. injection Hfo as <-.
  rewrite (Hkeep 1%nat); [reflexivity|].
  apply list_elem_of_lookup. exists 1%nat. reflexivity.
Defined.

(** The deposits of the first tick: two, and the first at the cell (0,1) of
    ant 0, whose exits are south and west. *)
Lemma advance_marks_every_ant_witness :
  length example_marks1 = length (directions example_tick1)
  ∧ ∃ a row cell,
      age example_tick1 !! 0%nat = Some a
      ∧ historic_path example_tick1 !! 0%nat = Some row
      ∧ np_get row a = Ok (0, 1)
      ∧ np_get2 example_maze 0 1 = Ok cell
      ∧ (false, false, true, true)
        = (0 <? Z.land cell (@NORTH example_flags),
           0 <? Z.land cell (@EAST example_flags),
           0 <? Z.land cell (@WEST example_flags),
           0 <? Z.land cell (@SOUTH example_flags)).
Proof.
  destruct (@advance_marks_every_ant example_direction example_flags 50
              example_fresh example_maze (1, 1) example_nest example_no_trail 0
              example_tick1 0 example_marks1 example_first_tick)
    as [Hlen Hall].
  split; [exact Hlen|].
  exact (Hall 0%nat (0, 1) (false, false, true, true) eq_refl).
Defined.

Lemma shape_is_kept_witness :
  shape_inv 2 5 example_fresh ∧ shape_inv 2 5 example_tick1
  ∧ length example_marks1 = 2%nat.
Proof.
  destruct (@shape_is_kept example_direction example_flags 2 5 example_nest)
    as [Hinit Hstep].
  pose proof (Hinit example_fresh example_fresh_run) as Hfresh.
  split; [exact Hfresh|].
  destruct (Hstep 50%nat example_fresh example_maze (1, 1) example_no_trail 0
              example_tick1 0 example_marks1 Hfresh example_first_tick)
    as (Hshape & _ & Hms).
  split; [exact Hshape | exact Hms].
Defined.

(** The fourth tick of a run with the food at (0,1): ant 1, loaded at age 3
    on the food, steps back to (1,1), which is not the nest, and stays
    loaded at age 2. *)
Lemma advance_loaded_ant_witness :
  ∃ c' fc' ms,
    @advance example_direction example_flags 50 example_tick3 example_maze
      example_food example_nest example_no_trail 1 = Ok (c', fc', ms)
    ∧ age c' !! 1%nat = Some 2 ∧ is_loaded c' !! 1%nat = Some LOADED
    ∧ directions c' !! 1%nat = Some 0.
Proof.
  eassert (@advance example_direction example_flags 50 example_tick3
             example_maze example_food example_nest example_no_trail 1
           = Ok (_, _, _)) as Hrun by (vm_compute; reflexivity).
  destruct (@advance_loaded_ant example_direction example_flags 50 example_tick3
              example_maze example_food example_nest example_no_trail 1
              _ _ _ 1%nat 3 5
              [(0, 0); (1, 0); (1, 1); (0, 1); (0, 0); (0, 0)] (1, 1) Hrun)
    as (Ha & Hl & _ & Hd); try reflexivity; try lia.
  eexists _, _, _. split; [exact Hrun|].
  split; [exact Ha|]. split; [exact Hl | exact Hd].
Defined.

Lemma ants_stay_in_maze_witness :
  path_in_grid 2 2 example_fresh ∧ path_in_grid 2 2 example_tick1
  ∧ in_grid 2 2 (0, 1).
Proof.
  destruct (@ants_stay_in_maze example_direction example_flags example_maze 2 2
              example_nest example_maze_wf example_nest_in_grid)
    as [Hinit Hstep].
  pose proof (Hinit 2%nat 5 example_fresh example_fresh_run) as Hfresh.
  split; [exact Hfresh|].
  destruct (Hstep 50%nat example_fresh (1, 1) example_no_trail 0
              example_tick1 0 example_marks1 Hfresh example_first_tick)
    as [Hin Hcur].
  split; [exact Hin|].
  exact (Hcur 0%nat 1 [(0, 0); (0, 1); (0, 0); (0, 0); (0, 0); (0, 0)] (0, 1)
           eq_refl eq_refl eq_refl).
Defined.

Lemma directions_stay_valid_witness :
  Forall (@dir_ok example_direction) (directions example_tick1).
Proof.
  destruct (@directions_stay_valid example_direction example_flags example_nest)
    as [Hinit Hstep].
  exact (Hstep 50%nat example_fresh example_maze (1, 1) example_no_trail 0
           example_tick1 0 example_marks1
           (Hinit 2%nat 5 example_fresh example_fresh_run) example_first_tick).
Defined.

Lemma tick_raises_no_index_error_witness :
  tick_inv 2 5 example_nest 2 2 example_tick1
  ∧ ((∃ r, @advance example_direction example_flags 50 example_tick1 example_maze
             example_food example_nest example_no_trail 0 = Ok r)
     ∨ @advance example_direction example_flags 50 example_tick1 example_maze
         example_food example_nest example_no_trail 0 = Raise Diverged).
Proof.
  destruct (@tick_raises_no_index_error example_direction example_flags 2 5
              example_nest example_maze 2 2)
    as (Hinit & Hstep & Htotal).
  - lia.
  - exact example_maze_wf.
  - exact example_nest_in_grid.
  - assert (tick_inv 2 5 example_nest 2 2
              example_tick1) as Hinv.
    { apply (Hstep 50%nat example_fresh (1, 1) example_no_trail 0
               example_tick1 0 example_marks1).
      - exact (Hinit example_fresh example_fresh_run).
      - discriminate.
      - exact example_first_tick. }
    split; [exact Hinv|].
    exact (Htotal 50%nat example_tick1 example_food example_no_trail 0 Hinv
             example_no_trail_wf).
Defined.

(** The display of the example after its first tick: ant 0, on (0,1) and
    facing east, is drawn with the sprite cut at the abscissa 8, at the
    pixel (8, 0). *)
Lemma display_draws_every_ant_witness :
  ∃ blits,
    display Colony_show_init (returns example_tick1).1.1
      (returns example_tick1).1.2 (returns example_tick1).2 = Ok blits
    ∧ length blits = 2%nat
    ∧ blits !! 0%nat = Some ((8, 0, 8, 8), (8, 0)).
Proof.
  destruct (@display_draws_every_ant example_direction 2 5
              example_nest 2 2 example_tick1)
    as (blits & Hrun & Hlen & Hall).
  - simpl. lia.
  - lia.
  - lia.
  - exact example_tick1_inv.
  - exact example_tick1_dirs.
  - exists blits. split; [exact Hrun|]. split; [exact Hlen|].
    exact (Hall 0%nat 1 1 [(0, 0); (0, 1); (0, 0); (0, 0); (0, 0); (0, 0)] (0, 1)
             eq_refl eq_refl eq_refl eq_refl).
Defined.

Lemma lcg_iter_power_witness :
  Nat.iter 2 lcg 1 = (16807 ^ Z.of_nat 2 * 1) `mod` 2147483647.
Proof. apply (lcg_iter_power 2 1). lia. Defined.

Lemma advance_empty_colony_witness :
  ∃ c, @Colony_init example_direction 0 example_nest 5 = Ok c
    ∧ @advance example_direction example_flags 50 c example_maze example_food
        example_nest example_no_trail 0 = Ok (c, 0, []).
Proof.
  destruct (@Colony_init example_direction 0 example_nest 5) as [c|e] eqn:Hc;
    [|discriminate Hc].
  exists c. split; [reflexivity|].
  exact (@advance_empty_colony example_direction example_flags 50 example_nest 5
           c example_maze example_food example_nest example_no_trail 0 Hc).
Defined.

(** The pass of the unloaded ants in the fourth tick of the example: ant 0
    explores, the retry loop runs twice, the seed of ant 0 is three steps
    further and the seed of ant 1, which is loaded, two. *)
Lemma tick_seed_steps_witness :
  ∃ c',
    @explore example_direction example_flags 50 example_returned [0%nat]
      example_maze example_food example_nest example_no_trail = Ok c'
    ∧ @retry_count example_direction 50 example_step_a example_senses
        [false; false] [0%nat] = Ok 2%nat
    ∧ seeds c' !! 0%nat = Some (Nat.iter 3 lcg 1458777923)
    ∧ seeds c' !! 1%nat = Some (Nat.iter 2 lcg 1866991771).
Proof.
  eassert (@explore example_direction example_flags 50 example_returned [0%nat]
             example_maze example_food example_nest example_no_trail = Ok _)
    as Hrun by (vm_compute; reflexivity).
  destruct (@tick_seed_steps example_direction example_flags 50 example_returned
              [0%nat] example_maze example_food example_nest example_no_trail _
              (NoDup_singleton 0%nat) Hrun)
    as (c1 & senses & ex & k & Hc1 & Hsenses & Hex & Hcount & Hseeds).
  vm_compute in Hc1. injection Hc1 as <-.
  vm_compute in Hsenses. injection Hsenses as <-.
  vm_compute in Hex. injection Hex as <-.
  vm_compute in Hcount. injection Hcount as <-.
  eexists. split; [exact Hrun|]. split; [reflexivity|]. split.
  - exact (Hseeds 0%nat 1458777923 eq_refl).
  - exact (Hseeds 1%nat 1866991771 eq_refl).
Defined.

(** The fourth tick of a run with the food at (0,1): ant 1 goes back from
    age 3 to age 2, and the cell of its history at index 2 is still the
    cell (1,1) it walked through. *)
Lemma walked_path_is_kept_witness :
  ∃ c' fc' ms row',
    @advance example_direction example_flags 50 example_tick3 example_maze
      example_food example_nest example_no_trail 1 = Ok (c', fc', ms)
    ∧ historic_path c' !! 1%nat = Some row'
    ∧ row' !! 2%nat = Some (1, 1).
Proof.
  eassert (@advance example_direction example_flags 50 example_tick3
             example_maze example_food example_nest example_no_trail 1
           = Ok (_, _, _)) as Hrun by (vm_compute; reflexivity).
  assert (pos_int16 example_nest) as Hn by (split; unfold in_int16; simpl; lia).
  assert (colony_inv 2 5 example_nest example_tick3) as Hinv.
  { apply (@reachable_colony_inv example_direction example_flags);
      [lia | exact Hn | exact example_tick3_reachable]. }
  pose proof (@walked_path_is_kept example_direction example_flags 2 5 50
                example_tick3 example_maze example_food example_nest
                example_no_trail 1 _ _ _ ltac:(lia) Hn Hinv Hrun) as Hkeep.
  eexists _, _, _, _. split; [exact Hrun|]. split; [reflexivity|].
  exact (Hkeep 1%nat 3 2 _ _ eq_refl eq_refl eq_refl eq_refl 2%nat ltac:(simpl; lia)).
Defined.

(** A loaded ant at age 0 whose history ends on (1,1): the pass leaves it
    loaded, at age -1. *)
Lemma return_to_nest_at_age_zero_witness :
  ∃ c' fc',
    return_to_nest (set_age example_tick1_food [0; 1])
      (loaded_of (set_age example_tick1_food [0; 1])) (1, 1) 0 = Ok (c', fc')
    ∧ age c' !! 0%nat = Some (-1) ∧ is_loaded c' !! 0%nat = Some LOADED.
Proof.
  eassert (return_to_nest (set_age example_tick1_food [0; 1])
             (loaded_of (set_age example_tick1_food [0; 1])) (1, 1) 0
           = Ok (_, _)) as Hrun by (vm_compute; reflexivity).
  eexists _, _. split; [exact Hrun|].
  exact (return_to_nest_at_age_zero (set_age example_tick1_food [0; 1]) (1, 1) 0
           _ _ 0%nat [(0, 0); (0, 1); (0, 0); (0, 0); (0, 0); (0, 0)] (0, 0)
           Hrun eq_refl eq_refl eq_refl eq_refl).
Defined.
